(** * huggingface_hub: token resolution and the task-parameter generator

    A shallow embedding of

    - [src/huggingface_hub/utils/_auth.py] (token lookup, token
      normalisation, the profile store), module [Auth];
    - [utils/generate_task_parameters.py] (the libcst visitors and
      transformers that keep the [InferenceClient] task methods in sync
      with the generated parameter dataclasses), module [TaskParams];

    together with the Python exceptions they raise or catch (module
    [Exn]), the string methods both files rely on (module [Py]) and the
    part of the libcst syntax tree the script inspects (module [Cst]).
    The properties follow the definitions: [PyFacts], [AuthSpec],
    [CstFacts] and [TaskParamsSpec].

    Strings are Rocq [string]s (one character per byte, ASCII classes);
    Python sets are [gset string]; a Python [dict] whose iteration order
    is observable is an association list updated with Python's insertion
    rule; a sequence field of a syntax node is a tuple or a list, which
    [+] tells apart; a call that may raise returns a [result].  What lies
    outside the two files (the notebook vault, the warnings filter,
    [_runtime], [configparser], the evaluation of string literals and the
    import gathering of libcst, the builtin names of the interpreter, the
    iteration order of a set) is a parameter of the definitions that use
    it. *)

From Stdlib Require Import String Ascii List Bool Arith Lia.
From stdpp Require Import base option list gmap sets strings.

#[global] Set Warnings "-clear-no-such-hyp".

(** ** Python exceptions and results *)

Module Exn.

(** The exceptions that the modelled code can raise or catch. *)
Inductive exn : Type :=
| IndexError
| TypeError
| FileNotFoundError
| UnicodeDecodeError
| PermissionError
| UserWarning                         (* a warning that the filter turns into an error *)
| ConfigparserError (kind : string)   (* configparser.Error and subclasses *)
| NoOptionError (section option : string)
| OtherException (name : string).     (* any exception class not named above *)

(** [except configparser.Error] catches the base class and its subclasses. *)
Definition is_configparser_Error (e : exn) : bool :=
  match e with
  | ConfigparserError _ | NoOptionError _ _ => true
  | _ => false
  end.

(** A computation either returns a value or raises. *)
Inductive result (A : Type) : Type :=
| Ok (a : A)
| Raise (e : exn).
Arguments Ok {A} a.
Arguments Raise {A} e.

Global Instance result_ret : MRet result := fun A a => Ok a.
Global Instance result_bind : MBind result := fun A B k m =>
  match m with
  | Ok a => k a
  | Raise e => Raise e
  end.

(** Monadic map over a list, left to right, stopping at the first raise.
    Written with a local [fix] so that it can be used on the children of a
    nested inductive type. *)
Definition mapM {A B} (f : A -> result B) : list A -> result (list B) :=
  fix go (l : list A) : result (list B) :=
    match l with
    | [] => Ok []
    | x :: l' =>
        match f x with
        | Ok y => match go l' with
                  | Ok ys => Ok (y :: ys)
                  | Raise e => Raise e
                  end
        | Raise e => Raise e
        end
    end.

(** A loop over a list that threads a state, left to right, stopping at
    the first raise.  Written with a local [fix], as [mapM]. *)
Definition foldM {A St} (f : A -> St -> result St) : list A -> St -> result St :=
  fix go (l : list A) (st : St) : result St :=
    match l with
    | [] => Ok st
    | x :: l' =>
        match f x st with
        | Ok st' => go l' st'
        | Raise e => Raise e
        end
    end.

End Exn.
Export Exn.

(** ** Python [str] methods *)

Module Py.

Definition LF : ascii := "010"%char.
Definition CR : ascii := "013"%char.
Definition dquote : ascii := "034"%char.
Definition squote : ascii := "039"%char.
Definition nl : string := String LF EmptyString.
Definition cr : string := String CR EmptyString.

(** The two quote characters, the argument of [t.strip] in the script. *)
Definition quotes : string := String dquote (String squote EmptyString).

(** [str.isspace] on one ASCII character: TAB, LF, VT, FF, CR, the four
    separators FS..US, and the space.  These are what [strip()] removes. *)
Definition isspace (c : ascii) : bool :=
  let n := nat_of_ascii c in
  ((9 <=? n) && (n <=? 13)) || ((28 <=? n) && (n <=? 32)).

(** Membership of a character in the argument of [strip(chars)]. *)
Fixpoint in_chars (chars : string) (c : ascii) : bool :=
  match chars with
  | EmptyString => false
  | String d chars' => Ascii.eqb c d || in_chars chars' c
  end.

Fixpoint lstrip_by (p : ascii -> bool) (s : string) : string :=
  match s with
  | EmptyString => EmptyString
  | String c s' => if p c then lstrip_by p s' else s
  end.

Fixpoint rstrip_by (p : ascii -> bool) (s : string) : string :=
  match s with
  | EmptyString => EmptyString
  | String c s' =>
      match rstrip_by p s' with
      | EmptyString => if p c then EmptyString else String c EmptyString
      | r => String c r
      end
  end.

Definition strip_by (p : ascii -> bool) (s : string) : string :=
  rstrip_by p (lstrip_by p s).

(** [s.strip()], [s.lstrip()] *)
Definition strip : string -> string := strip_by isspace.
Definition lstrip : string -> string := lstrip_by isspace.
(** [s.strip(chars)], [s.rstrip(chars)] *)
Definition strip_chars (chars : string) : string -> string := strip_by (in_chars chars).
Definition rstrip_chars (chars : string) : string -> string := rstrip_by (in_chars chars).

(** [s.replace(old, new)]: every non-overlapping occurrence, left to right.
    [skip] counts the characters of a matched occurrence still to drop. *)
Fixpoint replace_go (old new : string) (skip : nat) (s : string) : string :=
  match s with
  | EmptyString => EmptyString
  | String c s' =>
      match skip with
      | S k => replace_go old new k s'
      | O =>
          if String.prefix old s
          then new +:+ replace_go old new (String.length old - 1) s'
          else String c (replace_go old new 0 s')
      end
  end.

Fixpoint intersperse_go (new : string) (s : string) : string :=
  match s with
  | EmptyString => EmptyString
  | String c s' => String c (new +:+ intersperse_go new s')
  end.

Definition replace (old new s : string) : string :=
  match old with
  | EmptyString => new +:+ intersperse_go new s
  | _ => replace_go old new 0 s
  end.

(** [sub in s] *)
Fixpoint contains (sub s : string) : bool :=
  String.prefix sub s ||
  match s with
  | EmptyString => false
  | String _ s' => contains sub s'
  end.

(** [s.split(sep)] for a one-character separator. *)
Fixpoint split (sep : ascii) (s : string) : list string :=
  match s with
  | EmptyString => [EmptyString]
  | String c s' =>
      if Ascii.eqb c sep then EmptyString :: split sep s'
      else match split sep s' with
           | l :: ls => String c l :: ls
           | [] => [String c EmptyString]
           end
  end.

(** [sep.join(l)] *)
Definition join (sep : string) (l : list string) : string := String.concat sep l.

Definition lower_char (c : ascii) : ascii :=
  let n := nat_of_ascii c in
  if (65 <=? n) && (n <=? 90) then ascii_of_nat (n + 32) else c.

(** [s.lower()], on ASCII *)
Fixpoint lower (s : string) : string :=
  match s with
  | EmptyString => EmptyString
  | String c s' => String (lower_char c) (lower s')
  end.

(** [" " * n] *)
Fixpoint spaces (n : nat) : string :=
  match n with
  | O => EmptyString
  | S k => String " "%char (spaces k)
  end.

(** [s or None]: the empty string is falsy. *)
Definition or_None (s : string) : option string :=
  match s with
  | EmptyString => None
  | _ => Some s
  end.

(** [a or b] on optional strings: [None] and [EmptyString] are falsy. *)
Definition or_else (a b : option string) : option string :=
  match a with
  | Some (String _ _) => a
  | _ => b
  end.

(** Keep the characters that satisfy [p]. *)
Fixpoint filter_chars (p : ascii -> bool) (s : string) : string :=
  match s with
  | EmptyString => EmptyString
  | String c s' => if p c then String c (filter_chars p s') else filter_chars p s'
  end.

(** *** [bytes]

    A string literal denotes a [str] or, with the prefix b, a [bytes];
    a [bytes] is kept as the string of its bytes. *)
Inductive pyvalue : Type :=
| Str (s : string)
| Bytes (b : string).

(** The bytes that [bytes.strip()] removes: space, TAB, LF, CR, VT, FF. *)
Definition bytes_isspace (c : ascii) : bool :=
  let n := nat_of_ascii c in
  ((9 <=? n) && (n <=? 13)) || (n =? 32).

(** [v.strip()] on a [str] or a [bytes] *)
Definition value_strip (v : pyvalue) : pyvalue :=
  match v with
  | Str s => Str (strip s)
  | Bytes b => Bytes (strip_by bytes_isspace b)
  end.

Definition backslash : ascii := "092"%char.
Definition TAB : ascii := "009"%char.

Definition hex_digit (n : nat) : ascii :=
  match String.get n "0123456789abcdef" with
  | Some c => c
  | None => "0"%char
  end.

(** One byte in [repr(b)], between the quotes [quote]. *)
Definition bytes_repr_byte (quote c : ascii) : string :=
  let n := nat_of_ascii c in
  if Ascii.eqb c quote || Ascii.eqb c backslash then String backslash (String c EmptyString)
  else if Ascii.eqb c TAB then String backslash "t"
  else if Ascii.eqb c LF then String backslash "n"
  else if Ascii.eqb c CR then String backslash "r"
  else if (n <? 32) || (127 <=? n) then
    String backslash (String "x" (String (hex_digit (n / 16)) (String (hex_digit (n mod 16)) EmptyString)))
  else String c EmptyString.

Fixpoint bytes_repr_go (quote : ascii) (b : string) : string :=
  match b with
  | EmptyString => EmptyString
  | String c b' => bytes_repr_byte quote c +:+ bytes_repr_go quote b'
  end.

(** [repr(b)], which is also [str(b)] and what an f-string prints for a
    [bytes]: single quotes, unless the bytes hold a single quote and no
    double quote. *)
Definition bytes_repr (b : string) : string :=
  let quote := if in_chars b squote && negb (in_chars b dquote) then dquote else squote in
  String "b" (String quote (bytes_repr_go quote b +:+ String quote EmptyString)).

(** [f"{v or ''}"] *)
Definition format_or_empty (v : pyvalue) : string :=
  match v with
  | Str s => s
  | Bytes EmptyString => EmptyString
  | Bytes b => bytes_repr b
  end.

End Py.

(** ** The libcst syntax tree

    The node classes that [generate_task_parameters.py] inspects or builds.
    An annotation is kept as its source text: the script renders it with
    [code_for_node] when it reads a field and parses that text again with
    [parse_expression] when it writes a parameter. *)

Module Cst.

(** A sequence field of a node.  The parser fills it with a tuple; the
    script stores lists.  Indexing, slicing, iteration and [list(...)]
    treat both alike; [+] does not.  The kind is kept for the two fields
    the script adds, [params] and [kwonly_params]; the other sequence
    fields are plain lists. *)
Inductive sequence (A : Type) : Type :=
| Tuple (items : list A)
| PyList (items : list A).
Arguments Tuple {A} items.
Arguments PyList {A} items.

Definition items {A} (s : sequence A) : list A :=
  match s with
  | Tuple l | PyList l => l
  end.

(** [a + b]: a tuple is added to a tuple and a list to a list. *)
Definition add {A} (a b : sequence A) : result (sequence A) :=
  match a, b with
  | Tuple x, Tuple y => Ok (Tuple (x ++ y))
  | PyList x, PyList y => Ok (PyList (x ++ y))
  | _, _ => Raise TypeError
  end.

Inductive expr : Type :=
| Name (value : string)
| SimpleString (value : string)          (* the literal as written, quotes included *)
| OtherExpression (code : string).

(** A node the script stores without looking inside: the object (its
    identity) and what [repr] prints for it. *)
Record node : Type := {
  node_id : nat;
  node_repr : string;
}.

(** Two nodes are equal when they are the same object. *)
#[global] Instance node_eq_dec : EqDecision node.
Proof. solve_decision. Defined.

(** [ImportFrom.module]: a [Name], whose [value] is the identifier, or an
    [Attribute] (a dotted name), whose [value] is the node left of the
    last dot. *)
Inductive module_expr : Type :=
| ModuleName (value : string)
| ModuleAttribute (value : node) (attr : string).

(** [ImportFrom.names]: the star, or the imported names. *)
Inductive import_names : Type :=
| ImportStar
| ImportAliases (names : list string).

Inductive small_stmt : Type :=
| AnnAssign (target : expr) (annotation : string)
| Expr (value : expr)
| Import (names : list string)
| ImportFrom (module : option module_expr) (names : import_names)
| OtherSmallStatement (code : string).

Record Param : Type := {
  name : string;
  annotation : option string;
  default : option string;
}.

Record Parameters : Type := {
  params : sequence Param;
  star_arg : option Param;
  kwonly_params : sequence Param;
  star_kwarg : option Param;
  posonly_params : list Param;
}.

#[local] Set Warnings "-register-all".

(** The body of a compound statement: an indented block of statements, or
    small statements on the header's line. *)
Inductive suite (S : Type) : Type :=
| IndentedBlock (body : list S)
| SimpleStatementSuite (body : list small_stmt).
Arguments IndentedBlock {S} body.
Arguments SimpleStatementSuite {S} body.

(** [CompoundStatement] stands for [If], [For], [While], [Try], [With] and
    [Match]: none of them is looked at, but the traversals go through
    their blocks in source order. *)
Inductive stmt : Type :=
| SimpleStatementLine (body : list small_stmt)
| ClassDef (name : string) (body : suite stmt)
| FunctionDef (name : string) (params : Parameters) (body : suite stmt)
| CompoundStatement (kind : string) (blocks : list (suite stmt)).

Record module : Type := { body : list stmt }.

(** A property of the statements of a block. *)
Definition suite_Forall (P : stmt -> Prop) (b : suite stmt) : Prop :=
  match b with
  | IndentedBlock l => Forall P l
  | SimpleStatementSuite _ => True
  end.

(** [enumerate(l)] *)
Definition enumerate {A} (l : list A) : list (nat * A) := zip (seq 0 (length l)) l.

(** [CSTVisitor]: the hooks the script overrides, acting on the visitor's
    own state.  They return [None] in the source, so the children of the
    node are visited after the hook; a hook that raises ends the visit. *)
Class CSTVisitor (St : Type) : Type := {
  visit_ClassDef : string -> suite stmt -> St -> result St;
  visit_FunctionDef : string -> Parameters -> suite stmt -> St -> result St;
  visit_ImportFrom : option module_expr -> import_names -> St -> result St;
}.

Section Visit.
Context {St : Type} (v : CSTVisitor St).

Definition visit_small (s : small_stmt) (st : St) : result St :=
  match s with
  | ImportFrom module names => visit_ImportFrom module names st
  | _ => Ok st
  end.

(** Depth first, hook before children, children in source order. *)
Fixpoint visit_stmt (s : stmt) (st : St) : result St :=
  let visit_suite (b : suite stmt) (st : St) : result St :=
    match b with
    | IndentedBlock l => foldM visit_stmt l st
    | SimpleStatementSuite smalls => foldM visit_small smalls st
    end in
  match s with
  | SimpleStatementLine smalls => foldM visit_small smalls st
  | ClassDef name body =>
      match visit_ClassDef name body st with
      | Ok st' => visit_suite body st'
      | Raise e => Raise e
      end
  | FunctionDef name params body =>
      match visit_FunctionDef name params body st with
      | Ok st' => visit_suite body st'
      | Raise e => Raise e
      end
  | CompoundStatement _ blocks => foldM visit_suite blocks st
  end.

Definition visit_suite (b : suite stmt) (st : St) : result St :=
  match b with
  | IndentedBlock l => foldM visit_stmt l st
  | SimpleStatementSuite smalls => foldM visit_small smalls st
  end.

(** [module.visit(visitor)] *)
Definition visit (m : module) (st : St) : result St :=
  foldM visit_stmt (body m) st.
End Visit.

(** [CSTTransformer] with the one statement hook the script overrides:
    [leave_FunctionDef original_node updated_node]. *)
Class CSTTransformer : Type := {
  leave_FunctionDef : stmt -> stmt -> result stmt;
}.

(** The parameters of an updated node: a visit builds every node anew
    from its visited children, and [visit_sequence] returns a tuple. *)
Definition tuple_parameters (ps : Parameters) : Parameters :=
  {| params := Tuple (items (params ps));
     star_arg := star_arg ps;
     kwonly_params := Tuple (items (kwonly_params ps));
     star_kwarg := star_kwarg ps;
     posonly_params := posonly_params ps |}.

Section Transform.
Context (t : CSTTransformer).

(** Children first, then the hook on the original node and on the node
    built anew from the visited children. *)
Fixpoint transform_stmt (s : stmt) : result stmt :=
  let transform_suite (b : suite stmt) : result (suite stmt) :=
    match b with
    | IndentedBlock l =>
        match mapM transform_stmt l with
        | Ok l' => Ok (IndentedBlock l')
        | Raise e => Raise e
        end
    | SimpleStatementSuite _ => Ok b
    end in
  match s with
  | SimpleStatementLine _ => Ok s
  | ClassDef name body =>
      match transform_suite body with
      | Ok body' => Ok (ClassDef name body')
      | Raise e => Raise e
      end
  | FunctionDef name params body =>
      match transform_suite body with
      | Ok body' => leave_FunctionDef s (FunctionDef name (tuple_parameters params) body')
      | Raise e => Raise e
      end
  | CompoundStatement kind blocks =>
      match mapM transform_suite blocks with
      | Ok blocks' => Ok (CompoundStatement kind blocks')
      | Raise e => Raise e
      end
  end.

Definition transform_suite (b : suite stmt) : result (suite stmt) :=
  match b with
  | IndentedBlock l =>
      match mapM transform_stmt l with
      | Ok l' => Ok (IndentedBlock l')
      | Raise e => Raise e
      end
  | SimpleStatementSuite _ => Ok b
  end.

(** [module.visit(transformer)] *)
Definition transform (m : module) : result module :=
  match mapM transform_stmt (body m) with
  | Ok body' => Ok {| body := body' |}
  | Raise e => Raise e
  end.
End Transform.

End Cst.

(** ** [_auth.py] *)

Module Auth.

(** [_clean_token] *)
Definition _clean_token (token : option string) : option string :=
  match token with
  | None => None
  | Some token => Py.or_None (Py.strip (Py.replace Py.nl EmptyString (Py.replace Py.cr EmptyString token)))
  end.

(** *** The notebook vault

    [google.colab.userdata] is an external module.  A call of
    [userdata.get("HF_TOKEN")] either returns the secret, or raises one of
    the errors the source has a handler for ([NotebookAccessError],
    [SecretNotFoundError], any other [google.colab.errors.Error]), or
    raises an exception that is none of them, which no handler catches. *)
Inductive vault_reply : Type :=
| Secret (token : option string)
| NotebookAccessError
| SecretNotFoundError
| ColabError (msg : string)
| Uncaught (e : exn).

(** What the interpreter offers to one call of the lookup: whether
    [from google.colab import userdata] succeeds, what the vault answers
    when asked, and whether the warnings filter in force turns a
    [warnings.warn] into an exception (the action [error]). *)
Record colab_call : Type := {
  importable : bool;
  userdata_get : vault_reply;
  warn_raises : bool;
}.

(** [is_google_colab()] and [is_colab_enterprise()] come from [_runtime],
    which is outside this file; they are fixed for a process. *)
Record runtime : Type := {
  is_google_colab : bool;
  is_colab_enterprise : bool;
}.

Inductive warning : Type :=
| AccessNotGranted
| SecretDoesNotExist
| ErrorWhileFetching (msg : string).

(** The module globals, with the observable effects recorded next to them:
    how many times [userdata.get] was called, and the calls of
    [warnings.warn], in their order. *)
Record globals : Type := {
  _IS_GOOGLE_COLAB_CHECKED : bool;
  _GOOGLE_COLAB_SECRET : option string;
  vault_queries : nat;
  warnings : list warning;
}.

Definition initial_globals : globals :=
  {| _IS_GOOGLE_COLAB_CHECKED := false;
     _GOOGLE_COLAB_SECRET := None;
     vault_queries := 0;
     warnings := [] |}.

Definition set_secret (v : option string) (g : globals) : globals :=
  {| _IS_GOOGLE_COLAB_CHECKED := _IS_GOOGLE_COLAB_CHECKED g;
     _GOOGLE_COLAB_SECRET := v;
     vault_queries := vault_queries g;
     warnings := warnings g |}.

Definition set_checked (b : bool) (g : globals) : globals :=
  {| _IS_GOOGLE_COLAB_CHECKED := b;
     _GOOGLE_COLAB_SECRET := _GOOGLE_COLAB_SECRET g;
     vault_queries := vault_queries g;
     warnings := warnings g |}.

Definition count_query (g : globals) : globals :=
  {| _IS_GOOGLE_COLAB_CHECKED := _IS_GOOGLE_COLAB_CHECKED g;
     _GOOGLE_COLAB_SECRET := _GOOGLE_COLAB_SECRET g;
     vault_queries := S (vault_queries g);
     warnings := warnings g |}.

Definition warn (w : warning) (g : globals) : globals :=
  {| _IS_GOOGLE_COLAB_CHECKED := _IS_GOOGLE_COLAB_CHECKED g;
     _GOOGLE_COLAB_SECRET := _GOOGLE_COLAB_SECRET g;
     vault_queries := vault_queries g;
     warnings := warnings g ++ [w] |}.

(** The last two statements of [_get_token_from_google_colab]:
    [_IS_GOOGLE_COLAB_CHECKED = True] and [return _GOOGLE_COLAB_SECRET]. *)
Definition checked_return (g : globals) : result (option string) * globals :=
  let g := set_checked true g in
  (Ok (_GOOGLE_COLAB_SECRET g), g).

(** One [except] clause of the lookup: [warnings.warn(...)], then
    [_GOOGLE_COLAB_SECRET = None].  When the warning is raised as an
    exception, it leaves the function from inside the handler: the
    assignment and the two statements behind the [try] are not run. *)
Definition handler (c : colab_call) (w : warning) (g : globals)
    : result (option string) * globals :=
  let g := warn w g in
  if warn_raises c then (Raise UserWarning, g)
  else checked_return (set_secret None g).

(** [_get_token_from_google_colab].  The body under
    [with _GOOGLE_COLAB_SECRET_LOCK] runs as one step: the lock admits one
    thread at a time, so calls are totally ordered.  An exception leaves
    the [with] block and releases the lock. *)
Definition _get_token_from_google_colab
    (rt : runtime) (c : colab_call) (g : globals) : result (option string) * globals :=
  if negb (is_google_colab rt) || is_colab_enterprise rt then (Ok None, g)
  else if _IS_GOOGLE_COLAB_CHECKED g then (Ok (_GOOGLE_COLAB_SECRET g), g)
  else if negb (importable c) then (Ok None, g)
  else
    let g := count_query g in
    match userdata_get c with
    | Secret token => checked_return (set_secret (_clean_token token) g)
    | NotebookAccessError => handler c AccessNotGranted g
    | SecretNotFoundError => handler c SecretDoesNotExist g
    | ColabError msg => handler c (ErrorWhileFetching msg) g
    | Uncaught e => (Raise e, g)
    end.

(** A process makes a sequence of lookups; a caller may catch what a
    lookup raises and go on. *)
Fixpoint lookups (rt : runtime) (cs : list colab_call) (g : globals)
    : list (result (option string)) * globals :=
  match cs with
  | [] => ([], g)
  | c :: cs' =>
      let '(r, g1) := _get_token_from_google_colab rt c g in
      let '(rs, g2) := lookups rt cs' g1 in
      (r :: rs, g2)
  end.

(** *** Environment and token file *)

(** What one call of [get_token] can observe outside the module. *)
Record world : Type := {
  colab : colab_call;
  environ : gmap string string;            (* os.environ *)
  token_file : result string;              (* Path(HF_TOKEN_PATH).read_text() *)
}.

(** [_get_token_from_environment] *)
Definition _get_token_from_environment (w : world) : option string :=
  _clean_token
    (Py.or_else (environ w !! "HF_TOKEN") (environ w !! "HUGGING_FACE_HUB_TOKEN")).

(** [_get_token_from_file]: only [FileNotFoundError] is caught. *)
Definition _get_token_from_file (w : world) : result (option string) :=
  match token_file w with
  | Ok text => Ok (_clean_token (Some text))
  | Raise FileNotFoundError => Ok None
  | Raise e => Raise e
  end.

(** Truthiness of an optional string. *)
Definition truthy (a : option string) : bool :=
  match a with
  | Some (String _ _) => true
  | _ => false
  end.

(** [get_token]: [a or b or c] evaluates left to right and stops at the
    first truthy operand; the last operand is returned as it is.  What an
    operand raises, [get_token] raises. *)
Definition get_token (rt : runtime) (w : world) (g : globals)
    : result (option string) * globals :=
  let '(a, g) := _get_token_from_google_colab rt (colab w) g in
  match a with
  | Raise e => (Raise e, g)
  | Ok a =>
      if truthy a then (Ok a, g)
      else
        let b := _get_token_from_environment w in
        if truthy b then (Ok b, g)
        else (_get_token_from_file w, g)
  end.

(** *** Profile store *)

(** [configparser] is the standard library's; what the source uses of it is
    [read], [sections] and [get].  Reading an existing file either raises
    or leaves a parser with its sections and its [get]. *)
Inductive config_read : Type :=
| ReadOk (sections : list string) (get : string -> string -> result string)
| ReadRaises (e : exn).

(** [{profile: config.get(profile, "hf_token") for profile in sections}] *)
Fixpoint profiles_of (get : string -> string -> result string)
    (sections : list string) (acc : gmap string string) : result (gmap string string) :=
  match sections with
  | [] => Ok acc
  | profile :: rest =>
      match get profile "hf_token" with
      | Ok token => profiles_of get rest (<[profile := token]> acc)
      | Raise e => Raise e
      end
  end.

(** [_get_profiles].  [profiles_file] is [None] when the path does not
    exist: [ConfigParser.read] skips a missing file and the parser has no
    section (the assignment under [if not profiles_path.exists()] is
    overwritten in every case).  The [try] catches [configparser.Error]
    only. *)
Definition _get_profiles (profiles_file : option config_read) : result (gmap string string) :=
  let attempt :=
    match profiles_file with
    | None => Ok ∅
    | Some (ReadOk sections get) => profiles_of get sections ∅
    | Some (ReadRaises e) => Raise e
    end in
  match attempt with
  | Ok profiles => Ok profiles
  | Raise e => if is_configparser_Error e then Ok ∅ else Raise e
  end.

(** The resolution order in the words of the specification: four sources
    (vault, primary variable, deprecated alias, token file), every
    candidate normalised, the first one present wins.  To be compared with
    [get_token]. *)
Fixpoint first_present (candidates : list (option string)) : option string :=
  match candidates with
  | [] => None
  | Some t :: _ => Some t
  | None :: rest => first_present rest
  end.

Definition four_source_resolution (vault : option string) (w : world)
    (file : option string) : option string :=
  first_present
    [ vault;
      _clean_token (environ w !! "HF_TOKEN");
      _clean_token (environ w !! "HUGGING_FACE_HUB_TOKEN");
      _clean_token file ].

(** [_get_token_from_profile] *)
Definition _get_token_from_profile (profiles_file : option config_read)
    (profile_name : string) : result (option string) :=
  profiles ← _get_profiles profiles_file;
  match profiles !! profile_name with
  | None => mret None
  | Some token => mret (_clean_token (Some token))
  end.

(** *** Sample machines, and what holds of the globals *)

(** The characters that [_clean_token] deletes wherever they stand. *)
Definition is_line_break (c : ascii) : bool :=
  Ascii.eqb c Py.CR || Ascii.eqb c Py.LF.

Definition not_colab : runtime :=
  {| is_google_colab := false; is_colab_enterprise := false |}.

Definition no_vault : colab_call :=
  {| importable := false; userdata_get := SecretNotFoundError; warn_raises := false |}.

(** A machine whose primary variable is set to a blank. *)
Definition blank_primary : world :=
  {| colab := no_vault;
     environ := {[ "HF_TOKEN" := " "; "HUGGING_FACE_HUB_TOKEN" := "X" ]};
     token_file := Ok "Y" |}.

(** A lookup raised. *)
Definition raised {A} (r : result A) : bool :=
  match r with
  | Ok _ => false
  | Raise _ => true
  end.

(** The number of lookups that raised. *)
Definition count_raised {A} (rs : list (result A)) : nat :=
  length (List.filter raised rs).

(** What holds of the globals of a process in which [n] lookups raised:
    every query of the vault either raised or set the flag, and no secret
    is stored before the flag is set. *)
Definition globals_ok (rt : runtime) (n : nat) (g : globals) : Prop :=
  vault_queries g = n + (if _IS_GOOGLE_COLAB_CHECKED g then 1 else 0)
  /\ (_IS_GOOGLE_COLAB_CHECKED g = true ->
      negb (is_google_colab rt) || is_colab_enterprise rt = false)
  /\ (_IS_GOOGLE_COLAB_CHECKED g = false -> _GOOGLE_COLAB_SECRET g = None).

Definition in_colab : runtime :=
  {| is_google_colab := true; is_colab_enterprise := false |}.

Definition denied : colab_call :=
  {| importable := true; userdata_get := NotebookAccessError; warn_raises := false |}.

Definition granted (token : string) : colab_call :=
  {| importable := true; userdata_get := Secret (Some token); warn_raises := false |}.

(** The vault fails with an error that is no error of [google.colab]. *)
Definition broken_vault : colab_call :=
  {| importable := true;
     userdata_get := Uncaught (OtherException "TimeoutError");
     warn_raises := false |}.

(** Access is denied while warnings are errors ([python -W error]). *)
Definition denied_strict : colab_call :=
  {| importable := true; userdata_get := NotebookAccessError; warn_raises := true |}.

(** The vault, when asked by the call [c], makes the lookup raise [e]:
    its error is one that no handler catches, or a handler warns while
    warnings are errors. *)
Definition vault_raises (c : colab_call) (e : exn) : Prop :=
  match userdata_get c with
  | Secret _ => False
  | Uncaught e' => e' = e
  | NotebookAccessError | SecretNotFoundError | ColabError _ =>
      warn_raises c = true /\ e = UserWarning
  end.

(** What holds of the warnings of a process in which [n] lookups raised:
    a call of [warnings.warn] either raised or was followed by setting the
    flag with no secret. *)
Definition warnings_ok (n : nat) (g : globals) : Prop :=
  length (warnings g) <= vault_queries g
  /\ length (warnings g) <= n + 1
  /\ (length (warnings g) <= n \/ _GOOGLE_COLAB_SECRET g = None).

(** A profile store with a profile that has no token. *)
Definition store_get (tokens : gmap string string) (section option : string)
    : result string :=
  match tokens !! section with
  | Some token => Ok token
  | None => Raise (NoOptionError section option)
  end.

End Auth.

(** ** [generate_task_parameters.py] *)

Module TaskParams.
Import Cst.

(** The value of a parameter entry: [{"type": ..., "docstring": ...}].
    The docstring is what a string literal denotes: a [str], or a [bytes]
    when the literal has the prefix b. *)
Record param_info : Type := {
  type : string;
  docstring : Py.pyvalue;
}.

(** [Dict[str, Dict[str, str]]] with its insertion order. *)
Definition odict : Type := list (string * param_info).

(** [d[k] = v]: an existing key keeps its place and takes the new value, a
    new key goes last. *)
Fixpoint set_item (k : string) (v : param_info) (d : odict) : odict :=
  match d with
  | [] => [(k, v)]
  | (k', v') :: d' =>
      if String.eqb k' k then (k', v) :: d' else (k', v') :: set_item k v d'
  end.

Section Script.
(** [SimpleString.evaluated_value]: what a string literal denotes (libcst
    evaluates the literal). *)
Variable evaluated_value : string -> Py.pyvalue.

(** *** Node visitors *)

(** The loop of [DataclassFieldCollector._extract_docstring] over the
    small statements of the next line. *)
Fixpoint first_string_literal (smalls : list small_stmt) : Py.pyvalue :=
  match smalls with
  | [] => Py.Str EmptyString
  | Expr (SimpleString value) :: _ => Py.value_strip (evaluated_value value)
  | _ :: rest => first_string_literal rest
  end.

(** [DataclassFieldCollector._extract_docstring] *)
Definition _extract_docstring (body_statements : list stmt) (field_index : nat)
    : Py.pyvalue :=
  match body_statements !! (field_index + 1) with
  | Some (SimpleStatementLine smalls) => first_string_literal smalls
  | _ => Py.Str EmptyString
  end.

(** The inner loop of [DataclassFieldCollector.visit_ClassDef]:
    [for stmt in field.body]. *)
Definition collect_line (body_statements : list stmt) (index : nat)
    (smalls : list small_stmt) (parameters : odict) : odict :=
  foldl (fun parameters stmt =>
           match stmt with
           | AnnAssign (Name param_name) param_type =>
               set_item param_name
                 {| type := param_type;
                    docstring := _extract_docstring body_statements index |}
                 parameters
           | _ => parameters
           end) parameters smalls.

(** [DataclassFieldCollector.visit_ClassDef].  [node.body.body] of a
    one-line class body holds small statements, none of which is a
    [SimpleStatementLine]. *)
Definition DataclassFieldCollector_visit_ClassDef (dataclass_name : string)
    (name : string) (body : suite stmt) (parameters : odict) : odict :=
  if String.eqb name dataclass_name then
    match body with
    | IndentedBlock body_statements =>
        foldl (fun parameters '(index, field) =>
                 match field with
                 | SimpleStatementLine smalls =>
                     collect_line body_statements index smalls parameters
                 | _ => parameters
                 end) parameters (enumerate body_statements)
    | SimpleStatementSuite _ => parameters
    end
  else parameters.

Definition DataclassFieldCollector (dataclass_name : string) : CSTVisitor odict :=
  {| visit_ClassDef := fun name body parameters =>
       Ok (DataclassFieldCollector_visit_ClassDef dataclass_name name body parameters);
     visit_FunctionDef := fun _ _ _ parameters => Ok parameters;
     visit_ImportFrom := fun _ _ parameters => Ok parameters |}.

(** [ArgumentsCollector.visit_FunctionDef].  The sum
    [node.params.params + node.params.kwonly_params] raises when one is a
    tuple and the other a list. *)
Definition ArgumentsCollector_visit_FunctionDef (method_name : string)
    (name : string) (ps : Parameters) (body : suite stmt)
    (existing_args : gset string) : result (gset string) :=
  if String.eqb name method_name then
    all ← add (params ps) (kwonly_params ps);
    mret (existing_args ∪
          list_to_set
            (List.filter (fun n => negb (String.eqb n "self"))
               (map Cst.name (items all))))
  else mret existing_args.

Definition ArgumentsCollector (method_name : string) : CSTVisitor (gset string) :=
  {| visit_ClassDef := fun _ _ existing_args => Ok existing_args;
     visit_FunctionDef := ArgumentsCollector_visit_FunctionDef method_name;
     visit_ImportFrom := fun _ _ existing_args => Ok existing_args |}.

(** [check_missing_parameters] *)
Definition check_missing_parameters (inference_client_module parameters_module : module)
    (method_name parameter_type_name : string) : result odict :=
  parameters ← visit (DataclassFieldCollector parameter_type_name) parameters_module [];
  existing_args ← visit (ArgumentsCollector method_name) inference_client_module ∅;
  mret (filter (fun kv => kv.1 ∉ existing_args) parameters).

(** *** Tree transformers *)

(** [next((i for i, x in enumerate(l) if p(i, x)), None)] *)
Fixpoint find_index_from {A} (p : nat -> A -> bool) (i : nat) (l : list A) : option nat :=
  match l with
  | [] => None
  | x :: l' => if p i x then Some i else find_index_from p (S i) l'
  end.
Definition find_index {A} (p : nat -> A -> bool) (l : list A) : option nat :=
  find_index_from p 0 l.

(** [line.strip().lower() in ("returns:", "raises:", "examples:", "example:")] *)
Definition is_section_header (line : string) : bool :=
  let l := Py.lower (Py.strip line) in
  String.eqb l "returns:" || String.eqb l "raises:"
  || String.eqb l "examples:" || String.eqb l "example:".

(** The documentation entry of one missing parameter (the body of the
    loop that fills [param_docs]). *)
Definition param_doc (indentation : string) (param_name : string) (param_info : param_info)
    : string :=
  let param_type_str := Py.rstrip_chars "]" (Py.replace "Optional[" EmptyString (type param_info)) in
  let optional_str :=
    if Py.contains "Optional[" (type param_info) then "*optional*" else EmptyString in
  indentation +:+ param_name +:+ " (`" +:+ param_type_str +:+ "`, " +:+ optional_str
    +:+ "):" +:+ Py.nl +:+ indentation +:+ "    "
    +:+ Py.format_or_empty (docstring param_info).

(** [AddParameters._update_docstring_content] *)
Definition _update_docstring_content (missing_params : odict) (docstring : string) : string :=
  let docstring_lines := Py.split Py.LF docstring in
  let args_index :=
    find_index (fun _ line => String.eqb (Py.lower (Py.strip line)) "args:") docstring_lines in
  let '(docstring_lines, args_index, insertion_index) :=
    match args_index with
    | None =>
        let insertion_index :=
          option.default (length docstring_lines)
            (find_index (fun _ line => is_section_header line) docstring_lines) in
        (take insertion_index docstring_lines ++ "Args:" :: drop insertion_index docstring_lines,
         insertion_index, insertion_index + 1)
    | Some args_index =>
        let insertion_index :=
          option.default (length docstring_lines)
            (find_index
               (fun i line =>
                  (args_index + 1 <=? i)
                  && String.eqb (Py.strip line) EmptyString
                  && match docstring_lines !! (i + 1) with
                     | Some next => is_section_header next
                     | None => false
                     end)
               docstring_lines) in
        (docstring_lines, args_index, insertion_index)
    end in
  let args_line := option.default EmptyString (docstring_lines !! args_index) in
  let indentation :=
    Py.spaces (String.length args_line - String.length (Py.lstrip args_line)) +:+ "    " in
  let param_docs :=
    map (fun '(param_name, param_info) => param_doc indentation param_name param_info)
      missing_params in
  Py.join Py.nl
    (take insertion_index docstring_lines ++ param_docs ++ drop insertion_index docstring_lines).

Definition triple_quote : string :=
  String Py.dquote (String Py.dquote (String Py.dquote EmptyString)).

(** [AddParameters._update_docstring].  [body.body[0]] raises
    [IndexError] on an empty sequence, and [docstring.split] raises
    [TypeError] when the literal denotes a [bytes]. *)
Definition _update_docstring (missing_params : odict) (body : suite stmt)
    : result (suite stmt) :=
  match body with
  | SimpleStatementSuite [] => Raise IndexError
  | SimpleStatementSuite (_ :: _) => Ok body
  | IndentedBlock [] => Raise IndexError
  | IndentedBlock (SimpleStatementLine [] :: _) => Raise IndexError
  | IndentedBlock (SimpleStatementLine (Expr (SimpleString value) :: _) :: rest) =>
      match evaluated_value value with
      | Py.Str docstring =>
          let updated_docstring := _update_docstring_content missing_params docstring in
          let new_docstring :=
            SimpleString (triple_quote +:+ updated_docstring +:+ triple_quote) in
          Ok (IndentedBlock (SimpleStatementLine [Expr new_docstring] :: rest))
      | Py.Bytes _ => Raise TypeError
      end
  | IndentedBlock (_ :: _) => Ok body
  end.

(** [AddParameters._update_parameters].  The new keyword-only parameters
    are stored as the list the loop appended to. *)
Definition _update_parameters (missing_params : odict) (ps : Parameters)
    : result Parameters :=
  let new_kwonly_params := items (kwonly_params ps) in
  all ← add (params ps) (kwonly_params ps);
  let existing_args : gset string := list_to_set (map Cst.name (items all)) in
  let new_kwonly_params :=
    foldl (fun new_kwonly_params '(param_name, param_info) =>
             if decide (param_name ∉ existing_args) then
               new_kwonly_params ++
               [ {| name := param_name;
                    annotation := Some (type param_info);
                    default := Some "None" |} ]
             else new_kwonly_params)
          new_kwonly_params missing_params in
  mret {| params := params ps;
          star_arg := star_arg ps;
          kwonly_params := PyList new_kwonly_params;
          star_kwarg := star_kwarg ps;
          posonly_params := posonly_params ps |}.

(** [AddParameters.leave_FunctionDef].  ([found_method] is set here and
    read nowhere.) *)
Definition AddParameters_leave_FunctionDef (method_name : string) (missing_params : odict)
    (original_node updated_node : stmt) : result stmt :=
  match original_node, updated_node with
  | FunctionDef original_name _ _, FunctionDef name ps body =>
      if String.eqb original_name method_name then
        new_params ← _update_parameters missing_params ps;
        updated_body ← _update_docstring missing_params body;
        mret (FunctionDef name new_params updated_body)
      else mret updated_node
  | _, _ => mret updated_node
  end.

Definition AddParameters (method_name : string) (missing_params : odict) : CSTTransformer :=
  {| leave_FunctionDef := AddParameters_leave_FunctionDef method_name missing_params |}.

End Script.

(** [AddImports]: the statements to add and the [added] flag. *)
Record AddImports : Type := {
  imports_to_add : list stmt;
  added : bool;
}.

(** The [for idx, stmt in enumerate(updated_node.body)] loop of
    [AddImports.leave_Module]; the result is [insertion_index], which is
    [0] before the loop and stays so when the loop ends without [break]. *)
Fixpoint insertion_index_loop (stmts : list (nat * stmt)) : result nat :=
  match stmts with
  | [] => Ok 0
  | (idx, SimpleStatementLine []) :: _ => Raise IndexError
  | (idx, SimpleStatementLine ((Import _ | ImportFrom _ _) :: _)) :: rest =>
      insertion_index_loop rest
  | (idx, _) :: _ => Ok idx
  end.

(** [AddImports.leave_Module]: the new module and the transformer after the
    call. *)
Definition AddImports_leave_Module (self : AddImports) (updated_node : module)
    : result (module * AddImports) :=
  if negb (added self) then
    insertion_index ← insertion_index_loop (enumerate (body updated_node));
    let new_body :=
      take insertion_index (body updated_node)
      ++ imports_to_add self
      ++ drop insertion_index (body updated_node) in
    mret ({| body := new_body |},
          {| imports_to_add := imports_to_add self; added := true |})
  else mret (updated_node, self).

(** *** Type names of an annotation *)

(** [\w], on ASCII: a letter, a digit or the underscore. *)
Definition is_word (c : ascii) : bool :=
  let n := nat_of_ascii c in
  ((48 <=? n) && (n <=? 57)) || ((65 <=? n) && (n <=? 90))
  || ((97 <=? n) && (n <=? 122)) || (n =? 95).

(** The longest prefix whose characters satisfy [p]. *)
Fixpoint take_while (p : ascii -> bool) (s : string) : string :=
  match s with
  | EmptyString => EmptyString
  | String c s' => if p c then String c (take_while p s') else EmptyString
  end.

(** A quoted alternative of the pattern, at a position just after the
    opening quote [q]: at least one character other than [q], then [q]. *)
Definition match_quoted (q : ascii) (s' : string) : option string :=
  let inner := take_while (fun c => negb (Ascii.eqb c q)) s' in
  match inner with
  | EmptyString => None
  | _ =>
      if String.length inner <? String.length s'
      then Some (String q (inner +:+ String q EmptyString))
      else None
  end.

(** The match of the pattern (a run of word characters, or a quoted
    alternative with single or with double quotes) anchored at the start of
    [s]; the alternatives are tried in this order. *)
Definition match_at (s : string) : option string :=
  match s with
  | EmptyString => None
  | String c s' =>
      if is_word c then Some (take_while is_word s)
      else if Ascii.eqb c Py.squote then match_quoted Py.squote s'
      else if Ascii.eqb c Py.dquote then match_quoted Py.dquote s'
      else None
  end.

(** [re.findall]: try each position from the left; after a match, go on
    behind it.  [skip] counts the characters of the last match still to
    pass. *)
Fixpoint findall_go (skip : nat) (s : string) : list string :=
  match s with
  | EmptyString => []
  | String _ s' =>
      match skip with
      | S k => findall_go k s'
      | O =>
          match match_at s with
          | Some tok => tok :: findall_go (String.length tok - 1) s'
          | None => findall_go 0 s'
          end
      end
  end.

Definition findall (s : string) : list string := findall_go 0 s.

(** [_collect_type_names_from_annotation].  [builtin_types] is the set
    [{d for d in dir(builtins) if isinstance(getattr(builtins, d), type)}]
    of the running interpreter. *)
Definition _collect_type_names_from_annotation (builtin_types : gset string)
    (annotation_str : string) : gset string :=
  let type_string := Py.replace " " EmptyString annotation_str in
  let types := findall type_string in
  list_to_set
    (List.filter (fun t => bool_decide (t ∉ builtin_types))
       (map (Py.strip_chars Py.quotes) types)).

(** *** Notions used to state the properties *)

(** The names [dir(builtins)] lists as types on CPython 3.11. *)
Definition cpython_builtin_types : gset string :=
  list_to_set
    [ "ArithmeticError"; "AssertionError"; "AttributeError"; "BaseException";
      "BaseExceptionGroup"; "BlockingIOError"; "BrokenPipeError"; "BufferError";
      "BytesWarning"; "ChildProcessError"; "ConnectionAbortedError";
      "ConnectionError"; "ConnectionRefusedError"; "ConnectionResetError";
      "DeprecationWarning"; "EOFError"; "EncodingWarning"; "EnvironmentError";
      "Exception"; "ExceptionGroup"; "FileExistsError"; "FileNotFoundError";
      "FloatingPointError"; "FutureWarning"; "GeneratorExit"; "IOError";
      "ImportError"; "ImportWarning"; "IndentationError"; "IndexError";
      "InterruptedError"; "IsADirectoryError"; "KeyError"; "KeyboardInterrupt";
      "LookupError"; "MemoryError"; "ModuleNotFoundError"; "NameError";
      "NotADirectoryError"; "NotImplementedError"; "OSError"; "OverflowError";
      "PendingDeprecationWarning"; "PermissionError"; "ProcessLookupError";
      "RecursionError"; "ReferenceError"; "ResourceWarning"; "RuntimeError";
      "RuntimeWarning"; "StopAsyncIteration"; "StopIteration"; "SyntaxError";
      "SyntaxWarning"; "SystemError"; "SystemExit"; "TabError"; "TimeoutError";
      "TypeError"; "UnboundLocalError"; "UnicodeDecodeError";
      "UnicodeEncodeError"; "UnicodeError"; "UnicodeTranslateError";
      "UnicodeWarning"; "UserWarning"; "ValueError"; "Warning";
      "ZeroDivisionError"; "__loader__"; "bool"; "bytearray"; "bytes";
      "classmethod"; "complex"; "dict"; "enumerate"; "filter"; "float";
      "frozenset"; "int"; "list"; "map"; "memoryview"; "object"; "property";
      "range"; "reversed"; "set"; "slice"; "staticmethod"; "str"; "super";
      "tuple"; "type"; "zip" ].

(** A top-level statement that the loop of [leave_Module] passes over: a
    line whose first small statement is an import. *)
Definition is_import_line (s : stmt) : bool :=
  match s with
  | SimpleStatementLine ((Import _ | ImportFrom _ _) :: _) => true
  | _ => false
  end.

(** The module where the specification puts the new imports when every
    statement is an import: behind them. *)
Definition imports_appended (imports : list stmt) (m : module) : module :=
  {| body := body m ++ imports |}.

(** The parameter [_update_parameters] builds for one entry. *)
Definition new_param (kv : string * param_info) : Param :=
  {| name := kv.1; annotation := Some (type kv.2); default := Some "None" |}.

(** The names a signature declares, as [_update_parameters] collects them. *)
Definition declared_names (ps : Parameters) : gset string :=
  list_to_set (map Cst.name (items (params ps) ++ items (kwonly_params ps))).

(** The signature with other keyword-only parameters, stored as a list. *)
Definition with_kwonly_params (kwonly : list Param) (ps : Parameters) : Parameters :=
  {| params := params ps;
     star_arg := star_arg ps;
     kwonly_params := PyList kwonly;
     star_kwarg := star_kwarg ps;
     posonly_params := posonly_params ps |}.

(** Two sequences that [+] accepts: both tuples or both lists. *)
Definition same_kind {A} (a b : sequence A) : bool :=
  match a, b with
  | Tuple _, Tuple _ | PyList _, PyList _ => true
  | _, _ => false
  end.

Definition is_tuple {A} (a : sequence A) : bool :=
  match a with
  | Tuple _ => true
  | PyList _ => false
  end.

(** The body starts with a line whose first small statement is a string
    literal: the docstring [_update_docstring] rewrites. *)
Definition begins_with_docstring (b : suite stmt) : bool :=
  match b with
  | IndentedBlock (SimpleStatementLine (Expr (SimpleString _) :: _) :: _) => true
  | _ => false
  end.

(** What the parser guarantees of a body: it has a statement, and when the
    first one is a line, the line has a small statement. *)
Definition body_as_parsed (b : suite stmt) : bool :=
  match b with
  | IndentedBlock [] => false
  | IndentedBlock (SimpleStatementLine [] :: _) => false
  | IndentedBlock (_ :: _) => true
  | SimpleStatementSuite [] => false
  | SimpleStatementSuite (_ :: _) => true
  end.

(** The type the specification asks to see rendered: the annotation
    without a surrounding Optional wrapper, and the annotation itself when
    it has none. *)
Definition unwrap_optional (annotation : string) : string :=
  if String.prefix "Optional[" annotation
     && String.eqb (String.substring (String.length annotation - 1) 1 annotation) "]"
  then String.substring 9 (String.length annotation - 10) annotation
  else annotation.

(** A reading of string literals that have no escape: the text between
    the quotes, and with the prefix b the bytes between them.  It stands
    for [evaluated_value] in the examples. *)
Definition unquote (literal : string) : Py.pyvalue :=
  match literal with
  | String "b" quoted => Py.Bytes (Py.strip_chars Py.quotes quoted)
  | _ => Py.Str (Py.strip_chars Py.quotes literal)
  end.

Section Declaration.
Variable evaluated_value : string -> Py.pyvalue.
Variable dataclass_name : string.

(** The fields a declaration has, in the words of the data model: an
    ordered list of named fields, each with its type and its description.
    The description is sourced from the statement right after the field:
    it is the text of that statement when it is a bare string literal, and
    empty otherwise. *)
Definition literal_text (s : small_stmt) : option Py.pyvalue :=
  match s with
  | Expr (SimpleString value) => Some (Py.value_strip (evaluated_value value))
  | _ => None
  end.

Definition description (following : list stmt) : Py.pyvalue :=
  match following with
  | SimpleStatementLine smalls :: _ =>
      option.default (Py.Str EmptyString) (head (omap literal_text smalls))
  | _ => Py.Str EmptyString
  end.

(** A typed attribute with a plain name declares a field. *)
Definition declared_field (described : Py.pyvalue) (s : small_stmt)
    : option (string * param_info) :=
  match s with
  | AnnAssign (Name field_name) field_type =>
      Some (field_name, {| type := field_type; docstring := described |})
  | _ => None
  end.

(** The fields that the statements of a class body declare, in order. *)
Fixpoint class_fields (statements : list stmt) : odict :=
  match statements with
  | [] => []
  | SimpleStatementLine smalls :: following =>
      omap (declared_field (description following)) smalls ++ class_fields following
  | _ :: following => class_fields following
  end.

Definition fields_of_class (name : string) (b : suite stmt) : odict :=
  if String.eqb name dataclass_name then
    match b with
    | IndentedBlock body_statements => class_fields body_statements
    | SimpleStatementSuite _ => []
    end
  else [].

(** The fields of the classes named [dataclass_name] below a statement, in
    source order. *)
Fixpoint fields_below (s : stmt) : odict :=
  let fields_in (b : suite stmt) : odict :=
    match b with
    | IndentedBlock l => flat_map fields_below l
    | SimpleStatementSuite _ => []
    end in
  match s with
  | SimpleStatementLine _ => []
  | ClassDef name b => fields_of_class name b ++ fields_in b
  | FunctionDef _ _ b => fields_in b
  | CompoundStatement _ blocks => flat_map fields_in blocks
  end.

Definition fields_in (b : suite stmt) : odict :=
  match b with
  | IndentedBlock l => flat_map fields_below l
  | SimpleStatementSuite _ => []
  end.

(** The fields of the declaration in a parameters module. *)
Definition declaration_fields (parameters_module : module) : odict :=
  flat_map fields_below (body parameters_module).

End Declaration.

(** Filling a dictionary with entries, one assignment each. *)
Definition set_items (entries : odict) (d : odict) : odict :=
  foldl (fun d kv => set_item kv.1 kv.2 d) d entries.

Section Callable.
Variable method_name : string.

(** The argument names one signature contributes to the existing
    arguments of the callable: its positional and keyword-only parameter
    names, except self. *)
Definition signature_names (name : string) (ps : Parameters) : gset string :=
  if String.eqb name method_name then
    list_to_set
      (List.filter (fun n => negb (String.eqb n "self"))
         (map Cst.name (items (params ps) ++ items (kwonly_params ps))))
  else ∅.

(** The argument names of the functions named [method_name] below a
    statement. *)
Fixpoint names_below (s : stmt) : gset string :=
  let names_in (b : suite stmt) : gset string :=
    match b with
    | IndentedBlock l => ⋃ (map names_below l)
    | SimpleStatementSuite _ => ∅
    end in
  match s with
  | SimpleStatementLine _ => ∅
  | ClassDef _ b => names_in b
  | FunctionDef name ps b => signature_names name ps ∪ names_in b
  | CompoundStatement _ blocks => ⋃ (map names_in blocks)
  end.

Definition names_in (b : suite stmt) : gset string :=
  match b with
  | IndentedBlock l => ⋃ (map names_below l)
  | SimpleStatementSuite _ => ∅
  end.

(** The existing arguments of the callable in a module, in the words of
    the specification: the names of the positional and keyword-only
    parameters of every definition of that name, except self. *)
Definition existing_arguments (m : module) : gset string :=
  ⋃ (map names_below (body m)).

(** A function named [method_name] is defined below the statement. *)
Fixpoint defined_below (s : stmt) : bool :=
  let defined_in (b : suite stmt) : bool :=
    match b with
    | IndentedBlock l => existsb defined_below l
    | SimpleStatementSuite _ => false
    end in
  match s with
  | SimpleStatementLine _ => false
  | ClassDef _ b => defined_in b
  | FunctionDef name _ b => String.eqb name method_name || defined_in b
  | CompoundStatement _ blocks => existsb defined_in blocks
  end.

Definition defined_in (b : suite stmt) : bool :=
  match b with
  | IndentedBlock l => existsb defined_below l
  | SimpleStatementSuite _ => false
  end.

(** The module defines the callable. *)
Definition defines (m : module) : bool := existsb defined_below (body m).

(** Every function named [method_name] below the statement has a
    signature and a body that satisfy [p]. *)
Fixpoint every_below (p : Parameters -> suite stmt -> bool) (s : stmt) : bool :=
  let every_in (b : suite stmt) : bool :=
    match b with
    | IndentedBlock l => forallb (every_below p) l
    | SimpleStatementSuite _ => true
    end in
  match s with
  | SimpleStatementLine _ => true
  | ClassDef _ b => every_in b
  | FunctionDef name ps b =>
      (negb (String.eqb name method_name) || p ps b) && every_in b
  | CompoundStatement _ blocks => forallb every_in blocks
  end.

Definition every_in (p : Parameters -> suite stmt -> bool) (b : suite stmt) : bool :=
  match b with
  | IndentedBlock l => forallb (every_below p) l
  | SimpleStatementSuite _ => true
  end.

Definition every (p : Parameters -> suite stmt -> bool) (m : module) : bool :=
  forallb (every_below p) (body m).

(** The signatures of the callable can be read: in each of them the
    positional and the keyword-only parameters are sequences of one kind. *)
Definition uniform_signature (ps : Parameters) (b : suite stmt) : bool :=
  same_kind (params ps) (kwonly_params ps).

Definition uniform (m : module) : bool := every uniform_signature m.

(** The signatures of the callable hold a list of keyword-only parameters
    next to a tuple of positional ones, as after the rewrite. *)
Definition rewritten_signature (ps : Parameters) (b : suite stmt) : bool :=
  is_tuple (params ps) && negb (is_tuple (kwonly_params ps)).

End Callable.

Section Parsed.
Variable evaluated_value : string -> Py.pyvalue.
Variable method_name : string.

(** The docstring of a body, when it has one, is a text literal. *)
Definition docstring_is_text (b : suite stmt) : bool :=
  match b with
  | IndentedBlock (SimpleStatementLine (Expr (SimpleString value) :: _) :: _) =>
      match evaluated_value value with
      | Py.Str _ => true
      | Py.Bytes _ => false
      end
  | _ => true
  end.

(** A definition of the callable as the parser leaves it: the parameters
    are in tuples and the body has a statement; and its docstring is a
    text. *)
Definition parsed_definition (ps : Parameters) (b : suite stmt) : bool :=
  is_tuple (params ps) && is_tuple (kwonly_params ps)
  && body_as_parsed b && docstring_is_text b.

(** Every definition of the callable in the module is so. *)
Definition as_parsed (m : module) : bool := every method_name parsed_definition m.

End Parsed.

(** The tree with its parameters in tuples, as a parser builds it. *)
Fixpoint with_tuples_below (s : stmt) : stmt :=
  let with_tuples_in (b : suite stmt) : suite stmt :=
    match b with
    | IndentedBlock l => IndentedBlock (map with_tuples_below l)
    | SimpleStatementSuite _ => b
    end in
  match s with
  | SimpleStatementLine _ => s
  | ClassDef name b => ClassDef name (with_tuples_in b)
  | FunctionDef name ps b => FunctionDef name (tuple_parameters ps) (with_tuples_in b)
  | CompoundStatement kind blocks => CompoundStatement kind (map with_tuples_in blocks)
  end.

Definition with_tuples_in (b : suite stmt) : suite stmt :=
  match b with
  | IndentedBlock l => IndentedBlock (map with_tuples_below l)
  | SimpleStatementSuite _ => b
  end.

Definition with_tuples (m : module) : module :=
  {| body := map with_tuples_below (body m) |}.

(** Every sequence of parameters below the statement is a tuple. *)
Fixpoint tuples_below (s : stmt) : bool :=
  let tuples_in (b : suite stmt) : bool :=
    match b with
    | IndentedBlock l => forallb tuples_below l
    | SimpleStatementSuite _ => true
    end in
  match s with
  | SimpleStatementLine _ => true
  | ClassDef _ b => tuples_in b
  | FunctionDef _ ps b =>
      is_tuple (params ps) && is_tuple (kwonly_params ps) && tuples_in b
  | CompoundStatement _ blocks => forallb tuples_in blocks
  end.

Definition tuples_in (b : suite stmt) : bool :=
  match b with
  | IndentedBlock l => forallb tuples_below l
  | SimpleStatementSuite _ => true
  end.

(** The parameters of the module are in tuples, as in every module from
    the parser. *)
Definition in_tuples (m : module) : bool := forallb tuples_below (body m).

(** The names the rewrite has to bring into a signature. *)
Definition wanted (missing_params : odict) : gset string :=
  list_to_set (map fst missing_params) ∖ {[ "self" ]}.

(** What the rewrite of a statement keeps and what it brings: no argument
    name is lost, and where the callable is defined every wanted name is an
    argument afterwards. *)
Definition resolved (missing_params : odict) {X} (names : X -> gset string)
    (defined : X -> bool) (x x' : X) : Prop :=
  names x ⊆ names x' /\ (defined x = true -> wanted missing_params ⊆ names x').

(** *** Sample trees *)

Definition one_import : stmt := SimpleStatementLine [Import ["os"]].
Definition new_import : stmt :=
  SimpleStatementLine [ImportFrom (Some (ModuleName "typing")) (ImportAliases ["List"])].
Definition an_assignment : stmt := SimpleStatementLine [OtherSmallStatement "x = 1"].

Definition plain_param (n : string) : Param :=
  {| name := n; annotation := None; default := None |}.

(** [(self, prompt, *, top_k=None)] *)
Definition text_signature : Parameters :=
  {| params := Tuple [plain_param "self"; plain_param "prompt"];
     star_arg := None;
     kwonly_params :=
       Tuple
         [ {| name := "top_k"; annotation := Some "Optional[int]"; default := Some "None" |} ];
     star_kwarg := None;
     posonly_params := [] |}.

Definition text_body : suite stmt :=
  IndentedBlock [SimpleStatementLine [OtherSmallStatement "return prompt"]].

(** A client class with one task method, which has no docstring. *)
Definition sample_client_module : module :=
  {| body :=
       [ one_import;
         ClassDef "InferenceClient"
           (IndentedBlock [FunctionDef "text" text_signature text_body]) ] |}.

(** [(self, prompt, *, top_k=None, stop=None)], as the rewrite that adds
    a parameter stop leaves it. *)
Definition rewritten_signature_sample : Parameters :=
  with_kwonly_params
    (items (kwonly_params text_signature)
     ++ [ new_param
            ("stop", {| type := "List[str]"; docstring := Py.Str EmptyString |}) ])
    text_signature.

(** The client module after the rewrite that adds a parameter stop. *)
Definition rewritten_client_module : module :=
  {| body :=
       [ one_import;
         ClassDef "InferenceClient"
           (IndentedBlock [FunctionDef "text" rewritten_signature_sample text_body]) ] |}.

(** A parameters dataclass with two fields, the first one documented. *)
Definition sample_parameters_module : module :=
  {| body :=
       [ SimpleStatementLine
           [ImportFrom (Some (ModuleName "typing")) (ImportAliases ["List"; "Optional"])];
         ClassDef "TextParameters"
           (IndentedBlock
              [ SimpleStatementLine [AnnAssign (Name "top_k") "Optional[int]"];
                SimpleStatementLine [Expr (SimpleString "'How many.'")];
                SimpleStatementLine [AnnAssign (Name "stop") "List[str]"] ]) ] |}.

(** A parameters dataclass with a field named self. *)
Definition self_parameters_module : module :=
  {| body :=
       [ ClassDef "TextParameters"
           (IndentedBlock
              [ SimpleStatementLine [AnnAssign (Name "self") "Optional[int]"] ]) ] |}.

(** *** Further notions *)

(** [d.get(k)] on a dictionary with its insertion order. *)
Fixpoint get_item (k : string) (d : odict) : option param_info :=
  match d with
  | [] => None
  | (k', v) :: d' => if String.eqb k' k then Some v else get_item k d'
  end.

Section Declared.
Variable dataclass_name : string.

(** A class named [dataclass_name] is defined below the statement. *)
Fixpoint class_below (s : stmt) : bool :=
  let class_in (b : suite stmt) : bool :=
    match b with
    | IndentedBlock l => existsb class_below l
    | SimpleStatementSuite _ => false
    end in
  match s with
  | SimpleStatementLine _ => false
  | ClassDef name b => String.eqb name dataclass_name || class_in b
  | FunctionDef _ _ b => class_in b
  | CompoundStatement _ blocks => existsb class_in blocks
  end.

Definition class_in (b : suite stmt) : bool :=
  match b with
  | IndentedBlock l => existsb class_below l
  | SimpleStatementSuite _ => false
  end.

(** The module declares the dataclass. *)
Definition declares (m : module) : bool := existsb class_below (body m).

End Declared.

(** The names of a signature, positional parameters first. *)
Definition signature_list (ps : Parameters) : list string :=
  map Cst.name (items (params ps) ++ items (kwonly_params ps)).

(** A docstring has a line that reads Args: (whatever its case and the
    blanks around it). *)
Definition args_line_index (docstring : string) : option nat :=
  find_index (fun _ line => String.eqb (Py.lower (Py.strip line)) "args:")
    (Py.split Py.LF docstring).

(** The index of the first line that opens another section (Returns:,
    Raises:, Examples:, Example:), or the number of lines. *)
Definition first_section_index (docstring : string) : nat :=
  option.default (length (Py.split Py.LF docstring))
    (find_index (fun _ line => is_section_header line) (Py.split Py.LF docstring)).

(** *** Needed imports *)

(** [DEFAULT_MODULE] *)
Definition DEFAULT_MODULE : string := "huggingface_hub.inference._generated.types".

(** What [ModulesCollector] stores for a type name: [DEFAULT_MODULE], or
    [node.module.value], which is the identifier when the module of the
    import is a plain name and a node when it is a dotted one. *)
Inductive module_value : Type :=
| ModuleStr (s : string)
| ModuleNode (n : node).

Definition module_value_of (m : module_expr) : module_value :=
  match m with
  | ModuleName value => ModuleStr value
  | ModuleAttribute value _ => ModuleNode value
  end.

(** Equality of dictionary keys: strings are the same key when they have
    the same characters, nodes when they are the same object, and a node
    is never the key a string is. *)
#[global] Instance module_value_eq_dec : EqDecision module_value.
Proof. solve_decision. Defined.

(** [ModulesCollector.visit_ImportFrom].  A node is truthy; the loop over
    [node.names] raises on the star, which is not iterable. *)
Definition ModulesCollector_visit_ImportFrom (module : option module_expr)
    (names : import_names) (type_to_module : gmap string module_value)
    : result (gmap string module_value) :=
  match module with
  | Some m =>
      let module_name := module_value_of m in
      match names with
      | ImportAliases aliases =>
          Ok (foldl (fun d alias => <[alias := module_name]> d) type_to_module aliases)
      | ImportStar => Raise TypeError
      end
  | None => Ok type_to_module
  end.

(** [ModulesCollector] *)
Definition ModulesCollector : CSTVisitor (gmap string module_value) :=
  {| visit_ClassDef := fun name _ type_to_module =>
       Ok (<[name := ModuleStr DEFAULT_MODULE]> type_to_module);
     visit_FunctionDef := fun _ _ _ type_to_module => Ok type_to_module;
     visit_ImportFrom := ModulesCollector_visit_ImportFrom |}.

(** There is no star import from a named module below the statement. *)
Fixpoint no_star_below (s : stmt) : bool :=
  let no_star_small (s : small_stmt) : bool :=
    match s with
    | ImportFrom (Some _) ImportStar => false
    | _ => true
    end in
  let no_star_in (b : suite stmt) : bool :=
    match b with
    | IndentedBlock l => forallb no_star_below l
    | SimpleStatementSuite smalls => forallb no_star_small smalls
    end in
  match s with
  | SimpleStatementLine smalls => forallb no_star_small smalls
  | ClassDef _ b => no_star_in b
  | FunctionDef _ _ b => no_star_in b
  | CompoundStatement _ blocks => forallb no_star_in blocks
  end.

Definition no_star_small (s : small_stmt) : bool :=
  match s with
  | ImportFrom (Some _) ImportStar => false
  | _ => true
  end.

Definition no_star_in (b : suite stmt) : bool :=
  match b with
  | IndentedBlock l => forallb no_star_below l
  | SimpleStatementSuite smalls => forallb no_star_small smalls
  end.

Definition no_star (m : module) : bool := forallb no_star_below (body m).

(** The type names that a statement maps to a module, in the order of the
    traversal: a class is mapped to [DEFAULT_MODULE], and the names of an
    import from a module to that module. *)
Definition assignments_small (s : small_stmt) : list (string * module_value) :=
  match s with
  | ImportFrom (Some m) (ImportAliases names) =>
      map (fun type_name => (type_name, module_value_of m)) names
  | _ => []
  end.

Fixpoint assignments_below (s : stmt) : list (string * module_value) :=
  let assignments_in (b : suite stmt) : list (string * module_value) :=
    match b with
    | IndentedBlock l => flat_map assignments_below l
    | SimpleStatementSuite smalls => flat_map assignments_small smalls
    end in
  match s with
  | SimpleStatementLine smalls => flat_map assignments_small smalls
  | ClassDef name b => (name, ModuleStr DEFAULT_MODULE) :: assignments_in b
  | FunctionDef _ _ b => assignments_in b
  | CompoundStatement _ blocks => flat_map assignments_in blocks
  end.

Definition assignments_in (b : suite stmt) : list (string * module_value) :=
  match b with
  | IndentedBlock l => flat_map assignments_below l
  | SimpleStatementSuite smalls => flat_map assignments_small smalls
  end.

(** Filling a map with entries, a later one overwriting an earlier one. *)
Definition assign (entries : list (string * module_value))
    (d : gmap string module_value) : gmap string module_value :=
  foldl (fun d kv => <[kv.1 := kv.2]> d) d entries.

(** The module each type name of a parameters module comes from, in the
    words of the specification: later entries overwrite earlier ones. *)
Definition type_origins (m : module) : gmap string module_value :=
  assign (flat_map assignments_below (body m)) ∅.

(** [Dict[str, List[str]]] with its insertion order; a key is what
    [ModulesCollector] stored. *)
Definition idict : Type := list (module_value * list string).

(** [needed_imports.setdefault(module, []).append(type_name)] *)
Fixpoint setdefault_append (module : module_value) (type_name : string) (d : idict)
    : idict :=
  match d with
  | [] => [(module, [type_name])]
  | (m, names) :: d' =>
      if decide (m = module) then (m, names ++ [type_name]) :: d'
      else (m, names) :: setdefault_append module type_name d'
  end.

(** [d[k] = v] *)
Fixpoint set_key (k : module_value) (v : list string) (d : idict) : idict :=
  match d with
  | [] => [(k, v)]
  | (k', v') :: d' =>
      if decide (k' = k) then (k', v) :: d' else (k', v') :: set_key k v d'
  end.

(** [d.update(other)] *)
Definition dict_update (d other : idict) : idict :=
  foldl (fun d kv => set_key kv.1 kv.2 d) d other.

(** The first loop of [get_imports_to_add]: the type names of all the
    annotations. *)
Definition types_to_import (builtin_types : gset string) (parameters : odict)
    : gset string :=
  foldl (fun types kv =>
           types ∪ _collect_type_names_from_annotation builtin_types (type kv.2))
    ∅ parameters.

(** [types_to_modules.get(type_name, DEFAULT_MODULE)] *)
Definition origin (type_to_module : gmap string module_value) (type_name : string)
    : module_value :=
  option.default (ModuleStr DEFAULT_MODULE) (type_to_module !! type_name).

(** The negation of the test
    [module not in object_mapping or type_name not in object_mapping[module]];
    the keys of [object_mapping] are strings. *)
Definition already_imported (object_mapping : gmap string (gset string))
    (module : module_value) (type_name : string) : bool :=
  match module with
  | ModuleStr s =>
      match object_mapping !! s with
      | None => false
      | Some names => bool_decide (type_name ∈ names)
      end
  | ModuleNode _ => false
  end.

(** One round of the loop [for type_name in types_to_import]. *)
Definition needed_imports_step (type_to_module : gmap string module_value)
    (object_mapping : gmap string (gset string))
    (needed_imports : idict) (type_name : string) : idict :=
  let module := origin type_to_module type_name in
  if already_imported object_mapping module type_name then needed_imports
  else setdefault_append module type_name needed_imports.

Section Imports.
(** [{d for d in dir(builtins) if isinstance(getattr(builtins, d), type)}] *)
Variable builtin_types : gset string.
(** libcst's [GatherImportsVisitor]: the [object_mapping] it gathers over
    a module. *)
Variable gather_imports : module -> gmap string (gset string).
(** The order in which the interpreter iterates a set. *)
Variable iteration : gset string -> list string.

(** [get_imports_to_add] *)
Definition get_imports_to_add (parameters : odict)
    (parameters_module inference_client_module : module) : result idict :=
  let types_to_import := types_to_import builtin_types parameters in
  let object_mapping := gather_imports inference_client_module in
  type_to_module ← visit ModulesCollector parameters_module ∅;
  mret (foldl (needed_imports_step type_to_module object_mapping) []
          (iteration types_to_import)).

End Imports.

(** What an f-string prints for a module: the string, or the [repr] of
    the node. *)
Definition module_text (module : module_value) : string :=
  match module with
  | ModuleStr s => s
  | ModuleNode n => node_repr n
  end.

(** The statement [_generate_import_statements] writes for one module. *)
Definition import_statement (module : module_value) (imports : list string) : string :=
  match imports with
  | [] => "import " +:+ module_text module
  | _ => "from " +:+ module_text module +:+ " import " +:+ Py.join ", " imports
  end.

(** [_generate_import_statements] *)
Definition _generate_import_statements (import_dict : idict) : string :=
  Py.join Py.nl (map (fun '(module, imports) => import_statement module imports) import_dict).

(** A type name is listed under a module. *)
Definition listed (d : idict) (module : module_value) (type_name : string) : Prop :=
  exists names, (module, names) ∈ d /\ type_name ∈ names.

(** What the loop keeps: modules are listed once, under each module there
    is at least one name and none twice. *)
Definition tidy (d : idict) : Prop :=
  NoDup (map fst d) /\ Forall (fun kv => kv.2 <> [] /\ NoDup kv.2) d.

(** The import of this module has a plain name: [node.module.value] is a
    string. *)
Definition plain_module (module : option module_expr) : bool :=
  match module with
  | Some (ModuleAttribute _ _) => false
  | _ => true
  end.

(** Every character of a string satisfies [p]. *)
Fixpoint all_chars (p : ascii -> bool) (s : string) : bool :=
  match s with
  | EmptyString => true
  | String c s' => p c && all_chars p s'
  end.

(** *** The loop of [_check_parameters] *)

(** One entry of [method_params], with the parameters module that the
    loop parses from the file of the task. *)
Record task : Type := {
  task_method : string;
  task_type : string;
  task_parameters : module;
}.

(** The variables of the loop.  A log line names a method: [logs] holds
    the method names, one for each line. *)
Record check_state : Type := {
  modified_module : module;
  has_changes : bool;
  logs : list string;
  imports : idict;
}.

Section CheckParameters.
Variable evaluated_value : string -> Py.pyvalue.
Variable builtin_types : gset string.
Variable gather_imports : module -> gmap string (gset string).
Variable iteration : gset string -> list string.
Variable update : bool.

(** One round of [for method_name, parameter_type_name in
    method_params.items()]. *)
Definition check_round (st : check_state) (t : task) : result check_state :=
  missing_params ←
    check_missing_parameters evaluated_value (modified_module st) (task_parameters t)
      (task_method t) (task_type t);
  match missing_params with
  | [] => mret st
  | _ :: _ =>
      if update then
        needed_imports ←
          get_imports_to_add builtin_types gather_imports iteration missing_params
            (task_parameters t) (modified_module st);
        let imports := dict_update (imports st) needed_imports in
        modified ←
          transform (AddParameters evaluated_value (task_method t) missing_params)
            (modified_module st);
        mret {| modified_module := modified;
                has_changes := true;
                logs := logs st;
                imports := imports |}
      else
        mret {| modified_module := modified_module st;
                has_changes := has_changes st;
                logs := logs st ++ [task_method t];
                imports := imports st |}
  end.

Fixpoint check_rounds (st : check_state) (tasks : list task) : result check_state :=
  match tasks with
  | [] => Ok st
  | t :: rest =>
      match check_round st t with
      | Ok st' => check_rounds st' rest
      | Raise e => Raise e
      end
  end.

End CheckParameters.

(** The variables before the loop. *)
Definition initial_state (m : module) : check_state :=
  {| modified_module := m; has_changes := false; logs := []; imports := [] |}.

(** The status the script exits with: [1] when there is a log line. *)
Definition exit_status (st : check_state) : nat :=
  match logs st with
  | [] => 0
  | _ :: _ => 1
  end.

Section Tasks.
Variable evaluated_value : string -> Py.pyvalue.

(** Something is missing for a task in a module whose signatures can be
    read. *)
Definition misses (m : module) (t : task) : bool :=
  match check_missing_parameters evaluated_value m (task_parameters t)
          (task_method t) (task_type t) with
  | Ok (_ :: _) => true
  | _ => false
  end.

(** A task the loop in update mode can serve: the client module defines
    the method, its definitions are as the parser leaves them, with a text
    for a docstring, and the parameters module of the task has no star
    import from a named module. *)
Definition ready (m : module) (t : task) : Prop :=
  as_parsed evaluated_value (task_method t) m = true
  /\ defines (task_method t) m = true
  /\ no_star (task_parameters t) = true.

(** A task is served in a module: every field of its declaration, other
    than one named self, is an argument of its method. *)
Definition served (m : module) (t : task) : Prop :=
  forall k,
    k ∈ map fst (declaration_fields evaluated_value (task_type t) (task_parameters t)) ->
    k <> "self" ->
    k ∈ existing_arguments (task_method t) m.

End Tasks.

(** What a rewrite keeps of a tree, seen from a callable: its argument
    names, whether it is defined, and that its definitions are as the
    parser leaves them. *)
Definition kept {X} (names : X -> gset string) (defined parsed : X -> bool)
    (x x' : X) : Prop :=
  names x ⊆ names x'
  /\ defined x' = defined x
  /\ (parsed x = true -> parsed x' = true).

(** *** The name of the parameters dataclass *)

(** What is left of [s] behind the literal [lit], when [s] starts with it. *)
Fixpoint strip_prefix (lit s : string) : option string :=
  match lit with
  | EmptyString => Some s
  | String a lit' =>
      match s with
      | EmptyString => None
      | String b s' => if Ascii.eqb a b then strip_prefix lit' s' else None
      end
  end.

(** [s] without its first [n] characters. *)
Fixpoint drop_string (n : nat) (s : string) : string :=
  match n, s with
  | S k, String _ s' => drop_string k s'
  | _, _ => s
  end.

(** [s.endswith(suffix)]: a tail of [s] is [suffix]. *)
Fixpoint ends_with (suffix s : string) : bool :=
  String.eqb s suffix ||
  match s with
  | EmptyString => false
  | String _ s' => ends_with suffix s'
  end.

(** The two lines that open the pattern: the decorator, a newline, and the
    keyword. *)
Definition dataclass_header : string := "@dataclass" +:+ Py.nl +:+ "class".

(** [PARAMETERS_DATACLASS_REGEX] anchored at the start of a line [s]; the
    result is the group.  Written out, the pattern is the header, one
    whitespace character, a run of word characters that ends in
    Parameters with at least one character before it, and
    (BaseInferenceType): behind the run.  The run is the whole run of word
    characters, since an opening bracket has to follow it. *)
Definition match_dataclass (s : string) : option string :=
  match strip_prefix dataclass_header s with
  | Some (String c rest) =>
      if Py.isspace c then
        let w := take_while is_word rest in
        if (10 <? String.length w) && ends_with "Parameters" w then
          match strip_prefix "(BaseInferenceType):" (drop_string (String.length w) rest) with
          | Some _ => Some w
          | None => None
          end
        else None
      else None
  | _ => None
  end.

(** [PARAMETERS_DATACLASS_REGEX.search]: the first line start, from the
    left, at which the pattern matches. *)
Fixpoint search_dataclass (at_line_start : bool) (s : string) : option string :=
  match s with
  | EmptyString => None
  | String c s' =>
      match (if at_line_start then match_dataclass s else None) with
      | Some w => Some w
      | None => search_dataclass (Ascii.eqb c Py.LF) s'
      end
  end.

(** [_get_parameter_type_name]; [file] is the text of the schema file of
    the method, [None] when there is no such file. *)
Definition _get_parameter_type_name (file : option string) : option string :=
  match file with
  | None => None
  | Some content => search_dataclass true content
  end.

End TaskParams.

(** * Properties *)

(** ** Facts about the string methods *)

Module PyFacts.
Import Py.

Lemma replace_char (c : ascii) (s : string) :
  replace (String c EmptyString) EmptyString s
  = filter_chars (fun a => negb (Ascii.eqb a c)) s.
Proof.
  unfold replace. induction s as [|a s IH]; simpl; [reflexivity|].
  destruct (ascii_dec c a) as [->|Hne].
  - rewrite Ascii.eqb_refl. simpl. destruct s; exact IH.
  - assert (Ascii.eqb a c = false) as -> by (apply Ascii.eqb_neq; congruence).
    simpl. now rewrite IH.
Qed.

Lemma filter_chars_twice (p q : ascii -> bool) (s : string) :
  filter_chars q (filter_chars p s) = filter_chars (fun c => p c && q c) s.
Proof.
  induction s as [|a s IH]; simpl; [reflexivity|].
  destruct (p a); simpl; [destruct (q a); simpl|]; now rewrite IH.
Qed.

Lemma filter_chars_ext (p q : ascii -> bool) (s : string) :
  (forall c, p c = q c) -> filter_chars p s = filter_chars q s.
Proof.
  intros E. induction s as [|a s IH]; simpl; [reflexivity|].
  now rewrite E, IH.
Qed.

Lemma in_chars_filter (p : ascii -> bool) (s : string) (c : ascii) :
  in_chars (filter_chars p s) c = in_chars s c && p c.
Proof.
  induction s as [|a s IH]; simpl; [reflexivity|].
  destruct (p a) eqn:E; simpl; rewrite IH;
    destruct (Ascii.eqb_spec c a) as [->|Hne]; simpl;
    rewrite ?E, ?andb_false_r; reflexivity.
Qed.

Lemma in_chars_lstrip (p : ascii -> bool) (s : string) (c : ascii) :
  in_chars s c = false -> in_chars (lstrip_by p s) c = false.
Proof.
  induction s as [|a s IH]; simpl; [reflexivity|].
  intros H. destruct (p a); [|exact H].
  apply IH. now apply orb_false_iff in H.
Qed.

Lemma in_chars_rstrip (p : ascii -> bool) (s : string) (c : ascii) :
  in_chars s c = false -> in_chars (rstrip_by p s) c = false.
Proof.
  induction s as [|a s IH]; simpl; [reflexivity|].
  intros H. apply orb_false_iff in H as [Ha Hs]. specialize (IH Hs).
  destruct (rstrip_by p s) eqn:E.
  - destruct (p a); simpl; [reflexivity|now rewrite Ha].
  - simpl in *. now rewrite Ha.
Qed.

Lemma rstrip_by_idem (p : ascii -> bool) (s : string) :
  rstrip_by p (rstrip_by p s) = rstrip_by p s.
Proof.
  induction s as [|a s IH]; simpl; [reflexivity|].
  destruct (rstrip_by p s) as [|b r] eqn:E.
  - destruct (p a) eqn:Ea; simpl; [reflexivity|now rewrite Ea].
  - change (rstrip_by p (String a (String b r))) with
      (match rstrip_by p (String b r) with
       | EmptyString => if p a then EmptyString else String a EmptyString
       | r' => String a r'
       end).
    now rewrite IH.
Qed.

(** What is left of [lstrip] starts with a character that stays. *)
Lemma lstrip_by_head (p : ascii -> bool) (s : string) :
  match lstrip_by p s with
  | EmptyString => True
  | String c _ => p c = false
  end.
Proof.
  induction s as [|a s IH]; simpl; [exact I|].
  destruct (p a) eqn:E; [exact IH|exact E].
Qed.

Lemma rstrip_by_keeps_head (p : ascii -> bool) (c : ascii) (s : string) :
  p c = false -> exists r, rstrip_by p (String c s) = String c r.
Proof.
  intros Hc. simpl. destruct (rstrip_by p s).
  - rewrite Hc. now eexists.
  - now eexists.
Qed.

Lemma strip_by_idem (p : ascii -> bool) (s : string) :
  strip_by p (strip_by p s) = strip_by p s.
Proof.
  unfold strip_by.
  pose proof (lstrip_by_head p s) as Hh.
  destruct (lstrip_by p s) as [|c t] eqn:E; [reflexivity|].
  destruct (rstrip_by_keeps_head p c t Hh) as [r Hr].
  rewrite Hr. cbn [lstrip_by]. rewrite Hh, <- Hr.
  apply rstrip_by_idem.
Qed.

Lemma or_None_Some (s t : string) :
  or_None s = Some t -> s = t /\ t <> EmptyString.
Proof.
  destruct s; simpl; [discriminate|].
  intros [= <-]. split; [reflexivity|discriminate].
Qed.

End PyFacts.

(** ** Properties of [_auth.py] *)

Module AuthSpec.
Import Auth.

Lemma clean_token_filter (token : string) :
  _clean_token (Some token)
  = Py.or_None (Py.strip (Py.filter_chars (fun c => negb (is_line_break c)) token)).
Proof.
  unfold _clean_token, Py.nl, Py.cr.
  rewrite !PyFacts.replace_char, PyFacts.filter_chars_twice.
  do 2 f_equal. apply PyFacts.filter_chars_ext.
  intros c. unfold is_line_break. now rewrite negb_orb.
Qed.

(** What is left of a token is not empty, has no line break, and has no
    whitespace at its ends. *)
Lemma clean_token_Some (token : option string) (t : string) :
  _clean_token token = Some t ->
  t <> EmptyString
  /\ Py.in_chars t Py.CR = false /\ Py.in_chars t Py.LF = false
  /\ Py.strip t = t.
Proof.
  destruct token as [token|]; [|discriminate]. intros H.
  rewrite clean_token_filter in H.
  apply PyFacts.or_None_Some in H as [<- Hne].
  split; [exact Hne|].
  assert (forall c, is_line_break c = true ->
            Py.in_chars (Py.strip (Py.filter_chars (fun c => negb (is_line_break c)) token)) c
            = false) as Hgone.
  { intros c Hc. unfold Py.strip, Py.strip_by.
    apply PyFacts.in_chars_rstrip, PyFacts.in_chars_lstrip.
    rewrite PyFacts.in_chars_filter, Hc. apply andb_false_r. }
  split; [now apply Hgone|]. split; [now apply Hgone|].
  apply PyFacts.strip_by_idem.
Qed.

(** C7: token normalisation deletes carriage returns and newlines, strips
    the surrounding whitespace, and answers [None] for [None] and for a
    token of which nothing is left; the three examples of the
    specification. *)
Theorem clean_token_normalises :
  _clean_token (Some (" abc" +:+ Py.nl)) = Some "abc"
  /\ _clean_token (Some (Py.cr +:+ Py.nl)) = None
  /\ _clean_token None = None
  /\ (forall token,
        _clean_token (Some token)
        = Py.or_None (Py.strip (Py.filter_chars (fun c => negb (is_line_break c)) token)))
  /\ (forall token t,
        _clean_token token = Some t ->
        t <> EmptyString
        /\ Py.in_chars t Py.CR = false /\ Py.in_chars t Py.LF = false
        /\ Py.strip t = t).
Proof.
  split; [reflexivity|]. split; [reflexivity|]. split; [reflexivity|].
  split; [exact clean_token_filter|exact clean_token_Some].
Qed.

(** *** Resolution order *)

(** C6, as stated, fails: with the primary variable set to a blank, the
    alias holding X and the token file holding Y, the first present
    candidate of the four is X, and [get_token] answers Y. *)
Lemma get_token_blank_primary_skips_alias :
  (get_token not_colab blank_primary initial_globals).1 = Ok (Some "Y")
  /\ four_source_resolution None blank_primary (Some "Y") = Some "X"
  /\ (get_token not_colab blank_primary initial_globals).1
     <> Ok (four_source_resolution None blank_primary (Some "Y")).
Proof.
  split; [vm_compute; reflexivity|].
  split; [vm_compute; reflexivity|].
  vm_compute. discriminate.
Qed.

(** C6, amended: [get_token] answers the vault's token when there is one;
    otherwise the normalised value of one environment variable, the
    primary one when it is set and not empty and else the alias, when
    something is left of it; otherwise what the token file gives.  (When
    the vault lookup raises, so does [get_token].)  The vault lookup's
    effect on the globals is the only one.  In the scenario of the
    specification (no vault, primary variable unset, alias X, token file
    Y) the answer is X. *)
Theorem get_token_resolution (rt : runtime) (w : world) (g : globals) :
  let vault := _get_token_from_google_colab rt (colab w) g in
  let primary := environ w !! "HF_TOKEN" in
  let alias := environ w !! "HUGGING_FACE_HUB_TOKEN" in
  (get_token rt w g).2 = vault.2
  /\ (get_token rt w g).1
     = match vault.1 with
       | Raise e => Raise e
       | Ok token =>
           if truthy token then Ok token
           else match _clean_token (if truthy primary then primary else alias) with
                | Some t => Ok (Some t)
                | None => _get_token_from_file w
                end
       end
  /\ (negb (is_google_colab rt) || is_colab_enterprise rt = true ->
      primary = None -> alias = Some "X" -> token_file w = Ok "Y" ->
      get_token rt w g = (Ok (Some "X"), g)).
Proof.
  cbn zeta. unfold get_token.
  destruct (_get_token_from_google_colab rt (colab w) g) as [a g'] eqn:Ev.
  cbn [fst snd].
  assert (forall (o : option string) (t : string),
            _clean_token o = Some t -> truthy (Some t) = true) as Htr.
  { intros o t H.
    destruct (clean_token_Some o t H) as [Hne _].
    destruct t; [contradiction|reflexivity]. }
  assert (_get_token_from_environment w
          = _clean_token (if truthy (environ w !! "HF_TOKEN")
                          then environ w !! "HF_TOKEN"
                          else environ w !! "HUGGING_FACE_HUB_TOKEN")) as Henv.
  { unfold _get_token_from_environment, Py.or_else, truthy.
    destruct (environ w !! "HF_TOKEN") as [[|c t]|]; reflexivity. }
  split; [|split].
  - destruct a as [a|e]; [|reflexivity].
    destruct (truthy a); [reflexivity|].
    destruct (truthy (_get_token_from_environment w)); reflexivity.
  - destruct a as [a|e]; [|reflexivity].
    destruct (truthy a); [reflexivity|]. cbn [fst].
    rewrite Henv.
    destruct (_clean_token _) as [t|] eqn:Ec.
    + now rewrite (Htr _ _ Ec).
    + reflexivity.
  - intros Hrt Hp Ha Hf.
    unfold _get_token_from_google_colab in Ev. rewrite Hrt in Ev.
    injection Ev as <- <-. cbn [truthy].
    rewrite Henv, Hp, Ha. cbn. reflexivity.
Qed.

Lemma get_token_resolution_witness :
  get_token not_colab
    {| colab := no_vault;
       environ := {[ "HUGGING_FACE_HUB_TOKEN" := "X" ]};
       token_file := Ok "Y" |}
    initial_globals
  = (Ok (Some "X"), initial_globals).
Proof.
  apply (get_token_resolution not_colab
           {| colab := no_vault;
              environ := {[ "HUGGING_FACE_HUB_TOKEN" := "X" ]};
              token_file := Ok "Y" |}
           initial_globals); vm_compute; reflexivity.
Defined.

(** *** The vault is asked once by the lookups that return *)

Lemma count_raised_none {A} (rs : list (result A)) :
  Forall (fun r => raised r = false) rs -> count_raised rs = 0.
Proof.
  unfold count_raised.
  induction 1 as [|r rs Hr _ IH]; [reflexivity|]. cbn [List.filter].
  now rewrite Hr.
Qed.

Lemma globals_ok_initial (rt : runtime) : globals_ok rt 0 initial_globals.
Proof. split; [reflexivity|]. split; [discriminate|reflexivity]. Qed.

(** One lookup: the count of raised lookups grows when it raises. *)
Lemma globals_ok_step (rt : runtime) (c : colab_call) (n : nat) (g : globals) :
  globals_ok rt n g ->
  globals_ok rt ((if raised (_get_token_from_google_colab rt c g).1 then 1 else 0) + n)
    (_get_token_from_google_colab rt c g).2.
Proof.
  intros Hg. pose proof Hg as (Hq & Hc & Hs).
  unfold _get_token_from_google_colab.
  destruct (negb (is_google_colab rt) || is_colab_enterprise rt) eqn:Ert; [exact Hg|].
  destruct (_IS_GOOGLE_COLAB_CHECKED g) eqn:Ech; [exact Hg|].
  destruct (importable c); cbn [negb]; [|exact Hg].
  unfold handler, checked_return, globals_ok.
  destruct (userdata_get c), (warn_raises c); cbn; rewrite ?Hq, ?Ech;
    (split; [lia|]); (split; [intros _; exact Ert || discriminate|]);
    solve [discriminate | intros _; now apply Hs].
Qed.

Lemma globals_ok_lookups (rt : runtime) (cs : list colab_call) (n : nat) (g : globals) :
  globals_ok rt n g ->
  globals_ok rt (count_raised (lookups rt cs g).1 + n) (lookups rt cs g).2.
Proof.
  revert n g. induction cs as [|c cs IH]; intros n g Hg; [exact Hg|].
  cbn [lookups].
  pose proof (globals_ok_step rt c n g Hg) as H1.
  destruct (_get_token_from_google_colab rt c g) as [r g1]. cbn [fst snd] in H1.
  specialize (IH _ g1 H1).
  destruct (lookups rt cs g1) as [rs g2]. cbn [fst snd] in *.
  unfold count_raised in *. cbn [List.filter].
  destruct (raised r); cbn [length] in *;
    [replace (S (length (List.filter raised rs)) + n)
       with (length (List.filter raised rs) + (1 + n)) by lia|]; exact IH.
Qed.

(** Once the flag is set, a lookup reads the cache and changes nothing. *)
Lemma checked_lookup (rt : runtime) (c : colab_call) (n : nat) (g : globals) :
  globals_ok rt n g -> _IS_GOOGLE_COLAB_CHECKED g = true ->
  _get_token_from_google_colab rt c g = (Ok (_GOOGLE_COLAB_SECRET g), g).
Proof.
  intros (_ & Hc & _) Hch. unfold _get_token_from_google_colab.
  now rewrite (Hc Hch), Hch.
Qed.

(** C9, as stated, fails: a lookup that raises does not set the flag, and
    the next one asks the vault again.  The vault raises an error that is
    no error of [google.colab], twice; or the access is denied twice while
    warnings are errors. *)
Lemma vault_queried_again_after_raise :
  lookups in_colab [broken_vault; broken_vault] initial_globals
  = ([Raise (OtherException "TimeoutError"); Raise (OtherException "TimeoutError")],
     {| _IS_GOOGLE_COLAB_CHECKED := false;
        _GOOGLE_COLAB_SECRET := None;
        vault_queries := 2;
        warnings := [] |})
  /\ lookups in_colab [denied_strict; denied_strict] initial_globals
     = ([Raise UserWarning; Raise UserWarning],
        {| _IS_GOOGLE_COLAB_CHECKED := false;
           _GOOGLE_COLAB_SECRET := None;
           vault_queries := 2;
           warnings := [AccessNotGranted; AccessNotGranted] |})
  /\ ~ vault_queries (lookups in_colab [broken_vault; broken_vault] initial_globals).2 <= 1.
Proof.
  split; [reflexivity|]. split; [reflexivity|]. cbn. lia.
Qed.

(** C9, amended: whatever the sequence of lookups a process makes, every
    query of the vault either ends in an exception or sets the flag, and
    the flag is set once: the vault is asked once for each lookup that
    raised, and at most once more.  So it is asked at most once when no
    lookup raises; and when the flag is set, every later lookup answers
    the cached secret (a cached [None] too) and leaves the globals, the
    count of vault queries among them, as they are. *)
Theorem vault_queried_at_most_once (rt : runtime) (cs : list colab_call) :
  let rs := (lookups rt cs initial_globals).1 in
  let g := (lookups rt cs initial_globals).2 in
  vault_queries g
  = count_raised rs + (if _IS_GOOGLE_COLAB_CHECKED g then 1 else 0)
  /\ (Forall (fun r => raised r = false) rs -> vault_queries g <= 1)
  /\ (_IS_GOOGLE_COLAB_CHECKED g = true ->
      forall later : list colab_call,
        lookups rt later g
        = (replicate (length later) (Ok (_GOOGLE_COLAB_SECRET g)), g)).
Proof.
  cbn zeta.
  pose proof (globals_ok_lookups rt cs 0 _ (globals_ok_initial rt)) as Hok.
  set (rs := (lookups rt cs initial_globals).1) in *.
  set (g := (lookups rt cs initial_globals).2) in *.
  rewrite Nat.add_0_r in Hok.
  split; [exact (proj1 Hok)|]. split.
  - intros Hrs. destruct Hok as [-> _].
    rewrite (count_raised_none rs Hrs).
    destruct (_IS_GOOGLE_COLAB_CHECKED g); lia.
  - intros Hch later. induction later as [|c later IH]; [reflexivity|].
    cbn [lookups]. rewrite (checked_lookup rt c _ g Hok Hch), IH. reflexivity.
Qed.

Lemma vault_queried_at_most_once_witness :
  let g := (lookups in_colab [denied; granted "hf_abc"] initial_globals).2 in
  _IS_GOOGLE_COLAB_CHECKED g = true
  /\ _GOOGLE_COLAB_SECRET g = None
  /\ vault_queries g <= 1
  /\ lookups in_colab [granted "hf_abc"; granted "hf_xyz"] g = ([Ok None; Ok None], g).
Proof.
  cbn zeta.
  destruct (vault_queried_at_most_once in_colab [denied; granted "hf_abc"])
    as (_ & H1 & H2).
  split; [reflexivity|]. split; [reflexivity|]. split.
  - apply H1. repeat constructor.
  - exact (H2 eq_refl [granted "hf_abc"; granted "hf_xyz"]).
Defined.

(** *** Malformed profile store *)

(** C8, as stated, fails: a store whose bytes cannot be decoded is not
    parseable, [ConfigParser.read] raises [UnicodeDecodeError], which is no
    [configparser.Error], and [_get_profiles] raises it. *)
Lemma get_profiles_undecodable_store_raises :
  _get_profiles (Some (ReadRaises UnicodeDecodeError)) = Raise UnicodeDecodeError
  /\ _get_profiles (Some (ReadRaises UnicodeDecodeError)) <> Ok ∅
  /\ _get_token_from_profile (Some (ReadRaises UnicodeDecodeError)) "default"
     = Raise UnicodeDecodeError.
Proof.
  split; [reflexivity|]. split; [discriminate|reflexivity].
Qed.

(** C8, amended: whatever [ConfigParser.read] raises on the profile
    store, [_get_profiles] returns the empty mapping exactly when it is a
    [configparser.Error] (the contents are not INI) and raises it itself
    otherwise; and so every profile of a store that is not INI reads as
    absent. *)
Theorem get_profiles_malformed_store (e : exn) (profile_name : string) :
  _get_profiles (Some (ReadRaises e))
  = (if is_configparser_Error e then Ok ∅ else Raise e)
  /\ _get_token_from_profile (Some (ReadRaises e)) profile_name
     = (if is_configparser_Error e then Ok None else Raise e)
  /\ (_get_profiles (Some (ReadRaises e)) = Ok ∅ <-> is_configparser_Error e = true).
Proof.
  unfold _get_token_from_profile, _get_profiles.
  destruct (is_configparser_Error e) eqn:He; cbn [mbind result_bind].
  - split; [reflexivity|]. split; [|tauto].
    now rewrite lookup_empty.
  - split; [reflexivity|]. split; [reflexivity|]. split; discriminate.
Qed.

(** *** Further properties of the token lookup *)

Lemma filter_line_breaks_id (t : string) :
  Py.in_chars t Py.CR = false -> Py.in_chars t Py.LF = false ->
  Py.filter_chars (fun c => negb (is_line_break c)) t = t.
Proof.
  induction t as [|a t IH]; [reflexivity|]. cbn [Py.in_chars Py.filter_chars].
  intros Hcr Hlf.
  apply orb_false_iff in Hcr as [Hcr Hcr']. apply orb_false_iff in Hlf as [Hlf Hlf'].
  unfold is_line_break. rewrite Ascii.eqb_sym, Hcr, (Ascii.eqb_sym a), Hlf.
  cbn. now rewrite <- IH at 2.
Qed.

(** A normalised token is left as it is. *)
Lemma clean_token_fixed (t : string) :
  t <> EmptyString ->
  Py.in_chars t Py.CR = false -> Py.in_chars t Py.LF = false ->
  Py.strip t = t ->
  _clean_token (Some t) = Some t.
Proof.
  intros Hne Hcr Hlf Hs.
  rewrite clean_token_filter, (filter_line_breaks_id t Hcr Hlf), Hs.
  destruct t; [contradiction|reflexivity].
Qed.

(** Closes a goal [_clean_token (_clean_token x) = _clean_token x]. *)
Ltac clean_twice :=
  match goal with
  | |- _clean_token (_clean_token ?x) = _clean_token ?x =>
      let t := fresh "t" in
      let E := fresh "E" in
      destruct (_clean_token x) as [t|] eqn:E;
      [ destruct (clean_token_Some x t E) as (? & ? & ? & ?);
        now apply clean_token_fixed
      | reflexivity ]
  end.

(** Cleaning a cleaned token changes nothing: what [_clean_token] returns
    is a token it leaves as it is. *)
Theorem clean_token_idempotent (token : option string) :
  _clean_token (_clean_token token) = _clean_token token.
Proof.
  destruct (_clean_token token) as [t|] eqn:E; [|reflexivity].
  destruct (clean_token_Some token t E) as (Hne & Hcr & Hlf & Hs).
  now apply clean_token_fixed.
Qed.

Lemma cached_secret_clean (rt : runtime) (cs : list colab_call) (g : globals) :
  _clean_token (_GOOGLE_COLAB_SECRET g) = _GOOGLE_COLAB_SECRET g ->
  _clean_token (_GOOGLE_COLAB_SECRET (lookups rt cs g).2)
  = _GOOGLE_COLAB_SECRET (lookups rt cs g).2.
Proof.
  revert g. induction cs as [|c cs IH]; intros g Hg; [exact Hg|].
  cbn [lookups].
  assert (_clean_token (_GOOGLE_COLAB_SECRET (_get_token_from_google_colab rt c g).2)
          = _GOOGLE_COLAB_SECRET (_get_token_from_google_colab rt c g).2) as H1.
  { unfold _get_token_from_google_colab.
    destruct (negb (is_google_colab rt) || is_colab_enterprise rt); [exact Hg|].
    destruct (_IS_GOOGLE_COLAB_CHECKED g); [exact Hg|].
    destruct (importable c); [|exact Hg].
    unfold handler, checked_return.
    destruct (userdata_get c), (warn_raises c); cbn;
      try reflexivity; try exact Hg; clean_twice. }
  destruct (_get_token_from_google_colab rt c g) as [r g1].
  specialize (IH g1 H1). destruct (lookups rt cs g1) as [rs g2]. exact IH.
Qed.

Lemma lookup_result_clean (rt : runtime) (c : colab_call) (g : globals)
    (r : option string) :
  _clean_token (_GOOGLE_COLAB_SECRET g) = _GOOGLE_COLAB_SECRET g ->
  (_get_token_from_google_colab rt c g).1 = Ok r ->
  _clean_token r = r.
Proof.
  intros Hg. unfold _get_token_from_google_colab.
  destruct (negb (is_google_colab rt) || is_colab_enterprise rt); [now intros [= <-]|].
  destruct (_IS_GOOGLE_COLAB_CHECKED g); [now intros [= <-]|].
  destruct (importable c); [|now intros [= <-]].
  unfold handler, checked_return.
  destruct (userdata_get c), (warn_raises c);
    cbn [fst set_checked set_secret count_query warn _GOOGLE_COLAB_SECRET];
    intros H; try discriminate H; injection H as <-;
    first [reflexivity | clean_twice].
Qed.

(** Whatever lookups a process made before, the token [get_token] returns
    is a normalised one: cleaning it again gives it back, so it is never
    empty, has no line break and no whitespace at its ends. *)
Theorem get_token_is_normalised (rt : runtime) (cs : list colab_call) (w : world)
    (r : option string) :
  (get_token rt w (lookups rt cs initial_globals).2).1 = Ok r ->
  _clean_token r = r.
Proof.
  pose proof (cached_secret_clean rt cs initial_globals eq_refl) as Hg.
  set (g := (lookups rt cs initial_globals).2) in *.
  pose proof (lookup_result_clean rt (colab w) g) as Hv.
  unfold get_token.
  destruct (_get_token_from_google_colab rt (colab w) g) as [[a|e] g'];
    [|discriminate].
  cbn [fst] in Hv. specialize (Hv a Hg eq_refl).
  destruct (truthy a); cbn [fst]; [now intros [= <-]|].
  destruct (truthy (_get_token_from_environment w)) eqn:Et; cbn [fst].
  - intros [= <-]. unfold _get_token_from_environment. clean_twice.
  - unfold _get_token_from_file.
    destruct (token_file w) as [text|e]; intros H.
    + assert (r = _clean_token (Some text)) as -> by congruence.
      clean_twice.
    + destruct e; try discriminate H.
      assert (r = None) as -> by congruence. reflexivity.
Qed.

Lemma get_token_is_normalised_witness :
  _clean_token (Some "X") = Some "X".
Proof.
  apply (get_token_is_normalised not_colab []
           {| colab := no_vault;
              environ := {[ "HUGGING_FACE_HUB_TOKEN" := " X" ]};
              token_file := Raise PermissionError |}).
  vm_compute. reflexivity.
Defined.

(** The vault lookup raises exactly when it asks the vault (the process
    runs in a notebook that is not an enterprise one, the flag is not set,
    the import succeeds) and the vault's error is not handled or a handler
    warns while warnings are errors. *)
Lemma vault_lookup_raises (rt : runtime) (c : colab_call) (g : globals) (e : exn) :
  (_get_token_from_google_colab rt c g).1 = Raise e
  <-> negb (is_google_colab rt) || is_colab_enterprise rt = false
      /\ _IS_GOOGLE_COLAB_CHECKED g = false
      /\ importable c = true
      /\ vault_raises c e.
Proof.
  unfold _get_token_from_google_colab, vault_raises, handler, checked_return.
  destruct (negb (is_google_colab rt) || is_colab_enterprise rt);
    [split; [discriminate|intros [? _]; discriminate]|].
  destruct (_IS_GOOGLE_COLAB_CHECKED g);
    [split; [discriminate|intros (_ & ? & _); discriminate]|].
  destruct (importable c); cbn [negb];
    [|split; [discriminate|intros (_ & _ & ? & _); discriminate]].
  destruct (userdata_get c), (warn_raises c); cbn [fst]; split;
    try discriminate; try (intros (_ & _ & _ & []); fail);
    try (intros (_ & _ & _ & ? & _); discriminate).
  all: try (intros [= <-]; tauto).
  all: try (intros (_ & _ & _ & _ & ->); reflexivity).
  all: intros (_ & _ & _ & ->); reflexivity.
Qed.

(** [get_token] raises exactly when the vault lookup raises, or neither
    the vault nor the environment gives a token and reading the token
    file fails with something else than a missing file; it raises what
    the lookup or the read raised.  The vault lookup raises exactly when
    it asks the vault and the vault's error is not handled, or a handler
    warns while warnings are errors. *)
Theorem get_token_raises_iff (rt : runtime) (w : world) (g : globals) (e : exn) :
  let vault := (_get_token_from_google_colab rt (colab w) g).1 in
  ((get_token rt w g).1 = Raise e
   <-> vault = Raise e
       \/ ((exists token, vault = Ok token /\ truthy token = false)
           /\ truthy (_get_token_from_environment w) = false
           /\ token_file w = Raise e
           /\ e <> FileNotFoundError))
  /\ (vault = Raise e
      <-> negb (is_google_colab rt) || is_colab_enterprise rt = false
          /\ _IS_GOOGLE_COLAB_CHECKED g = false
          /\ importable (colab w) = true
          /\ vault_raises (colab w) e).
Proof.
  cbn zeta. split; [|apply vault_lookup_raises].
  unfold get_token.
  destruct (_get_token_from_google_colab rt (colab w) g) as [[a|e'] g']; cbn [fst].
  2:{ split; [intros [= <-]; now left|].
      intros [H|[(token & H & _) _]]; [exact H|discriminate H]. }
  destruct (truthy a) eqn:Ea; cbn [fst].
  { split; [discriminate|].
    intros [H|[(token & [= <-] & Ht) _]]; [discriminate H|congruence]. }
  destruct (truthy (_get_token_from_environment w)); cbn [fst].
  { split; [discriminate|]. intros [H|(_ & H & _)]; discriminate H. }
  unfold _get_token_from_file.
  destruct (token_file w) as [text|e''].
  { split; [discriminate|]. intros [H|(_ & _ & H & _)]; discriminate H. }
  split.
  - intros H. right. split; [now exists a|]. split; [reflexivity|].
    destruct e''; try discriminate H; injection H as <-; split;
      solve [reflexivity | discriminate].
  - intros [H|(_ & _ & He & Hne)]; [discriminate H|].
    injection He as ->.
    destruct e; solve [reflexivity | now contradict Hne].
Qed.

Lemma warnings_ok_step (rt : runtime) (c : colab_call) (n : nat) (g : globals) :
  globals_ok rt n g -> warnings_ok n g ->
  warnings_ok ((if raised (_get_token_from_google_colab rt c g).1 then 1 else 0) + n)
    (_get_token_from_google_colab rt c g).2.
Proof.
  intros (Hq & Hc & Hs) Hw. pose proof Hw as (Hl & Hn & Ho).
  unfold _get_token_from_google_colab.
  destruct (negb (is_google_colab rt) || is_colab_enterprise rt); [exact Hw|].
  destruct (_IS_GOOGLE_COLAB_CHECKED g) eqn:Ech; [exact Hw|].
  destruct (importable c); cbn [negb]; [|exact Hw].
  assert (length (warnings g) <= n) as Hle.
  { rewrite Hq in Hl. lia. }
  unfold handler, checked_return, warnings_ok.
  destruct (userdata_get c), (warn_raises c); cbn; rewrite ?length_app; cbn;
    (split; [lia|]); (split; [lia|]); solve [left; lia | now right].
Qed.

Lemma warnings_ok_lookups (rt : runtime) (cs : list colab_call) (n : nat) (g : globals) :
  globals_ok rt n g -> warnings_ok n g ->
  warnings_ok (count_raised (lookups rt cs g).1 + n) (lookups rt cs g).2.
Proof.
  revert n g. induction cs as [|c cs IH]; intros n g Hg Hw; [exact Hw|].
  cbn [lookups].
  pose proof (globals_ok_step rt c n g Hg) as Hg1.
  pose proof (warnings_ok_step rt c n g Hg Hw) as Hw1.
  destruct (_get_token_from_google_colab rt c g) as [r g1]. cbn [fst snd] in Hg1, Hw1.
  specialize (IH _ g1 Hg1 Hw1).
  destruct (lookups rt cs g1) as [rs g2]. cbn [fst snd] in *.
  unfold count_raised in *. cbn [List.filter].
  destruct (raised r); cbn [length] in *;
    [replace (S (length (List.filter raised rs)) + n)
       with (length (List.filter raised rs) + (1 + n)) by lia|]; exact IH.
Qed.

(** Whatever lookups a process makes, every call of [warnings.warn]
    follows a query of the vault, and at most one of these calls returns:
    there are as many calls as lookups that raised, or one more, and then
    no secret is cached.  So a process whose lookups all return warns at
    most once, and not at all when a secret is cached. *)
Theorem vault_warns_at_most_once (rt : runtime) (cs : list colab_call) :
  let rs := (lookups rt cs initial_globals).1 in
  let g := (lookups rt cs initial_globals).2 in
  length (warnings g) <= vault_queries g
  /\ length (warnings g) <= count_raised rs + 1
  /\ (length (warnings g) <= count_raised rs \/ _GOOGLE_COLAB_SECRET g = None)
  /\ (Forall (fun r => raised r = false) rs ->
      length (warnings g) <= 1
      /\ (warnings g = [] \/ _GOOGLE_COLAB_SECRET g = None)).
Proof.
  cbn zeta.
  assert (warnings_ok 0 initial_globals) as H0.
  { split; [cbn; lia|]. split; [cbn; lia|]. left. cbn. lia. }
  pose proof (warnings_ok_lookups rt cs 0 _ (globals_ok_initial rt) H0) as (Hl & Hn & Ho).
  set (rs := (lookups rt cs initial_globals).1) in *.
  set (g := (lookups rt cs initial_globals).2) in *.
  rewrite Nat.add_0_r in Hn, Ho.
  split; [exact Hl|]. split; [exact Hn|]. split; [exact Ho|].
  intros Hrs.
  rewrite (count_raised_none rs Hrs) in Hn, Ho. split; [exact Hn|].
  destruct Ho as [Ho|Ho]; [left|now right].
  destruct (warnings g); [reflexivity|cbn in Ho; lia].
Qed.

(** A lookup whose import of [google.colab] fails is not remembered: after
    any number of them the globals are as at the start, and the next
    lookup behaves as the first one of the process. *)
Theorem failed_import_is_not_cached (rt : runtime) (cs : list colab_call)
    (c : colab_call) :
  Forall (fun c => importable c = false) cs ->
  lookups rt (cs ++ [c]) initial_globals
  = (replicate (length cs) (Ok None)
     ++ [(_get_token_from_google_colab rt c initial_globals).1],
     (_get_token_from_google_colab rt c initial_globals).2).
Proof.
  induction 1 as [|c0 cs Hc0 _ IH].
  - cbn. now destruct (_get_token_from_google_colab rt c initial_globals).
  - cbn [app lookups length replicate].
    assert (_get_token_from_google_colab rt c0 initial_globals = (Ok None, initial_globals))
      as -> by (unfold _get_token_from_google_colab; rewrite Hc0; cbn;
                now destruct (negb (is_google_colab rt) || is_colab_enterprise rt)).
    now rewrite IH.
Qed.

Lemma failed_import_is_not_cached_witness :
  lookups in_colab [no_vault; no_vault; granted "hf_abc"] initial_globals
  = ([Ok None; Ok None; Ok (Some "hf_abc")],
     {| _IS_GOOGLE_COLAB_CHECKED := true;
        _GOOGLE_COLAB_SECRET := Some "hf_abc";
        vault_queries := 1;
        warnings := [] |}).
Proof.
  apply (failed_import_is_not_cached in_colab [no_vault; no_vault] (granted "hf_abc")).
  repeat constructor.
Defined.

(** *** Further properties of the profile store *)

Lemma profiles_of_lookup (get : string -> string -> result string)
    (sections : list string) :
  Forall (fun s => exists token, get s "hf_token" = Ok token) sections ->
  forall acc, exists profiles,
    profiles_of get sections acc = Ok profiles
    /\ forall name,
         profiles !! name
         = if decide (name ∈ sections)
           then match get name "hf_token" with Ok token => Some token | Raise _ => None end
           else acc !! name.
Proof.
  induction 1 as [|s sections [token Hs] _ IH]; intros acc.
  - exists acc. split; [reflexivity|]. intros name.
    destruct (decide (name ∈ [])) as [H|]; [now apply elem_of_nil in H|reflexivity].
  - cbn [profiles_of]. rewrite Hs.
    destruct (IH (<[s:=token]> acc)) as (profiles & -> & Hl).
    exists profiles. split; [reflexivity|]. intros name. rewrite Hl.
    destruct (decide (name ∈ sections)) as [Hin|Hout].
    + rewrite decide_True by (now right). reflexivity.
    + destruct (decide (name = s)) as [->|Hne].
      * rewrite decide_True by (now left). now rewrite lookup_insert_eq, Hs.
      * rewrite decide_False by (rewrite elem_of_cons; tauto).
        now rewrite lookup_insert_ne.
Qed.

(** When every section of the store has a token, the token of a profile is
    the normalised token of its section, and a name that is no section has
    none; a missing store has no profile. *)
Theorem get_token_from_profile_lookup (get : string -> string -> result string)
    (sections : list string) (profile_name : string) :
  Forall (fun s => exists token, get s "hf_token" = Ok token) sections ->
  _get_token_from_profile (Some (ReadOk sections get)) profile_name
  = Ok (if decide (profile_name ∈ sections)
        then match get profile_name "hf_token" with
             | Ok token => _clean_token (Some token)
             | Raise _ => None
             end
        else None)
  /\ _get_token_from_profile None profile_name = Ok None.
Proof.
  intros Hall. split; [|reflexivity].
  unfold _get_token_from_profile, _get_profiles.
  destruct (profiles_of_lookup get sections Hall ∅) as (profiles & -> & Hl).
  cbn [mbind result_bind]. rewrite Hl.
  destruct (decide (profile_name ∈ sections)) as [Hin|Hout].
  - rewrite Forall_forall in Hall. destruct (Hall _ Hin) as [token ->]. reflexivity.
  - now rewrite lookup_empty.
Qed.

Lemma get_token_from_profile_lookup_witness :
  _get_token_from_profile
    (Some (ReadOk ["default"; "work"]
             (store_get {[ "default" := " abc123 "; "work" := "hf_w" ]})))
    "default"
  = Ok (Some "abc123").
Proof.
  refine (eq_trans
            (proj1 (get_token_from_profile_lookup
                      (store_get {[ "default" := " abc123 "; "work" := "hf_w" ]})
                      ["default"; "work"] "default" _)) _).
  - repeat constructor; eexists; vm_compute; reflexivity.
  - vm_compute. reflexivity.
Defined.

(** One section without a token hides every profile: when reading a
    section raises a [configparser.Error] (there is no [hf_token] in it),
    the whole store reads as empty, whatever the other sections hold; any
    other exception is raised to the caller. *)
Theorem one_bad_profile_hides_all (get : string -> string -> result string)
    (before after : list string) (bad : string) (e : exn) :
  Forall (fun s => exists token, get s "hf_token" = Ok token) before ->
  get bad "hf_token" = Raise e ->
  _get_profiles (Some (ReadOk (before ++ bad :: after) get))
  = (if is_configparser_Error e then Ok ∅ else Raise e).
Proof.
  intros Hb He. unfold _get_profiles.
  assert (forall acc, profiles_of get (before ++ bad :: after) acc = Raise e) as ->.
  { induction Hb as [|s before [token Hs] _ IH]; intros acc; cbn [app profiles_of].
    - now rewrite He.
    - rewrite Hs. apply IH. }
  reflexivity.
Qed.

Lemma one_bad_profile_hides_all_witness :
  _get_profiles
    (Some (ReadOk ["default"; "broken"; "work"]
             (store_get {[ "default" := "abc123"; "work" := "hf_w" ]})))
  = Ok ∅.
Proof.
  apply (one_bad_profile_hides_all
           (store_get {[ "default" := "abc123"; "work" := "hf_w" ]})
           ["default"] ["work"] "broken" (NoOptionError "broken" "hf_token")).
  - repeat constructor. eexists. vm_compute. reflexivity.
  - vm_compute. reflexivity.
Defined.

End AuthSpec.

(** ** Induction over the syntax tree *)

Module CstFacts.
Import Cst.

Section stmt_tree_ind.
Variable P : stmt -> Prop.
Hypothesis Hline : forall b, P (SimpleStatementLine b).
Hypothesis Hclass : forall name b, suite_Forall P b -> P (ClassDef name b).
Hypothesis Hfun : forall name ps b, suite_Forall P b -> P (FunctionDef name ps b).
Hypothesis Hcompound :
  forall kind blocks, Forall (suite_Forall P) blocks -> P (CompoundStatement kind blocks).

(** The induction principle that reaches the statements nested in blocks. *)
Fixpoint stmt_tree_ind (s : stmt) : P s :=
  let on_suite (b : suite stmt) : suite_Forall P b :=
    match b with
    | IndentedBlock l =>
        (fix go (l : list stmt) : Forall P l :=
           match l with
           | [] => @Forall_nil_2 _ P
           | x :: l' => @Forall_cons_2 _ P x l' (stmt_tree_ind x) (go l')
           end) l
    | SimpleStatementSuite _ => I
    end in
  match s with
  | SimpleStatementLine b => Hline b
  | ClassDef name b => Hclass name b (on_suite b)
  | FunctionDef name ps b => Hfun name ps b (on_suite b)
  | CompoundStatement kind blocks =>
      Hcompound kind blocks
        ((fix go (bs : list (suite stmt)) : Forall (suite_Forall P) bs :=
            match bs with
            | [] => @Forall_nil_2 _ (suite_Forall P)
            | b :: bs' => @Forall_cons_2 _ (suite_Forall P) b bs' (on_suite b) (go bs')
            end) blocks)
  end.
End stmt_tree_ind.

(** The visit of a statement, one equation per node class. *)
Lemma visit_stmt_SimpleStatementLine {St} (v : CSTVisitor St) smalls st :
  visit_stmt v (SimpleStatementLine smalls) st = foldM (visit_small v) smalls st.
Proof. reflexivity. Qed.

Lemma visit_stmt_ClassDef {St} (v : CSTVisitor St) name b st :
  visit_stmt v (ClassDef name b) st
  = match visit_ClassDef name b st with
    | Ok st' => visit_suite v b st'
    | Raise e => Raise e
    end.
Proof. reflexivity. Qed.

Lemma visit_stmt_FunctionDef {St} (v : CSTVisitor St) name ps b st :
  visit_stmt v (FunctionDef name ps b) st
  = match visit_FunctionDef name ps b st with
    | Ok st' => visit_suite v b st'
    | Raise e => Raise e
    end.
Proof. reflexivity. Qed.

Lemma visit_stmt_CompoundStatement {St} (v : CSTVisitor St) kind blocks st :
  visit_stmt v (CompoundStatement kind blocks) st = foldM (visit_suite v) blocks st.
Proof. reflexivity. Qed.

Lemma foldM_cons {A St} (f : A -> St -> result St) (x : A) (l : list A) (st : St) :
  foldM f (x :: l) st
  = match f x st with
    | Ok st' => foldM f l st'
    | Raise e => Raise e
    end.
Proof. reflexivity. Qed.

(** A loop whose rounds all return is a fold. *)
Lemma foldM_Ok {A St} (f : A -> St -> result St) (g : St -> A -> St) (l : list A) :
  Forall (fun x => forall st, f x st = Ok (g st x)) l ->
  forall st, foldM f l st = Ok (foldl g st l).
Proof.
  induction 1 as [|x l Hx _ IH]; intros st; [reflexivity|].
  rewrite foldM_cons, Hx. apply IH.
Qed.

(** A loop whose rounds change nothing returns the state it got. *)
Lemma foldM_id {A St} (f : A -> St -> result St) (l : list A) :
  Forall (fun x => forall st, f x st = Ok st) l ->
  forall st, foldM f l st = Ok st.
Proof.
  induction 1 as [|x l Hx _ IH]; intros st; [reflexivity|].
  rewrite foldM_cons, Hx. apply IH.
Qed.

(** A loop in which each round either raises [e], when [ok] fails, or
    returns: it raises [e] at the first round on which [ok] fails. *)
Lemma foldM_forallb {A St} (f : A -> St -> result St) (g : St -> A -> St)
    (ok : A -> bool) (e : exn) (l : list A) :
  Forall (fun x => forall st, f x st = if ok x then Ok (g st x) else Raise e) l ->
  forall st, foldM f l st = if forallb ok l then Ok (foldl g st l) else Raise e.
Proof.
  induction 1 as [|x l Hx _ IH]; intros st; [reflexivity|].
  rewrite foldM_cons, Hx. cbn [forallb foldl].
  destruct (ok x); [apply IH|reflexivity].
Qed.

Lemma transform_stmt_ClassDef (t : CSTTransformer) name b :
  transform_stmt t (ClassDef name b)
  = match transform_suite t b with
    | Ok b' => Ok (ClassDef name b')
    | Raise e => Raise e
    end.
Proof. reflexivity. Qed.

Lemma transform_stmt_FunctionDef (t : CSTTransformer) name ps b :
  transform_stmt t (FunctionDef name ps b)
  = match transform_suite t b with
    | Ok b' =>
        leave_FunctionDef (FunctionDef name ps b) (FunctionDef name (tuple_parameters ps) b')
    | Raise e => Raise e
    end.
Proof. reflexivity. Qed.

Lemma transform_stmt_CompoundStatement (t : CSTTransformer) kind blocks :
  transform_stmt t (CompoundStatement kind blocks)
  = match mapM (transform_suite t) blocks with
    | Ok blocks' => Ok (CompoundStatement kind blocks')
    | Raise e => Raise e
    end.
Proof. reflexivity. Qed.

Lemma mapM_Ok {A B} (f : A -> result B) (l : list A) (l' : list B) :
  mapM f l = Ok l' -> Forall2 (fun x y => f x = Ok y) l l'.
Proof.
  revert l'. induction l as [|x l IH]; intros l' H; cbn in H.
  - injection H as <-. constructor.
  - destruct (f x) as [y|] eqn:Ex; [|discriminate].
    destruct (mapM f l) as [ys|]; [|discriminate].
    injection H as <-. constructor; [exact Ex|now apply IH].
Qed.

Lemma mapM_total {A B} (f : A -> result B) (l : list A) :
  Forall (fun x => exists y, f x = Ok y) l -> exists l', mapM f l = Ok l'.
Proof.
  induction 1 as [|x l [y Hy] _ [ys Hys]]; [now exists []|].
  exists (y :: ys). cbn. fold (mapM f l). now rewrite Hy, Hys.
Qed.

(** From a property of each element of a list to a relation with the
    elements of a list it was mapped to. *)
Lemma Forall_Forall2 {A B} (Q R : A -> B -> Prop) (l : list A) (l' : list B) :
  Forall (fun x => forall y, Q x y -> R x y) l -> Forall2 Q l l' -> Forall2 R l l'.
Proof.
  intros H H2. induction H2 as [|x y l l' Hxy _ IH]; [constructor|].
  inversion H; subst. constructor; auto.
Qed.

End CstFacts.

(** ** Properties of [generate_task_parameters.py] *)

Module TaskParamsSpec.
Import Cst TaskParams.

(** A decidable proposition that holds by evaluation. *)
Ltac decide_by_computation :=
  lazymatch goal with
  | |- ?P => apply (proj1 (bool_decide_eq_true P)); vm_compute; reflexivity
  end.

(** *** Type names of an annotation *)

Lemma elem_of_collect_type_names (builtin_types : gset string)
    (annotation_str x : string) :
  x ∈ _collect_type_names_from_annotation builtin_types annotation_str
  <-> exists t, In t (findall (Py.replace " " EmptyString annotation_str))
                /\ x = Py.strip_chars Py.quotes t /\ x ∉ builtin_types.
Proof.
  unfold _collect_type_names_from_annotation.
  rewrite elem_of_list_to_set, list_elem_of_In, filter_In, in_map_iff.
  rewrite bool_decide_eq_true. split.
  - intros [(t & <- & Ht) Hx]. now exists t.
  - intros (t & Ht & -> & Hx). split; [now exists t|exact Hx].
Qed.

(** C3, as stated, fails: the name Optional is no builtin, so it is among
    the names extracted from both annotations of the specification. *)
Lemma collect_type_names_keeps_Optional :
  _collect_type_names_from_annotation cpython_builtin_types "Optional[str]"
  <> ∅
  /\ _collect_type_names_from_annotation cpython_builtin_types "Optional[ChatMessage]"
     <> {[ "ChatMessage" ]}.
Proof.
  assert (forall a, In "Optional" (findall (Py.replace " " EmptyString a)) ->
            "Optional" ∈ _collect_type_names_from_annotation cpython_builtin_types a)
    as Hin.
  { intros a Ha. apply elem_of_collect_type_names. exists "Optional".
    split; [exact Ha|]. split; [reflexivity|]. decide_by_computation. }
  split; intros E.
  - assert ("Optional" ∈ (∅ : gset string)) as H
      by (rewrite <- E; apply Hin; vm_compute; auto).
    now apply not_elem_of_empty in H.
  - assert ("Optional" ∈ ({[ "ChatMessage" ]} : gset string)) as H
      by (rewrite <- E; apply Hin; vm_compute; auto).
    apply elem_of_singleton in H. discriminate H.
Qed.

(** C3, amended: the names extracted from an annotation are the tokens of
    the annotation (blanks removed, quotes stripped) that are no builtin
    type names.  The name Optional is no builtin: from Optional[str] the
    set holding Optional is extracted, and from Optional[ChatMessage] the
    set holding Optional and ChatMessage. *)
Theorem collect_type_names (builtin_types : gset string) :
  "str" ∈ builtin_types ->
  "Optional" ∉ builtin_types ->
  "ChatMessage" ∉ builtin_types ->
  (forall annotation_str x,
     x ∈ _collect_type_names_from_annotation builtin_types annotation_str
     <-> exists t, In t (findall (Py.replace " " EmptyString annotation_str))
                   /\ x = Py.strip_chars Py.quotes t /\ x ∉ builtin_types)
  /\ _collect_type_names_from_annotation builtin_types "Optional[str]"
     = {[ "Optional" ]}
  /\ _collect_type_names_from_annotation builtin_types "Optional[ChatMessage]"
     = {[ "Optional"; "ChatMessage" ]}.
Proof.
  intros Hstr Hopt Hcm.
  split; [intros a x; apply elem_of_collect_type_names|].
  unfold _collect_type_names_from_annotation.
  split.
  - assert (map (Py.strip_chars Py.quotes)
              (findall (Py.replace " " EmptyString "Optional[str]"))
            = ["Optional"; "str"]) as -> by (vm_compute; reflexivity).
    cbn [List.filter].
    rewrite (bool_decide_eq_true_2 _ Hopt).
    rewrite (bool_decide_eq_false_2 ("str" ∉ builtin_types)) by (intros H; exact (H Hstr)).
    cbn [list_to_set foldr]. set_solver.
  - assert (map (Py.strip_chars Py.quotes)
              (findall (Py.replace " " EmptyString "Optional[ChatMessage]"))
            = ["Optional"; "ChatMessage"]) as -> by (vm_compute; reflexivity).
    cbn [List.filter].
    rewrite (bool_decide_eq_true_2 _ Hopt), (bool_decide_eq_true_2 _ Hcm).
    cbn [list_to_set foldr]. set_solver.
Qed.

Lemma collect_type_names_witness :
  _collect_type_names_from_annotation cpython_builtin_types "Optional[str]"
  = {[ "Optional" ]}
  /\ _collect_type_names_from_annotation cpython_builtin_types "Optional[ChatMessage]"
     = {[ "Optional"; "ChatMessage" ]}.
Proof.
  refine (proj2 (collect_type_names cpython_builtin_types _ _ _));
    decide_by_computation.
Defined.

(** *** Import insertion *)

Lemma insertion_index_loop_imports (k : nat) (pre rest : list stmt) :
  Forall (fun s => is_import_line s = true) pre ->
  insertion_index_loop (zip (seq k (length (pre ++ rest))) (pre ++ rest))
  = insertion_index_loop (zip (seq (k + length pre) (length rest)) rest).
Proof.
  revert k. induction pre as [|s pre IH]; intros k Hpre.
  - cbn. now rewrite Nat.add_0_r.
  - inversion Hpre as [|? ? Hs Hpre']; subst.
    cbn [app length seq zip zip_with insertion_index_loop].
    replace (k + S (length pre)) with (S k + length pre) by lia.
    destruct s as [[|[] ?]| | |]; try discriminate Hs; exact (IH (S k) Hpre').
Qed.

Lemma insertion_index_loop_stop (k : nat) (s : stmt) (post : list stmt) :
  is_import_line s = false -> s <> SimpleStatementLine [] ->
  insertion_index_loop (zip (seq k (length (s :: post))) (s :: post)) = Ok k.
Proof.
  intros Hs Hne. cbn [length seq zip zip_with insertion_index_loop].
  destruct s as [[|[] ?]| | |]; try reflexivity; try discriminate Hs.
  now contradict Hne.
Qed.

(** C4, as stated, fails: in a module made of imports only, the new
    statements are put in front of them, not behind. *)
Lemma add_imports_all_imports_prepends :
  AddImports_leave_Module {| imports_to_add := [new_import]; added := false |}
    {| body := [one_import] |}
  = Ok ({| body := [new_import; one_import] |},
        {| imports_to_add := [new_import]; added := true |})
  /\ AddImports_leave_Module {| imports_to_add := [new_import]; added := false |}
       {| body := [one_import] |}
     <> Ok (imports_appended [new_import] {| body := [one_import] |},
            {| imports_to_add := [new_import]; added := true |}).
Proof.
  split; [reflexivity|]. cbv. discriminate.
Qed.

(** C4, amended: on its first call, the transform puts the new statements
    right before the first top-level statement that is no import line;
    when every top-level statement is an import line, it puts them at the
    start of the module.  A later call changes nothing. *)
Theorem add_imports_position (imports pre post : list stmt) (s : stmt) :
  Forall (fun x => is_import_line x = true) pre ->
  is_import_line s = false ->
  s <> SimpleStatementLine [] ->
  AddImports_leave_Module {| imports_to_add := imports; added := false |}
    {| body := pre ++ s :: post |}
  = Ok ({| body := pre ++ imports ++ s :: post |},
        {| imports_to_add := imports; added := true |})
  /\ AddImports_leave_Module {| imports_to_add := imports; added := false |}
       {| body := pre |}
     = Ok ({| body := imports ++ pre |},
           {| imports_to_add := imports; added := true |})
  /\ (forall m, AddImports_leave_Module {| imports_to_add := imports; added := true |} m
                = Ok (m, {| imports_to_add := imports; added := true |})).
Proof.
  intros Hpre Hs Hne. unfold AddImports_leave_Module, enumerate. cbn [added negb body].
  split; [|split; [|reflexivity]].
  - rewrite (insertion_index_loop_imports 0 pre (s :: post) Hpre).
    rewrite (insertion_index_loop_stop _ s post Hs Hne).
    cbn [mbind result_bind mret result_ret imports_to_add plus].
    now rewrite take_app_length, drop_app_length.
  - pose proof (insertion_index_loop_imports 0 pre [] Hpre) as H.
    rewrite app_nil_r in H. rewrite H. reflexivity.
Qed.

Lemma add_imports_position_witness :
  AddImports_leave_Module {| imports_to_add := [new_import]; added := false |}
    {| body := [one_import; an_assignment; one_import] |}
  = Ok ({| body := [one_import; new_import; an_assignment; one_import] |},
        {| imports_to_add := [new_import]; added := true |}).
Proof.
  apply (add_imports_position [new_import] [one_import] [one_import] an_assignment).
  - repeat constructor.
  - reflexivity.
  - discriminate.
Defined.

(** *** The documentation entry of a parameter *)

(** C5 fails on the code: [rstrip] removes every closing bracket at the
    end of the annotation, whether or not an Optional wrapper was removed
    before, and the marker is set by a substring test.  A field of type
    List[str] is rendered without its closing bracket; so is the type
    inside Optional[List[str]]; and a type that only mentions Optional
    inside gets the marker. *)
Theorem param_doc_drops_closing_brackets :
  param_doc "    " "stop" {| type := "List[str]"; docstring := Py.Str "Stop." |}
  = "    stop (`List[str`, ):" +:+ Py.nl +:+ "        Stop."
  /\ unwrap_optional "List[str]" = "List[str]"
  /\ param_doc "    " "stop" {| type := "Optional[List[str]]"; docstring := Py.Str "Stop." |}
     = "    stop (`List[str`, *optional*):" +:+ Py.nl +:+ "        Stop."
  /\ unwrap_optional "Optional[List[str]]" = "List[str]"
  /\ param_doc "    " "m" {| type := "Dict[str, Optional[int]]"; docstring := Py.Str "Map." |}
     = "    m (`Dict[str, int`, *optional*):" +:+ Py.nl +:+ "        Map."
  /\ param_doc "    " "top_k" {| type := "Optional[int]"; docstring := Py.Str "K." |}
     = "    top_k (`int`, *optional*):" +:+ Py.nl +:+ "        K.".
Proof.
  repeat split; vm_compute; reflexivity.
Qed.

(** *** A target method without a docstring *)

(** The sum of two sequences of one kind holds the items of both. *)
Lemma add_same_kind {A} (a b : sequence A) :
  same_kind a b = true -> exists all, add a b = Ok all /\ items all = items a ++ items b.
Proof.
  destruct a, b; try discriminate; intros _; eexists; split; reflexivity.
Qed.

Lemma add_other_kind {A} (a b : sequence A) :
  same_kind a b = false -> add a b = Raise TypeError.
Proof. destruct a, b; try discriminate; reflexivity. Qed.

Lemma update_parameters_appends (missing_params : odict) (ps : Parameters) :
  _update_parameters missing_params ps
  = if same_kind (params ps) (kwonly_params ps)
    then Ok (with_kwonly_params
               (items (kwonly_params ps)
                ++ map new_param
                     (filter (fun kv => kv.1 ∉ declared_names ps) missing_params))
               ps)
    else Raise TypeError.
Proof.
  unfold _update_parameters.
  destruct (same_kind (params ps) (kwonly_params ps)) eqn:Ek.
  - destruct (add_same_kind _ _ Ek) as (all & -> & Hall).
    cbn [mbind result_bind mret result_ret]. rewrite Hall.
    unfold with_kwonly_params. do 3 f_equal.
    fold (declared_names ps).
    generalize (items (kwonly_params ps)) as acc.
    induction missing_params as [|[k v] l IH]; intros acc; cbn [foldl].
    + symmetry. apply app_nil_r.
    + rewrite IH. rewrite (list.filter_cons _ (k, v) l). cbn [fst].
      destruct (decide (k ∉ declared_names ps)); [|reflexivity].
      now rewrite <- app_assoc.
  - now rewrite (add_other_kind _ _ Ek).
Qed.

Lemma filter_all_fresh (missing_params : odict) (ps : Parameters) :
  Forall (fun kv => kv.1 ∉ declared_names ps) missing_params ->
  filter (fun kv => kv.1 ∉ declared_names ps) missing_params = missing_params.
Proof.
  induction 1 as [|kv l Hkv Hl IH]; [reflexivity|].
  rewrite (list.filter_cons_True _ kv l Hkv). f_equal. exact IH.
Qed.

Lemma update_docstring_no_docstring (evaluated_value : string -> Py.pyvalue)
    (missing_params : odict) (b : suite stmt) :
  body_as_parsed b = true -> begins_with_docstring b = false ->
  _update_docstring evaluated_value missing_params b = Ok b.
Proof.
  intros Hp Hd.
  destruct b as [[|[[|[| [] | | |] ?]| | |] ?]|[|? ?]];
    try reflexivity; try discriminate Hp; discriminate Hd.
Qed.

(** C10: when the body of a target method does not start with a string
    literal, [leave_FunctionDef] appends to the keyword-only parameters one
    parameter (annotated with the field's type, defaulting to None) for
    each entry of the missing parameters whose name the signature does not
    declare already, all of them when none is declared, and returns the
    body as it received it.  The parameters are read as the sum of the
    positional and the keyword-only ones, and the sum of a tuple and a
    list raises; on the updated node that a visit hands over, whose
    parameters are in tuples, nothing is raised. *)
Theorem add_parameters_without_docstring (evaluated_value : string -> Py.pyvalue)
    (method_name : string) (missing_params : odict) (original : stmt)
    (name : string) (ps : Parameters) (b : suite stmt) :
  (exists ps0 b0, original = FunctionDef method_name ps0 b0) ->
  body_as_parsed b = true ->
  begins_with_docstring b = false ->
  AddParameters_leave_FunctionDef evaluated_value method_name missing_params
    original (FunctionDef name ps b)
  = (if same_kind (params ps) (kwonly_params ps)
     then Ok (FunctionDef name
                (with_kwonly_params
                   (items (kwonly_params ps)
                    ++ map new_param
                         (filter (fun kv => kv.1 ∉ declared_names ps) missing_params))
                   ps)
                b)
     else Raise TypeError)
  /\ (Forall (fun kv => kv.1 ∉ declared_names ps) missing_params ->
      AddParameters_leave_FunctionDef evaluated_value method_name missing_params
        original (FunctionDef name ps b)
      = (if same_kind (params ps) (kwonly_params ps)
         then Ok (FunctionDef name
                    (with_kwonly_params
                       (items (kwonly_params ps) ++ map new_param missing_params) ps)
                    b)
         else Raise TypeError))
  /\ AddParameters_leave_FunctionDef evaluated_value method_name missing_params
       original (FunctionDef name (tuple_parameters ps) b)
     = Ok (FunctionDef name
             (with_kwonly_params
                (items (kwonly_params ps)
                 ++ map new_param
                      (filter (fun kv => kv.1 ∉ declared_names ps) missing_params))
                (tuple_parameters ps))
             b).
Proof.
  intros (ps0 & b0 & ->) Hp Hd.
  assert (forall ps,
            AddParameters_leave_FunctionDef evaluated_value method_name missing_params
              (FunctionDef method_name ps0 b0) (FunctionDef name ps b)
            = (new_params ← _update_parameters missing_params ps;
               Ok (FunctionDef name new_params b))) as E.
  { intros ps1. unfold AddParameters_leave_FunctionDef. rewrite String.eqb_refl.
    destruct (_update_parameters missing_params ps1); [|reflexivity].
    cbn [mbind result_bind]. now rewrite (update_docstring_no_docstring _ _ b Hp Hd). }
  rewrite !E, !update_parameters_appends.
  split; [|split].
  - now destruct (same_kind (params ps) (kwonly_params ps)).
  - intros Hfresh. rewrite (filter_all_fresh _ _ Hfresh).
    now destruct (same_kind (params ps) (kwonly_params ps)).
  - reflexivity.
Qed.

Lemma add_parameters_without_docstring_witness :
  AddParameters_leave_FunctionDef unquote "text"
    [ ("stop", {| type := "List[str]"; docstring := Py.Str EmptyString |}) ]
    (FunctionDef "text" text_signature text_body)
    (FunctionDef "text" text_signature text_body)
  = Ok (FunctionDef "text"
          (with_kwonly_params
             (items (kwonly_params text_signature)
              ++ map new_param
                   [ ("stop", {| type := "List[str]"; docstring := Py.Str EmptyString |}) ])
             text_signature)
          text_body).
Proof.
  refine (proj1 (proj2 (add_parameters_without_docstring unquote "text"
           [ ("stop", {| type := "List[str]"; docstring := Py.Str EmptyString |}) ]
           (FunctionDef "text" text_signature text_body)
           "text" text_signature text_body _ _ _)) _).
  - now exists text_signature, text_body.
  - reflexivity.
  - reflexivity.
  - repeat constructor. decide_by_computation.
Defined.

(** *** Missing parameters *)

Lemma set_items_app (l1 l2 d : odict) :
  set_items (l1 ++ l2) d = set_items l2 (set_items l1 d).
Proof. apply foldl_app. Qed.

(** A loop whose every round assigns some entries assigns all of them. *)
Lemma foldM_set_items {X} (f : X -> odict -> result odict) (g : X -> odict)
    (l : list X) :
  Forall (fun x => forall d, f x d = Ok (set_items (g x) d)) l ->
  forall d, foldM f l d = Ok (set_items (flat_map g l) d).
Proof.
  induction 1 as [|x l Hx Hl IH]; intros d; [reflexivity|].
  rewrite CstFacts.foldM_cons, Hx, IH. cbn [flat_map]. now rewrite set_items_app.
Qed.

Section Collector.
Variable evaluated_value : string -> Py.pyvalue.
Variable dataclass_name : string.

Local Abbreviation description := (TaskParams.description evaluated_value).
Local Abbreviation class_fields := (TaskParams.class_fields evaluated_value).

(** The loop over the small statements of the next line finds the first
    bare string literal. *)
Lemma first_string_literal_head (smalls : list small_stmt) :
  first_string_literal evaluated_value smalls
  = option.default (Py.Str EmptyString)
      (head (omap (literal_text evaluated_value) smalls)).
Proof.
  induction smalls as [|s smalls IH]; [reflexivity|].
  destruct s as [| [] | | |]; cbn [first_string_literal omap list_omap literal_text];
    solve [exact IH | reflexivity].
Qed.

(** The statement that [_extract_docstring] looks up by its index is the
    one right after the field. *)
Lemma extract_docstring_following (pre following : list stmt) (field : stmt) :
  _extract_docstring evaluated_value (pre ++ field :: following) (length pre)
  = description following.
Proof.
  unfold _extract_docstring, TaskParams.description.
  replace (length pre + 1) with (length (pre ++ [field]) + 0)
    by (rewrite length_app; cbn; lia).
  replace (pre ++ field :: following) with ((pre ++ [field]) ++ following)
    by (now rewrite <- app_assoc).
  rewrite lookup_app_r by lia.
  replace (length (pre ++ [field]) + 0 - length (pre ++ [field])) with 0 by lia.
  destruct following as [|[smalls| | |] following]; try reflexivity.
  cbn [lookup list_lookup]. apply first_string_literal_head.
Qed.

Lemma collect_line_fields (body_statements : list stmt) (index : nat)
    (smalls : list small_stmt) (d : odict) :
  collect_line evaluated_value body_statements index smalls d
  = set_items
      (omap (declared_field
               (_extract_docstring evaluated_value body_statements index)) smalls) d.
Proof.
  unfold collect_line. revert d.
  induction smalls as [|s smalls IH]; intros d; [reflexivity|].
  cbn [foldl]. rewrite IH.
  destruct s as [[]| | | |]; reflexivity.
Qed.

(** The loop over the numbered statements of a class body, from any
    statement on. *)
Lemma collect_statements (pre l : list stmt) (d : odict) :
  foldl (fun parameters '(index, field) =>
           match field with
           | SimpleStatementLine smalls =>
               collect_line evaluated_value (pre ++ l) index smalls parameters
           | _ => parameters
           end) d (zip (seq (length pre) (length l)) l)
  = set_items (class_fields l) d.
Proof.
  revert pre d. induction l as [|field following IH]; intros pre d; [reflexivity|].
  cbn [length seq zip zip_with foldl].
  specialize (IH (pre ++ [field])).
  rewrite length_app, <- app_assoc in IH. cbn [length app] in IH.
  replace (length pre + 1) with (S (length pre)) in IH by lia.
  rewrite IH.
  destruct field as [smalls| | |]; try reflexivity.
  rewrite collect_line_fields, extract_docstring_following.
  cbn [TaskParams.class_fields]. now rewrite set_items_app.
Qed.

Lemma visit_ClassDef_fields (name : string) (b : suite stmt) (d : odict) :
  DataclassFieldCollector_visit_ClassDef evaluated_value dataclass_name name b d
  = set_items (fields_of_class evaluated_value dataclass_name name b) d.
Proof.
  unfold DataclassFieldCollector_visit_ClassDef, fields_of_class.
  destruct (String.eqb name dataclass_name); [|reflexivity].
  destruct b as [l|]; [|reflexivity].
  exact (collect_statements [] l d).
Qed.

(** The collector has no hook for small statements. *)
Lemma collector_visit_smalls (smalls : list small_stmt) (d : odict) :
  foldM (visit_small (DataclassFieldCollector evaluated_value dataclass_name)) smalls d
  = Ok d.
Proof.
  apply CstFacts.foldM_id, Forall_true. intros [] ?; reflexivity.
Qed.

Lemma collector_visit_suite (b : suite stmt) :
  suite_Forall
    (fun s => forall d,
       visit_stmt (DataclassFieldCollector evaluated_value dataclass_name) s d
       = Ok (set_items (fields_below evaluated_value dataclass_name s) d)) b ->
  forall d,
    visit_suite (DataclassFieldCollector evaluated_value dataclass_name) b d
    = Ok (set_items (fields_in evaluated_value dataclass_name b) d).
Proof.
  destruct b as [l|smalls]; cbn [suite_Forall visit_suite fields_in].
  - intros H d. now apply foldM_set_items.
  - intros _ d. apply collector_visit_smalls.
Qed.

(** The collector raises nothing and assigns, in source order, the fields
    of the classes it matches. *)
Lemma collector_visit_stmt (s : stmt) :
  forall d,
    visit_stmt (DataclassFieldCollector evaluated_value dataclass_name) s d
    = Ok (set_items (fields_below evaluated_value dataclass_name s) d).
Proof.
  induction s as [smalls|name b IH|name ps b IH|kind blocks IH]
    using CstFacts.stmt_tree_ind; intros d.
  - apply collector_visit_smalls.
  - rewrite CstFacts.visit_stmt_ClassDef.
    cbn [visit_ClassDef DataclassFieldCollector].
    rewrite (collector_visit_suite b IH), visit_ClassDef_fields.
    f_equal. symmetry. apply set_items_app.
  - rewrite CstFacts.visit_stmt_FunctionDef.
    cbn [visit_FunctionDef DataclassFieldCollector].
    now rewrite (collector_visit_suite b IH).
  - rewrite CstFacts.visit_stmt_CompoundStatement.
    apply (foldM_set_items
             (visit_suite (DataclassFieldCollector evaluated_value dataclass_name))
             (fields_in evaluated_value dataclass_name)).
    eapply Forall_impl; [exact IH|]. intros b Hb. now apply collector_visit_suite.
Qed.

Lemma collector_visit (m : module) (d : odict) :
  visit (DataclassFieldCollector evaluated_value dataclass_name) m d
  = Ok (set_items (declaration_fields evaluated_value dataclass_name m) d).
Proof.
  unfold visit, declaration_fields.
  apply foldM_set_items, Forall_true. intros s d'. apply collector_visit_stmt.
Qed.

End Collector.

Lemma set_item_fresh (k : string) (v : param_info) (d : odict) :
  ~ In k (map fst d) -> set_item k v d = d ++ [(k, v)].
Proof.
  induction d as [|[k' v'] d IH]; intros Hk; [reflexivity|].
  cbn [set_item app]. cbn in Hk.
  destruct (String.eqb_spec k' k) as [->|Hne]; [now contradict Hk; left|].
  rewrite IH; [reflexivity|]. intros H. apply Hk. now right.
Qed.

(** Entries with fresh, distinct names go behind the dictionary as they
    are. *)
Lemma set_items_fresh (l d : odict) :
  List.NoDup (map fst (d ++ l)) -> set_items l d = d ++ l.
Proof.
  revert d. induction l as [|[k v] l IH]; intros d Hnd.
  - symmetry. apply app_nil_r.
  - cbn [set_items foldl fst snd]. fold (set_items l (set_item k v d)).
    assert (~ In k (map fst d)) as Hk.
    { rewrite map_app in Hnd. cbn in Hnd.
      apply List.NoDup_remove_2 in Hnd. intros H. apply Hnd.
      apply in_or_app. now left. }
    rewrite (set_item_fresh k v d Hk), IH.
    + now rewrite <- app_assoc.
    + now rewrite <- app_assoc.
Qed.

(** *** The existing arguments of a callable *)

Lemma foldl_union {X} (f : gset string -> X -> gset string) (g : X -> gset string)
    (l : list X) :
  Forall (fun x => forall acc, f acc x = acc ∪ g x) l ->
  forall acc, foldl f acc l = acc ∪ ⋃ (map g l).
Proof.
  induction 1 as [|x l Hx Hl IH]; intros acc; cbn [foldl map union_list foldr].
  - symmetry. apply (right_id_L ∅ (∪)).
  - rewrite IH, Hx. symmetry. apply (assoc_L (∪)).
Qed.

(** A loop in which each round either raises [TypeError], when [ok]
    fails, or adds names to a set. *)
Lemma foldM_union {X} (f : X -> gset string -> result (gset string))
    (g : X -> gset string) (ok : X -> bool) (l : list X) :
  Forall (fun x => forall acc,
            f x acc = if ok x then Ok (acc ∪ g x) else Raise TypeError) l ->
  forall acc,
    foldM f l acc = if forallb ok l then Ok (acc ∪ ⋃ (map g l)) else Raise TypeError.
Proof.
  intros H acc.
  rewrite (CstFacts.foldM_forallb f (fun acc x => acc ∪ g x) ok TypeError l H).
  destruct (forallb ok l); [|reflexivity].
  f_equal. apply foldl_union, Forall_true. reflexivity.
Qed.

Section Arguments.
Variable method_name : string.

Local Abbreviation readable := (every_below method_name uniform_signature).
Local Abbreviation readable_in := (every_in method_name uniform_signature).

Lemma arguments_visit_FunctionDef name ps b acc :
  ArgumentsCollector_visit_FunctionDef method_name name ps b acc
  = if negb (String.eqb name method_name) || uniform_signature ps b
    then Ok (acc ∪ signature_names method_name name ps)
    else Raise TypeError.
Proof.
  unfold ArgumentsCollector_visit_FunctionDef, signature_names, uniform_signature.
  destruct (String.eqb name method_name); cbn [negb orb].
  - destruct (same_kind (params ps) (kwonly_params ps)) eqn:Ek.
    + destruct (add_same_kind _ _ Ek) as (all & -> & Hall).
      cbn [mbind result_bind mret result_ret]. now rewrite Hall.
    + now rewrite (add_other_kind _ _ Ek).
  - cbn. f_equal. set_solver.
Qed.

(** The collector has no hook for small statements. *)
Lemma arguments_visit_smalls (smalls : list small_stmt) (acc : gset string) :
  foldM (visit_small (ArgumentsCollector method_name)) smalls acc = Ok acc.
Proof.
  apply CstFacts.foldM_id, Forall_true. intros [] ?; reflexivity.
Qed.

Lemma arguments_visit_suite (b : suite stmt) :
  suite_Forall
    (fun s => forall acc,
       visit_stmt (ArgumentsCollector method_name) s acc
       = if readable s then Ok (acc ∪ names_below method_name s) else Raise TypeError) b ->
  forall acc,
    visit_suite (ArgumentsCollector method_name) b acc
    = if readable_in b then Ok (acc ∪ names_in method_name b) else Raise TypeError.
Proof.
  destruct b as [l|smalls]; cbn [suite_Forall visit_suite names_in every_in].
  - intros H acc. now apply foldM_union.
  - intros _ acc. rewrite arguments_visit_smalls. f_equal. set_solver.
Qed.

(** The collector gathers the argument names of the functions it matches,
    and raises at the first of them whose parameters are a tuple and a
    list. *)
Lemma arguments_visit_stmt (s : stmt) :
  forall acc,
    visit_stmt (ArgumentsCollector method_name) s acc
    = if readable s then Ok (acc ∪ names_below method_name s) else Raise TypeError.
Proof.
  induction s as [smalls|name b IH|name ps b IH|kind blocks IH]
    using CstFacts.stmt_tree_ind; intros acc.
  - rewrite CstFacts.visit_stmt_SimpleStatementLine, arguments_visit_smalls.
    cbn. f_equal. set_solver.
  - rewrite CstFacts.visit_stmt_ClassDef. cbn [visit_ClassDef ArgumentsCollector].
    exact (arguments_visit_suite b IH acc).
  - rewrite CstFacts.visit_stmt_FunctionDef.
    cbn [visit_FunctionDef ArgumentsCollector].
    rewrite arguments_visit_FunctionDef.
    change (readable (FunctionDef name ps b))
      with ((negb (String.eqb name method_name) || uniform_signature ps b)
            && readable_in b).
    change (names_below method_name (FunctionDef name ps b))
      with (signature_names method_name name ps ∪ names_in method_name b).
    destruct (negb (String.eqb name method_name) || uniform_signature ps b);
      [|reflexivity].
    rewrite (arguments_visit_suite b IH). cbn [andb].
    destruct (readable_in b); [|reflexivity]. f_equal. set_solver.
  - rewrite CstFacts.visit_stmt_CompoundStatement.
    apply (foldM_union (visit_suite (ArgumentsCollector method_name))
             (names_in method_name) readable_in).
    eapply Forall_impl; [exact IH|]. intros b Hb. now apply arguments_visit_suite.
Qed.

Lemma arguments_visit (m : module) :
  visit (ArgumentsCollector method_name) m ∅
  = if uniform method_name m
    then Ok (existing_arguments method_name m)
    else Raise TypeError.
Proof.
  unfold visit, uniform, every, existing_arguments.
  rewrite (foldM_union (visit_stmt (ArgumentsCollector method_name))
             (names_below method_name) readable).
  - destruct (forallb _ _); [|reflexivity]. f_equal. set_solver.
  - apply Forall_true. intros s acc. apply arguments_visit_stmt.
Qed.

End Arguments.

(** A tree from the parser holds its parameters in tuples, which can be
    added. *)
Lemma every_impl (method_name : string) (p q : Parameters -> suite stmt -> bool)
    (m : module) :
  (forall ps b, p ps b = true -> q ps b = true) ->
  every method_name p m = true -> every method_name q m = true.
Proof.
  intros Hpq. unfold every. rewrite !forallb_forall.
  intros H s Hs. specialize (H s Hs). clear Hs. revert H.
  induction s as [smalls|name b IH|name ps b IH|kind blocks IH]
    using CstFacts.stmt_tree_ind.
  - reflexivity.
  - destruct b as [l|]; [|reflexivity]. cbn [every_below suite_Forall] in *.
    rewrite !forallb_forall. rewrite Forall_forall in IH.
    intros H x Hx. apply IH; [now apply list_elem_of_In|now apply H].
  - change (every_below method_name p (FunctionDef name ps b))
      with ((negb (String.eqb name method_name) || p ps b) && every_in method_name p b).
    change (every_below method_name q (FunctionDef name ps b))
      with ((negb (String.eqb name method_name) || q ps b) && every_in method_name q b).
    intros H. apply andb_true_iff in H as [H1 H2]. apply andb_true_iff. split.
    + apply orb_true_iff in H1 as [H1|H1]; apply orb_true_iff; [now left|right; auto].
    + destruct b as [l|]; [|reflexivity]. cbn [every_in suite_Forall] in *.
      rewrite forallb_forall in *. rewrite Forall_forall in IH.
      intros x Hx. apply IH; [now apply list_elem_of_In|now apply H2].
  - cbn [every_below]. rewrite !forallb_forall. rewrite Forall_forall in IH.
    intros H b Hb. specialize (H b Hb). specialize (IH b (proj2 (list_elem_of_In _ _) Hb)).
    destruct b as [l|]; [|reflexivity]. cbn [suite_Forall] in IH.
    rewrite forallb_forall in *. rewrite Forall_forall in IH.
    intros x Hx. apply IH; [now apply list_elem_of_In|now apply H].
Qed.

Lemma as_parsed_uniform (evaluated_value : string -> Py.pyvalue) (method_name : string)
    (m : module) :
  as_parsed evaluated_value method_name m = true -> uniform method_name m = true.
Proof.
  apply every_impl. intros ps b.
  unfold parsed_definition, uniform_signature.
  destruct (params ps), (kwonly_params ps); cbn; try discriminate; reflexivity.
Qed.



(** *** The rewrite resolves the missing parameters *)

Section Rewrite.
Variable evaluated_value : string -> Py.pyvalue.
Variable method_name : string.
Variable missing_params : odict.

Local Abbreviation wanted := (TaskParams.wanted missing_params).
Local Abbreviation resolved := (TaskParams.resolved missing_params).
Local Abbreviation rewrite := (AddParameters evaluated_value method_name missing_params).
Local Abbreviation parsed_below :=
  (every_below method_name (parsed_definition evaluated_value)).
Local Abbreviation parsed_in :=
  (every_in method_name (parsed_definition evaluated_value)).

Lemma resolved_list {X} (names : X -> gset string) (defined : X -> bool) (l l' : list X) :
  Forall2 (resolved names defined) l l' ->
  resolved (fun l => ⋃ (map names l)) (existsb defined) l l'.
Proof.
  induction 1 as [|x x' l l' [Hn Hd] _ [IHn IHd]]; [split; [done|discriminate]|].
  split; cbn [map union_list foldr existsb].
  - set_solver.
  - intros H. apply orb_true_iff in H as [H|H]; [specialize (Hd H)|specialize (IHd H)];
      set_solver.
Qed.

Lemma update_docstring_names (b b' : suite stmt) :
  _update_docstring evaluated_value missing_params b = Ok b' ->
  names_in method_name b' = names_in method_name b.
Proof.
  destruct b as [[|[[|[| [] | | |] ?]| | |] ?]|[|? ?]]; cbn;
    try destruct (evaluated_value _); intros [= <-]; reflexivity.
Qed.

Lemma elem_of_signature_names (name : string) (ps : Parameters) (x : string) :
  String.eqb name method_name = true ->
  x ∈ signature_names method_name name ps
  <-> x <> "self" /\ In x (map Cst.name (items (params ps) ++ items (kwonly_params ps))).
Proof.
  intros E. unfold signature_names. rewrite E.
  rewrite elem_of_list_to_set, list_elem_of_In, filter_In, negb_true_iff.
  rewrite String.eqb_neq. tauto.
Qed.

Lemma signature_names_update (name : string) (ps ps' : Parameters) :
  String.eqb name method_name = true ->
  _update_parameters missing_params ps = Ok ps' ->
  signature_names method_name name ps ⊆ signature_names method_name name ps'
  /\ wanted ⊆ signature_names method_name name ps'.
Proof.
  intros E. rewrite update_parameters_appends.
  destruct (same_kind (params ps) (kwonly_params ps)); [|discriminate].
  intros [= <-].
  split; intros x Hx; apply (elem_of_signature_names _ _ _ E);
    cbn [with_kwonly_params params kwonly_params items].
  - apply (elem_of_signature_names _ _ _ E) in Hx as [Hs Hx]. split; [exact Hs|].
    rewrite map_app in *. rewrite in_app_iff in *. rewrite map_app, in_app_iff. tauto.
  - unfold TaskParams.wanted in Hx. apply elem_of_difference in Hx as [Hx Hs].
    split; [set_solver|].
    apply elem_of_list_to_set, list_elem_of_In, in_map_iff in Hx as ([k v] & <- & Hkv).
    cbn [fst] in *.
    destruct (decide (k ∈ declared_names ps)) as [Hin|Hout].
    + unfold declared_names in Hin.
      apply elem_of_list_to_set, list_elem_of_In in Hin.
      rewrite map_app in *. rewrite in_app_iff in *. rewrite map_app, in_app_iff. tauto.
    + rewrite !map_app, !in_app_iff. right. right.
      apply in_map_iff. exists (new_param (k, v)). split; [reflexivity|].
      apply in_map, list_elem_of_In, list_elem_of_filter.
      split; [exact Hout|now apply list_elem_of_In].
Qed.

(** The tuples of an updated node hold the parameters of the node. *)
Lemma signature_names_tuple (callable name : string) (ps : Parameters) :
  signature_names callable name (tuple_parameters ps)
  = signature_names callable name ps.
Proof. reflexivity. Qed.

(** What [leave_FunctionDef] returns for a definition of the callable. *)
Lemma leave_FunctionDef_matched (name : string) (ps0 ps : Parameters)
    (b0 b : suite stmt) (s' : stmt) :
  String.eqb name method_name = true ->
  AddParameters_leave_FunctionDef evaluated_value method_name missing_params
    (FunctionDef name ps0 b0) (FunctionDef name ps b) = Ok s' ->
  exists ps' b',
    _update_parameters missing_params ps = Ok ps'
    /\ _update_docstring evaluated_value missing_params b = Ok b'
    /\ s' = FunctionDef name ps' b'.
Proof.
  intros E. unfold AddParameters_leave_FunctionDef. rewrite E.
  destruct (_update_parameters missing_params ps) as [ps'|]; [|discriminate].
  cbn [mbind result_bind].
  destruct (_update_docstring evaluated_value missing_params b) as [b'|]; [|discriminate].
  intros [= <-]. now exists ps', b'.
Qed.

Lemma leave_FunctionDef_other (name : string) (ps0 ps : Parameters)
    (b0 b : suite stmt) :
  String.eqb name method_name = false ->
  AddParameters_leave_FunctionDef evaluated_value method_name missing_params
    (FunctionDef name ps0 b0) (FunctionDef name ps b) = Ok (FunctionDef name ps b).
Proof.
  intros E. unfold AddParameters_leave_FunctionDef. now rewrite E.
Qed.

Lemma resolved_suite (b b' : suite stmt) :
  suite_Forall
    (fun s => forall s',
       transform_stmt rewrite s = Ok s' ->
       resolved (names_below method_name) (defined_below method_name) s s') b ->
  transform_suite rewrite b = Ok b' ->
  resolved (names_in method_name) (defined_in method_name) b b'.
Proof.
  destruct b as [l|smalls]; cbn [suite_Forall transform_suite].
  - intros IH H.
    destruct (mapM _ l) as [l'|] eqn:El; [|discriminate]. injection H as <-.
    apply CstFacts.mapM_Ok in El.
    apply (resolved_list (names_below method_name) (defined_below method_name)).
    now apply (CstFacts.Forall_Forall2 _ _ _ _ IH).
  - intros _ [= <-]. split; [done|discriminate].
Qed.

(** The rewrite of a statement resolves it. *)
Lemma resolved_stmt (s : stmt) :
  forall s',
    transform_stmt rewrite s = Ok s' ->
    resolved (names_below method_name) (defined_below method_name) s s'.
Proof.
  induction s as [smalls|name b IH|name ps b IH|kind blocks IH]
    using CstFacts.stmt_tree_ind; intros s' H.
  - injection H as <-. split; [done|discriminate].
  - rewrite CstFacts.transform_stmt_ClassDef in H.
    destruct (transform_suite _ b) as [b'|] eqn:Eb; [|discriminate].
    injection H as <-. exact (resolved_suite b b' IH Eb).
  - rewrite CstFacts.transform_stmt_FunctionDef in H.
    destruct (transform_suite _ b) as [b'|] eqn:Eb; [|discriminate].
    destruct (resolved_suite b b' IH Eb) as [Hn Hd].
    cbn [leave_FunctionDef AddParameters] in H.
    unfold TaskParams.resolved.
    change (names_below method_name (FunctionDef name ps b))
      with (signature_names method_name name ps ∪ names_in method_name b).
    change (defined_below method_name (FunctionDef name ps b))
      with (String.eqb name method_name || defined_in method_name b).
    destruct (String.eqb name method_name) eqn:E.
    + apply (leave_FunctionDef_matched _ _ _ _ _ _ E) in H as (ps' & b'' & Hp & Hu & ->).
      change (names_below method_name (FunctionDef name ps' b''))
        with (signature_names method_name name ps' ∪ names_in method_name b'').
      rewrite (update_docstring_names _ _ Hu).
      destruct (signature_names_update name (tuple_parameters ps) ps' E Hp) as [Hs Hw].
      rewrite signature_names_tuple in Hs.
      split; [set_solver|]. intros _. set_solver.
    + rewrite (leave_FunctionDef_other _ _ _ _ _ E) in H. injection H as <-.
      change (names_below method_name (FunctionDef name (tuple_parameters ps) b'))
        with (signature_names method_name name ps ∪ names_in method_name b').
      split; [set_solver|]. cbn [orb]. intros Hdef. specialize (Hd Hdef). set_solver.
  - rewrite CstFacts.transform_stmt_CompoundStatement in H.
    destruct (mapM _ blocks) as [blocks'|] eqn:El; [|discriminate]. injection H as <-.
    apply CstFacts.mapM_Ok in El.
    apply (resolved_list (names_in method_name) (defined_in method_name)).
    refine (CstFacts.Forall_Forall2 _ _ _ _ _ El).
    eapply Forall_impl; [exact IH|]. intros b Hb b' Hb'. exact (resolved_suite b b' Hb Hb').
Qed.

(** The rewrite keeps a line as it is and turns no other statement into a
    line. *)
Lemma transform_stmt_kind (s s' : stmt) :
  transform_stmt rewrite s = Ok s' ->
  match s with
  | SimpleStatementLine _ => s' = s
  | _ => forall smalls, s' <> SimpleStatementLine smalls
  end.
Proof.
  destruct s as [smalls|name b|name ps b|kind blocks]; intros H.
  - now injection H as <-.
  - rewrite CstFacts.transform_stmt_ClassDef in H.
    destruct (transform_suite _ b); [|discriminate]. now injection H as <-.
  - rewrite CstFacts.transform_stmt_FunctionDef in H.
    destruct (transform_suite _ b) as [b'|]; [|discriminate].
    cbn [leave_FunctionDef AddParameters] in H.
    destruct (String.eqb name method_name) eqn:E.
    + now apply (leave_FunctionDef_matched _ _ _ _ _ _ E) in H as (ps' & b'' & _ & _ & ->).
    + rewrite (leave_FunctionDef_other _ _ _ _ _ E) in H. now injection H as <-.
  - rewrite CstFacts.transform_stmt_CompoundStatement in H.
    destruct (mapM _ blocks); [|discriminate]. now injection H as <-.
Qed.

(** The rewrite of the statements of a body keeps what the parser
    guarantees of it, and its docstring. *)
Lemma body_transform (b b' : suite stmt) :
  transform_suite rewrite b = Ok b' ->
  (body_as_parsed b = true -> body_as_parsed b' = true)
  /\ docstring_is_text evaluated_value b' = docstring_is_text evaluated_value b
  /\ begins_with_docstring b' = begins_with_docstring b.
Proof.
  destruct b as [l|smalls]; cbn [transform_suite]; [|now intros [= <-]].
  destruct (mapM _ l) as [l'|] eqn:El; [|discriminate]. intros [= <-].
  apply CstFacts.mapM_Ok in El.
  destruct El as [|x x' l l' Hx _]; [now split|].
  apply transform_stmt_kind in Hx.
  destruct x as [smalls| | |]; [now subst x'|..];
    (destruct x' as [smalls'| | |]; [now destruct (Hx smalls')|now split..]).
Qed.

Lemma update_docstring_total (b : suite stmt) :
  body_as_parsed b = true -> docstring_is_text evaluated_value b = true ->
  exists b', _update_docstring evaluated_value missing_params b = Ok b'.
Proof.
  destruct b as [[|[[|[| [] | | |] ?]| | |] ?]|[|? ?]]; cbn;
    intros Hp Ht; try discriminate Hp; eauto.
  destruct (evaluated_value _); [eauto|discriminate Ht].
Qed.

Lemma transform_suite_total (b : suite stmt) :
  suite_Forall
    (fun s => parsed_below s = true -> exists s', transform_stmt rewrite s = Ok s') b ->
  parsed_in b = true ->
  exists b', transform_suite rewrite b = Ok b'.
Proof.
  destruct b as [l|smalls]; cbn [suite_Forall every_in transform_suite]; [|eauto].
  intros IH Hp.
  destruct (CstFacts.mapM_total (transform_stmt rewrite) l) as [l' Hl'].
  - rewrite forallb_forall in Hp. rewrite Forall_forall in IH |- *.
    intros x Hx. apply (IH x Hx), Hp. now apply list_elem_of_In.
  - rewrite Hl'. eauto.
Qed.

(** On a tree as the parser leaves it, the rewrite raises nothing. *)
Lemma transform_stmt_total (s : stmt) :
  parsed_below s = true -> exists s', transform_stmt rewrite s = Ok s'.
Proof.
  induction s as [smalls|name b IH|name ps b IH|kind blocks IH]
    using CstFacts.stmt_tree_ind; intros Hp.
  - now eexists.
  - rewrite CstFacts.transform_stmt_ClassDef.
    destruct (transform_suite_total b IH Hp) as [b' ->]. eauto.
  - rewrite CstFacts.transform_stmt_FunctionDef.
    change (parsed_below (FunctionDef name ps b))
      with ((negb (String.eqb name method_name) || parsed_definition evaluated_value ps b)
            && parsed_in b) in Hp.
    apply andb_true_iff in Hp as [Hb Hin].
    destruct (transform_suite_total b IH Hin) as [b' Eb]. rewrite Eb.
    cbn [leave_FunctionDef AddParameters].
    destruct (String.eqb name method_name) eqn:E;
      [|rewrite (leave_FunctionDef_other _ _ _ _ _ E); now eexists].
    cbn [negb orb] in Hb. unfold parsed_definition in Hb.
    apply andb_true_iff in Hb as [Hb Ht]. apply andb_true_iff in Hb as [Hb Hbp].
    apply andb_true_iff in Hb as [Hp1 Hp2].
    destruct (body_transform b b' Eb) as (Hbp' & Ht' & _).
    rewrite <- Ht' in Ht.
    destruct (update_docstring_total b' (Hbp' Hbp) Ht) as [b'' Hu].
    unfold AddParameters_leave_FunctionDef. rewrite E, update_parameters_appends.
    cbn [tuple_parameters params kwonly_params same_kind mbind result_bind].
    rewrite Hu. now eexists.
  - rewrite CstFacts.transform_stmt_CompoundStatement.
    change (parsed_below (CompoundStatement kind blocks))
      with (forallb parsed_in blocks) in Hp.
    destruct (CstFacts.mapM_total (transform_suite rewrite) blocks) as [blocks' ->];
      [|eauto].
    rewrite forallb_forall in Hp. rewrite Forall_forall in IH |- *.
    intros b Hb. apply transform_suite_total; [now apply IH|].
    apply Hp. now apply list_elem_of_In.
Qed.

(** The rewrite of a module: it succeeds, keeps the argument names, and
    where the callable is defined brings every wanted name. *)
Lemma transform_module (m : module) :
  as_parsed evaluated_value method_name m = true ->
  exists m',
    transform rewrite m = Ok m'
    /\ resolved (fun l => ⋃ (map (names_below method_name) l))
         (existsb (defined_below method_name)) (body m) (body m').
Proof.
  intros Hp. unfold transform, as_parsed, every in *.
  destruct (CstFacts.mapM_total (transform_stmt rewrite) (body m)) as [l' Hl'].
  - rewrite forallb_forall in Hp. apply Forall_forall. intros s Hs.
    apply transform_stmt_total, Hp. now apply list_elem_of_In.
  - rewrite Hl'. eexists. split; [reflexivity|]. cbn [body].
    apply resolved_list. apply CstFacts.mapM_Ok in Hl'.
    refine (CstFacts.Forall_Forall2 _ _ _ _ _ Hl').
    apply Forall_true. intros s s'. apply resolved_stmt.
Qed.

Local Abbreviation readable := (every_below method_name uniform_signature).
Local Abbreviation readable_in := (every_in method_name uniform_signature).

Lemma unreadable_list {X} (ok defined : X -> bool) (l l' : list X) :
  Forall2 (fun x x' => ok x' = negb (defined x)) l l' ->
  forallb ok l' = negb (existsb defined l).
Proof.
  induction 1 as [|x x' l l' Hx _ IH]; [reflexivity|].
  cbn [forallb existsb]. rewrite Hx, IH. now destruct (defined x), (existsb defined l).
Qed.

Lemma unreadable_suite (b b' : suite stmt) :
  suite_Forall
    (fun s => forall s',
       parsed_below s = true -> transform_stmt rewrite s = Ok s' ->
       readable s' = negb (defined_below method_name s)) b ->
  parsed_in b = true ->
  transform_suite rewrite b = Ok b' ->
  readable_in b' = negb (defined_in method_name b).
Proof.
  destruct b as [l|smalls]; cbn [suite_Forall transform_suite every_in].
  - intros IH Hp H.
    destruct (mapM _ l) as [l'|] eqn:El; [|discriminate]. injection H as <-.
    apply CstFacts.mapM_Ok in El. cbn [every_in defined_in].
    apply unreadable_list.
    rewrite forallb_forall in Hp. rewrite Forall_forall in IH.
    clear -IH Hp El. induction El as [|x x' l l' Hx _ IHl]; [constructor|].
    constructor.
    + apply IH; [now left| |exact Hx]. apply Hp. now left.
    + apply IHl; intros y Hy; [apply IH|apply Hp]; now right.
  - intros _ _ [= <-]. reflexivity.
Qed.

(** After the rewrite of a tree from the parser, the parameters of every
    definition of the callable are a tuple and a list: the signatures of
    the callable can be read exactly when there is none. *)
Lemma unreadable_stmt (s : stmt) :
  forall s',
    parsed_below s = true -> transform_stmt rewrite s = Ok s' ->
    readable s' = negb (defined_below method_name s).
Proof.
  induction s as [smalls|name b IH|name ps b IH|kind blocks IH]
    using CstFacts.stmt_tree_ind; intros s' Hp H.
  - now injection H as <-.
  - rewrite CstFacts.transform_stmt_ClassDef in H.
    destruct (transform_suite _ b) as [b'|] eqn:Eb; [|discriminate].
    injection H as <-. exact (unreadable_suite b b' IH Hp Eb).
  - rewrite CstFacts.transform_stmt_FunctionDef in H.
    destruct (transform_suite _ b) as [b'|] eqn:Eb; [|discriminate].
    change (parsed_below (FunctionDef name ps b))
      with ((negb (String.eqb name method_name) || parsed_definition evaluated_value ps b)
            && parsed_in b) in Hp.
    apply andb_true_iff in Hp as [Hb Hin].
    pose proof (unreadable_suite b b' IH Hin Eb) as Hr.
    cbn [leave_FunctionDef AddParameters] in H.
    change (defined_below method_name (FunctionDef name ps b))
      with (String.eqb name method_name || defined_in method_name b).
    destruct (String.eqb name method_name) eqn:E.
    + apply (leave_FunctionDef_matched _ _ _ _ _ _ E) in H as (ps' & b'' & Hps & _ & ->).
      change (readable (FunctionDef name ps' b''))
        with ((negb (String.eqb name method_name) || uniform_signature ps' b'')
              && readable_in b'').
      rewrite E. cbn [negb orb].
      rewrite update_parameters_appends in Hps.
      cbn [tuple_parameters params kwonly_params same_kind] in Hps.
      injection Hps as <-. reflexivity.
    + rewrite (leave_FunctionDef_other _ _ _ _ _ E) in H. injection H as <-.
      change (readable (FunctionDef name (tuple_parameters ps) b'))
        with ((negb (String.eqb name method_name)
               || uniform_signature (tuple_parameters ps) b')
              && readable_in b').
      rewrite E. exact Hr.
  - rewrite CstFacts.transform_stmt_CompoundStatement in H.
    destruct (mapM _ blocks) as [blocks'|] eqn:El; [|discriminate]. injection H as <-.
    apply CstFacts.mapM_Ok in El.
    change (parsed_below (CompoundStatement kind blocks))
      with (forallb parsed_in blocks) in Hp.
    cbn [every_below defined_below]. apply unreadable_list.
    rewrite forallb_forall in Hp. rewrite Forall_forall in IH.
    clear -IH Hp El. induction El as [|x x' l l' Hx _ IHl]; [constructor|].
    constructor.
    + apply unreadable_suite; [apply IH; now left|apply Hp; now left|exact Hx].
    + apply IHl; intros y Hy; [apply IH|apply Hp]; now right.
Qed.

Lemma unreadable_module (m m' : module) :
  as_parsed evaluated_value method_name m = true ->
  transform rewrite m = Ok m' ->
  uniform method_name m' = negb (defines method_name m).
Proof.
  unfold as_parsed, every, transform, uniform, defines. intros Hp H.
  destruct (mapM _ (body m)) as [l'|] eqn:El; [|discriminate]. injection H as <-.
  apply CstFacts.mapM_Ok in El. cbn [body]. apply unreadable_list.
  rewrite forallb_forall in Hp.
  clear -Hp El. induction El as [|x x' l l' Hx _ IHl]; [constructor|].
  constructor.
  - apply unreadable_stmt; [apply Hp; now left|exact Hx].
  - apply IHl. intros y Hy. apply Hp. now right.
Qed.

End Rewrite.

Lemma elem_of_map {A B} (f : A -> B) (l : list A) (y : B) :
  y ∈ map f l <-> exists x, y = f x /\ x ∈ l.
Proof.
  rewrite list_elem_of_In, in_map_iff. split; intros (x & H1 & H2); exists x.
  - split; [easy|now apply list_elem_of_In].
  - split; [easy|now apply list_elem_of_In].
Qed.

(** What [check_missing_parameters] computes, whatever the declaration:
    the dictionary of the fields without the existing arguments, when the
    signatures of the callable can be read. *)
Lemma check_missing_parameters_eq (evaluated_value : string -> Py.pyvalue)
    (inference_client_module parameters_module : module)
    (method_name parameter_type_name : string) :
  check_missing_parameters evaluated_value inference_client_module parameters_module
    method_name parameter_type_name
  = if uniform method_name inference_client_module
    then Ok (filter
               (fun kv => kv.1 ∉ existing_arguments method_name inference_client_module)
               (set_items
                  (declaration_fields evaluated_value parameter_type_name
                     parameters_module) []))
    else Raise TypeError.
Proof.
  unfold check_missing_parameters.
  rewrite collector_visit, arguments_visit. cbn [mbind result_bind].
  now destruct (uniform method_name inference_client_module).
Qed.

(** No signature contributes self. *)
Lemma self_not_below (method_name : string) (s : stmt) :
  "self" ∉ names_below method_name s.
Proof.
  induction s as [smalls|name b IH|name ps b IH|kind blocks IH]
    using CstFacts.stmt_tree_ind.
  - set_solver.
  - destruct b as [l|]; cbn [names_below]; [|set_solver].
    rewrite elem_of_union_list. intros (X & HX & Hs).
    apply elem_of_map in HX as (s & -> & Hin).
    cbn [suite_Forall] in IH. rewrite Forall_forall in IH. exact (IH s Hin Hs).
  - change (names_below method_name (FunctionDef name ps b))
      with (signature_names method_name name ps ∪ names_in method_name b).
    rewrite elem_of_union. intros [H|H].
    + unfold signature_names in H. destruct (String.eqb name method_name); [|set_solver].
      apply elem_of_list_to_set, list_elem_of_In, filter_In in H as [_ H].
      discriminate H.
    + destruct b as [l|]; cbn [names_in] in H; [|set_solver].
      apply elem_of_union_list in H as (X & HX & Hs).
      apply elem_of_map in HX as (s & -> & Hin).
      cbn [suite_Forall] in IH. rewrite Forall_forall in IH. exact (IH s Hin Hs).
  - cbn [names_below]. rewrite elem_of_union_list. intros (X & HX & Hs).
    apply elem_of_map in HX as (b & -> & Hin).
    rewrite Forall_forall in IH. specialize (IH b Hin).
    destruct b as [l|]; [|set_solver].
    apply elem_of_union_list in Hs as (X & HX & Hs).
    apply elem_of_map in HX as (s & -> & Hin').
    cbn [suite_Forall] in IH. rewrite Forall_forall in IH. exact (IH s Hin' Hs).
Qed.

Lemma self_not_existing (method_name : string) (m : module) :
  "self" ∉ existing_arguments method_name m.
Proof.
  unfold existing_arguments. rewrite elem_of_union_list. intros (X & HX & Hs).
  apply elem_of_map in HX as (s & -> & _). exact (self_not_below method_name s Hs).
Qed.

(** *** The tree with its parameters in tuples *)

Section Tuples.
Variable method_name : string.

Lemma with_tuples_stmt (s : stmt) :
  names_below method_name (with_tuples_below s) = names_below method_name s
  /\ every_below method_name uniform_signature (with_tuples_below s) = true.
Proof.
  induction s as [smalls|name b IH|name ps b IH|kind blocks IH]
    using CstFacts.stmt_tree_ind.
  - now split.
  - destruct b as [l|]; [|now split]. cbn [suite_Forall] in IH.
    cbn [with_tuples_below names_below every_below]. split.
    + f_equal. rewrite map_map. apply map_ext_Forall.
      eapply Forall_impl; [exact IH|]. now intros s [H _].
    + apply forallb_forall. intros s' Hs'. apply in_map_iff in Hs' as (s & <- & Hs).
      rewrite Forall_forall in IH. apply IH. now apply list_elem_of_In.
  - change (with_tuples_below (FunctionDef name ps b))
      with (FunctionDef name (tuple_parameters ps) (with_tuples_in b)).
    change (names_below method_name (FunctionDef name (tuple_parameters ps) (with_tuples_in b)))
      with (signature_names method_name name (tuple_parameters ps)
            ∪ names_in method_name (with_tuples_in b)).
    change (names_below method_name (FunctionDef name ps b))
      with (signature_names method_name name ps ∪ names_in method_name b).
    change (every_below method_name uniform_signature
              (FunctionDef name (tuple_parameters ps) (with_tuples_in b)))
      with ((negb (String.eqb name method_name)
             || uniform_signature (tuple_parameters ps) (with_tuples_in b))
            && every_in method_name uniform_signature (with_tuples_in b)).
    assert (names_in method_name (with_tuples_in b) = names_in method_name b
            /\ every_in method_name uniform_signature (with_tuples_in b) = true)
      as [-> ->].
    { destruct b as [l|]; [|now split]. cbn [suite_Forall] in IH.
      cbn [with_tuples_in names_in every_in]. split.
      - f_equal. rewrite map_map. apply map_ext_Forall.
        eapply Forall_impl; [exact IH|]. now intros s [H _].
      - apply forallb_forall. intros s' Hs'. apply in_map_iff in Hs' as (s & <- & Hs).
        rewrite Forall_forall in IH. apply IH. now apply list_elem_of_In. }
    split; [reflexivity|]. now rewrite orb_true_r.
  - cbn [with_tuples_below names_below every_below]. split.
    + f_equal. rewrite map_map. apply map_ext_Forall.
      eapply Forall_impl; [exact IH|]. intros [l|] Hb; [|reflexivity].
      cbn [suite_Forall] in Hb. cbn. f_equal. rewrite map_map. apply map_ext_Forall.
      eapply Forall_impl; [exact Hb|]. now intros s [H _].
    + apply forallb_forall. intros b' Hb'. apply in_map_iff in Hb' as (b & <- & Hb).
      rewrite Forall_forall in IH. specialize (IH b (proj2 (list_elem_of_In _ _) Hb)).
      destruct b as [l|]; [|reflexivity]. cbn [suite_Forall] in IH. cbn.
      apply forallb_forall. intros s' Hs'. apply in_map_iff in Hs' as (s & <- & Hs).
      rewrite Forall_forall in IH. apply IH. now apply list_elem_of_In.
Qed.

(** With its parameters in tuples, a tree declares the same arguments,
    and they can be read. *)
Lemma with_tuples_module (m : module) :
  existing_arguments method_name (with_tuples m) = existing_arguments method_name m
  /\ uniform method_name (with_tuples m) = true.
Proof.
  unfold existing_arguments, uniform, every, with_tuples. cbn [body]. split.
  - f_equal. rewrite map_map. apply map_ext. intros s. apply with_tuples_stmt.
  - apply forallb_forall. intros s' Hs'. apply in_map_iff in Hs' as (s & <- & _).
    apply with_tuples_stmt.
Qed.

End Tuples.

(** Two filters that agree on the elements of a list. *)
Lemma filter_twice_ext {A} (P Q R : A -> Prop) `{!forall x, Decision (P x)}
    `{!forall x, Decision (Q x)} `{!forall x, Decision (R x)} (l : list A) :
  (forall x, x ∈ l -> P x <-> Q x /\ R x) ->
  filter P l = filter Q (filter R l).
Proof.
  induction l as [|x l IH]; intros Hl; [reflexivity|].
  rewrite (list.filter_cons P x l), (list.filter_cons R x l).
  assert (filter P l = filter Q (filter R l)) as E
    by (apply IH; intros y Hy; apply Hl; now right).
  pose proof (Hl x (list_elem_of_here x l)) as Hx.
  destruct (decide (R x)) as [HR|HR].
  - rewrite (list.filter_cons Q x (filter R l)).
    destruct (decide (P x)) as [HP|HP], (decide (Q x)) as [HQ|HQ];
      solve [now f_equal | tauto].
  - destruct (decide (P x)) as [HP|HP]; [tauto|exact E].
Qed.

Lemma filter_none {A} (P : A -> Prop) `{forall x, Decision (P x)} (l : list A) :
  Forall (fun x => ~ P x) l -> filter P l = [].
Proof.
  induction 1 as [|x l Hx _ IH]; [reflexivity|].
  rewrite (list.filter_cons_False _ x l Hx). exact IH.
Qed.

Lemma keys_filter_in (P : string * param_info -> Prop) `{!forall x, Decision (P x)}
    (d : odict) (kv : string * param_info) :
  kv ∈ d -> P kv -> kv.1 ∈ (list_to_set (map fst (filter P d)) : gset string).
Proof.
  intros Hin HP. apply elem_of_list_to_set, elem_of_map. exists kv.
  split; [reflexivity|]. now apply list_elem_of_filter.
Qed.




(** *** The dictionary of fields, whatever the declaration *)

Lemma get_item_set_item (k k' : string) (v : param_info) (d : odict) :
  get_item k' (set_item k v d) = if String.eqb k k' then Some v else get_item k' d.
Proof.
  induction d as [|[k0 v0] d IH]; cbn [set_item get_item]; [reflexivity|].
  destruct (String.eqb_spec k0 k) as [->|Hne]; cbn [get_item].
  - destruct (String.eqb k k'); reflexivity.
  - rewrite IH. destruct (String.eqb_spec k0 k') as [->|]; [|reflexivity].
    destruct (String.eqb_spec k k') as [->|]; [contradiction|reflexivity].
Qed.

Lemma get_item_app (k : string) (d1 d2 : odict) :
  get_item k (d1 ++ d2)
  = match get_item k d1 with Some v => Some v | None => get_item k d2 end.
Proof.
  induction d1 as [|[k0 v0] d1 IH]; cbn [app get_item]; [reflexivity|].
  destruct (String.eqb k0 k); [reflexivity|exact IH].
Qed.

(** After a series of assignments, a key holds the value assigned last. *)
Lemma get_item_set_items (k : string) (l d : odict) :
  get_item k (set_items l d)
  = match get_item k (rev l) with Some v => Some v | None => get_item k d end.
Proof.
  revert d. induction l as [|[k0 v0] l IH]; intros d; [reflexivity|].
  cbn [set_items foldl fst snd rev]. fold (set_items l (set_item k0 v0 d)).
  rewrite IH, get_item_app, get_item_set_item.
  destruct (get_item k (rev l)); [reflexivity|]. cbn [get_item].
  destruct (String.eqb k0 k); reflexivity.
Qed.

Lemma keys_set_item (k : string) (v : param_info) (d : odict) :
  map fst (set_item k v d)
  = if decide (k ∈ map fst d) then map fst d else map fst d ++ [k].
Proof.
  induction d as [|[k0 v0] d IH]; cbn [set_item map fst].
  - rewrite decide_False by apply not_elem_of_nil. reflexivity.
  - destruct (String.eqb_spec k0 k) as [->|Hne].
    + rewrite decide_True by (now left). reflexivity.
    + cbn [map fst]. rewrite IH.
      destruct (decide (k ∈ map fst d)) as [Hin|Hout].
      * rewrite decide_True by (now right). reflexivity.
      * rewrite decide_False; [reflexivity|]. rewrite elem_of_cons. intros [->|]; tauto.
Qed.

Lemma keys_set_items (l d : odict) :
  NoDup (map fst d) ->
  NoDup (map fst (set_items l d))
  /\ forall k, k ∈ map fst (set_items l d) <-> k ∈ map fst d \/ k ∈ map fst l.
Proof.
  revert d. induction l as [|[k0 v0] l IH]; intros d Hd.
  - split; [exact Hd|]. intros k. cbn. rewrite elem_of_nil. tauto.
  - cbn [set_items foldl fst snd]. fold (set_items l (set_item k0 v0 d)).
    assert (NoDup (map fst (set_item k0 v0 d))
            /\ forall k, k ∈ map fst (set_item k0 v0 d) <-> k ∈ map fst d \/ k = k0)
      as [Hd' Hk'].
    { rewrite keys_set_item. destruct (decide (k0 ∈ map fst d)) as [Hin|Hout].
      - split; [exact Hd|]. intros k. split; [tauto|]. now intros [?| ->].
      - split.
        + apply NoDup_app. split; [exact Hd|]. split; [|apply NoDup_singleton].
          intros x Hx Hx'. apply list_elem_of_singleton in Hx'. now subst.
        + intros k. rewrite elem_of_app, list_elem_of_singleton. tauto. }
    destruct (IH _ Hd') as [Hnd Hk]. split; [exact Hnd|].
    intros k. rewrite Hk, Hk'. cbn [map fst]. rewrite elem_of_cons. tauto.
Qed.

Lemma get_item_filter (P : string -> Prop) `{forall k, Decision (P k)} (k : string)
    (d : odict) :
  get_item k (filter (fun kv => P kv.1) d) = if decide (P k) then get_item k d else None.
Proof.
  induction d as [|[k0 v0] d IH].
  - destruct (decide (P k)); reflexivity.
  - rewrite (list.filter_cons (fun kv => P kv.1) (k0, v0) d). cbn [fst get_item].
    destruct (decide (P k0)) as [H0|H0]; cbn [get_item].
    + destruct (String.eqb_spec k0 k) as [->|]; [now rewrite decide_True|exact IH].
    + destruct (String.eqb_spec k0 k) as [->|]; [|exact IH].
      etransitivity; [exact IH|]. now rewrite !decide_False.
Qed.

Lemma keys_filter (P : string -> Prop) `{forall k, Decision (P k)} (d : odict) :
  map fst (filter (fun kv => P kv.1) d) = filter P (map fst d).
Proof.
  induction d as [|[k0 v0] d IH]; [reflexivity|].
  rewrite (list.filter_cons (fun kv => P kv.1) (k0, v0) d). cbn [map fst].
  rewrite (list.filter_cons P k0 (map fst d)).
  destruct (decide (P k0)); cbn [map fst]; [f_equal; exact IH|exact IH].
Qed.

(** Whatever the declaration (repeated field names too), when the
    collector of the existing arguments returns, the names
    [check_missing_parameters] returns are distinct, they are the declared
    names that are no existing argument, and each comes with the type and
    description of the last field declared under that name; and when the
    collector raises, [check_missing_parameters] raises the same. *)
Theorem check_missing_parameters_keys (evaluated_value : string -> Py.pyvalue)
    (inference_client_module parameters_module : module)
    (method_name parameter_type_name : string) :
  let fields := declaration_fields evaluated_value parameter_type_name parameters_module in
  match visit (ArgumentsCollector method_name) inference_client_module ∅ with
  | Ok existing_args =>
      exists missing,
        check_missing_parameters evaluated_value inference_client_module
          parameters_module method_name parameter_type_name = Ok missing
        /\ NoDup (map fst missing)
        /\ (forall k, k ∈ map fst missing <-> k ∈ map fst fields /\ k ∉ existing_args)
        /\ (forall k, get_item k missing
                      = if decide (k ∉ existing_args)
                        then get_item k (rev fields) else None)
  | Raise e =>
      check_missing_parameters evaluated_value inference_client_module
        parameters_module method_name parameter_type_name = Raise e
  end.
Proof.
  cbn zeta. rewrite check_missing_parameters_eq, arguments_visit.
  destruct (uniform method_name inference_client_module); [|reflexivity].
  eexists. split; [reflexivity|].
  set (existing_args := existing_arguments method_name inference_client_module).
  set (fields := declaration_fields evaluated_value parameter_type_name parameters_module).
  destruct (keys_set_items fields [] (NoDup_nil_2)) as [Hnd Hk].
  assert (map fst (filter (fun kv => kv.1 ∉ existing_args) (set_items fields []))
          = filter (fun k => k ∉ existing_args) (map fst (set_items fields []))) as Ek
    by exact (keys_filter (fun k => k ∉ existing_args) _).
  assert (forall k,
            get_item k (filter (fun kv => kv.1 ∉ existing_args) (set_items fields []))
            = if decide (k ∉ existing_args) then get_item k (set_items fields []) else None)
    as Eg by (intros k; exact (get_item_filter (fun k => k ∉ existing_args) k _)).
  rewrite Ek.
  split; [now apply NoDup_filter|]. split.
  - intros k. rewrite list_elem_of_filter, Hk. cbn. rewrite elem_of_nil. tauto.
  - intros k. rewrite Eg, get_item_set_items.
    destruct (decide (k ∉ existing_args)); [|reflexivity].
    now destruct (get_item k (rev fields)).
Qed.

(** The existing arguments that the collector returns are the parameter
    and keyword-only parameter names of every function of that name in the
    module, and never hold self; the collector returns when the parameters
    of each of these functions can be added (two tuples, as from the
    parser, or two lists), and raises [TypeError] otherwise. *)
Theorem existing_args_never_self (method_name : string) (m : module) :
  visit (ArgumentsCollector method_name) m ∅
  = (if uniform method_name m
     then Ok (⋃ (map (names_below method_name) (body m)))
     else Raise TypeError)
  /\ (forall existing_args,
        visit (ArgumentsCollector method_name) m ∅ = Ok existing_args ->
        "self" ∉ existing_args).
Proof.
  split; [apply arguments_visit|]. rewrite arguments_visit.
  destruct (uniform method_name m); [|discriminate].
  intros existing_args [= <-]. apply self_not_existing.
Qed.

(** *** Absent declaration, absent callable *)

Lemma flat_map_nil {A B} (f : A -> list B) (l : list A) :
  Forall (fun x => f x = []) l -> flat_map f l = [].
Proof.
  induction 1 as [|x l Hx _ IH]; [reflexivity|]. cbn. now rewrite Hx, IH.
Qed.

Lemma existsb_false_Forall {A} (p : A -> bool) (l : list A) :
  existsb p l = false -> Forall (fun x => p x = false) l.
Proof.
  induction l as [|x l IH]; [constructor|]. cbn. intros H.
  apply orb_false_iff in H as [Hx Hl]. constructor; auto.
Qed.

Lemma Forall_modus {A} (P Q : A -> Prop) (l : list A) :
  Forall (fun x => P x -> Q x) l -> Forall P l -> Forall Q l.
Proof.
  induction 1 as [|x l Hx _ IH]; [constructor|].
  intros H. inversion H; subst. constructor; auto.
Qed.

Section NoDeclaration.
Variable evaluated_value : string -> Py.pyvalue.
Variable dataclass_name : string.

Lemma no_class_no_fields_suite (b : suite stmt) :
  suite_Forall
    (fun s => class_below dataclass_name s = false ->
       fields_below evaluated_value dataclass_name s = []) b ->
  class_in dataclass_name b = false ->
  fields_in evaluated_value dataclass_name b = [].
Proof.
  destruct b as [l|]; cbn [suite_Forall class_in fields_in]; [|reflexivity].
  intros IH H. apply flat_map_nil.
  exact (Forall_modus _ _ l IH (existsb_false_Forall _ l H)).
Qed.

Lemma no_class_no_fields (s : stmt) :
  class_below dataclass_name s = false ->
  fields_below evaluated_value dataclass_name s = [].
Proof.
  induction s as [smalls|name b IH|name ps b IH|kind blocks IH]
    using CstFacts.stmt_tree_ind; intros H.
  - reflexivity.
  - change (class_below dataclass_name (ClassDef name b))
      with (String.eqb name dataclass_name || class_in dataclass_name b) in H.
    apply orb_false_iff in H as [Hn Hb].
    change (fields_below evaluated_value dataclass_name (ClassDef name b))
      with (fields_of_class evaluated_value dataclass_name name b
            ++ fields_in evaluated_value dataclass_name b).
    rewrite (no_class_no_fields_suite b IH Hb). unfold fields_of_class. now rewrite Hn.
  - exact (no_class_no_fields_suite b IH H).
  - change (fields_below evaluated_value dataclass_name (CompoundStatement kind blocks))
      with (flat_map (fields_in evaluated_value dataclass_name) blocks).
    change (class_below dataclass_name (CompoundStatement kind blocks))
      with (existsb (class_in dataclass_name) blocks) in H.
    apply flat_map_nil.
    refine (Forall_modus _ _ blocks _ (existsb_false_Forall _ blocks H)).
    eapply Forall_impl; [exact IH|]. intros b Hb. now apply no_class_no_fields_suite.
Qed.

End NoDeclaration.

(** When the parameters module has no class of the given name, nothing is
    reported missing, whatever the client module, provided that the
    signatures of the callable can be read. *)
Theorem no_declaration_nothing_missing (evaluated_value : string -> Py.pyvalue)
    (inference_client_module parameters_module : module)
    (method_name parameter_type_name : string) :
  declares parameter_type_name parameters_module = false ->
  check_missing_parameters evaluated_value inference_client_module parameters_module
    method_name parameter_type_name
  = if uniform method_name inference_client_module then Ok [] else Raise TypeError.
Proof.
  intros H. rewrite check_missing_parameters_eq.
  unfold declaration_fields. rewrite flat_map_nil; [reflexivity|].
  eapply Forall_impl; [exact (existsb_false_Forall _ _ H)|].
  intros s Hs. now apply no_class_no_fields.
Qed.

Lemma no_declaration_nothing_missing_witness :
  check_missing_parameters unquote sample_client_module sample_parameters_module
    "text" "ImageParameters" = Ok [].
Proof.
  apply (no_declaration_nothing_missing unquote sample_client_module
           sample_parameters_module "text" "ImageParameters").
  reflexivity.
Defined.

Lemma mapM_map {A B} (f : A -> result B) (g : A -> B) (l : list A) :
  Forall (fun x => f x = Ok (g x)) l -> mapM f l = Ok (map g l).
Proof.
  induction 1 as [|x l Hx _ IH]; [reflexivity|].
  cbn. fold (mapM f l). now rewrite Hx, IH.
Qed.

Lemma map_id_on {A} (g : A -> A) (l : list A) :
  Forall (fun x => g x = x) l -> map g l = l.
Proof. induction 1 as [|x l Hx _ IH]; [reflexivity|]. cbn. now rewrite Hx, IH. Qed.

Lemma tuple_parameters_id (ps : Parameters) :
  is_tuple (params ps) = true -> is_tuple (kwonly_params ps) = true ->
  tuple_parameters ps = ps.
Proof.
  destruct ps as [[?|?] ? [?|?] ? ?]; cbn; intros H1 H2;
    try discriminate H1; try discriminate H2; reflexivity.
Qed.

Lemma with_tuples_in_id (b : suite stmt) :
  suite_Forall (fun s => tuples_below s = true -> with_tuples_below s = s) b ->
  tuples_in b = true -> with_tuples_in b = b.
Proof.
  destruct b as [l|]; cbn [suite_Forall tuples_in with_tuples_in]; [|reflexivity].
  intros IH H. f_equal. apply map_id_on.
  rewrite forallb_forall in H. rewrite Forall_forall in IH |- *.
  intros s Hs. apply (IH s Hs), H. now apply list_elem_of_In.
Qed.

(** A tree whose parameters are in tuples is what it is built anew to. *)
Lemma with_tuples_below_id (s : stmt) :
  tuples_below s = true -> with_tuples_below s = s.
Proof.
  induction s as [smalls|name b IH|name ps b IH|kind blocks IH]
    using CstFacts.stmt_tree_ind; intros H.
  - reflexivity.
  - change (with_tuples_below (ClassDef name b)) with (ClassDef name (with_tuples_in b)).
    change (tuples_below (ClassDef name b)) with (tuples_in b) in H.
    now rewrite (with_tuples_in_id b IH H).
  - change (with_tuples_below (FunctionDef name ps b))
      with (FunctionDef name (tuple_parameters ps) (with_tuples_in b)).
    change (tuples_below (FunctionDef name ps b))
      with (is_tuple (params ps) && is_tuple (kwonly_params ps) && tuples_in b) in H.
    apply andb_true_iff in H as [H Hb]. apply andb_true_iff in H as [H1 H2].
    now rewrite (with_tuples_in_id b IH Hb), (tuple_parameters_id ps H1 H2).
  - change (with_tuples_below (CompoundStatement kind blocks))
      with (CompoundStatement kind (map with_tuples_in blocks)).
    change (tuples_below (CompoundStatement kind blocks))
      with (forallb tuples_in blocks) in H.
    f_equal. apply map_id_on.
    rewrite forallb_forall in H. rewrite Forall_forall in IH |- *.
    intros b Hb. apply with_tuples_in_id; [now apply IH|].
    apply H. now apply list_elem_of_In.
Qed.

Lemma with_tuples_id (m : module) : in_tuples m = true -> with_tuples m = m.
Proof.
  unfold in_tuples, with_tuples. intros H. destruct m as [l]. cbn [body] in *.
  f_equal. apply map_id_on. rewrite forallb_forall in H. apply Forall_forall.
  intros s Hs. apply with_tuples_below_id, H. now apply list_elem_of_In.
Qed.

Lemma union_list_empty (Xs : list (gset string)) :
  Forall (fun X => X = ∅) Xs -> ⋃ Xs = ∅.
Proof.
  induction 1 as [|X Xs -> _ IH]; [reflexivity|]. cbn. rewrite IH. set_solver.
Qed.

Section NoCallable.
Variable evaluated_value : string -> Py.pyvalue.
Variable method_name : string.
Variable missing_params : odict.
Variable p : Parameters -> suite stmt -> bool.

Local Abbreviation rewrite := (AddParameters evaluated_value method_name missing_params).

(** What holds of a statement below which the callable is not defined: it
    has no argument name to give, whatever is asked of the definitions of
    the callable holds, and the rewrite only builds it anew. *)
Local Abbreviation untouched :=
  (fun s => names_below method_name s = ∅
            /\ every_below method_name p s = true
            /\ transform_stmt rewrite s = Ok (with_tuples_below s)).

Lemma undefined_suite (b : suite stmt) :
  suite_Forall (fun s => defined_below method_name s = false -> untouched s) b ->
  defined_in method_name b = false ->
  names_in method_name b = ∅
  /\ every_in method_name p b = true
  /\ transform_suite rewrite b = Ok (with_tuples_in b).
Proof.
  destruct b as [l|];
    cbn [suite_Forall defined_in names_in every_in transform_suite with_tuples_in];
    [|now split].
  intros IH H.
  pose proof (Forall_modus _ _ l IH (existsb_false_Forall _ l H)) as Hl.
  rewrite Forall_forall in Hl.
  split; [|split].
  - apply union_list_empty, Forall_forall. intros X HX.
    apply elem_of_map in HX as (s & -> & Hs). exact (proj1 (Hl s Hs)).
  - apply forallb_forall. intros s Hs.
    exact (proj1 (proj2 (Hl s (proj2 (list_elem_of_In _ _) Hs)))).
  - rewrite (mapM_map _ with_tuples_below); [reflexivity|].
    apply Forall_forall. intros s Hs. exact (proj2 (proj2 (Hl s Hs))).
Qed.

Lemma undefined_stmt (s : stmt) :
  defined_below method_name s = false -> untouched s.
Proof.
  induction s as [smalls|name b IH|name ps b IH|kind blocks IH]
    using CstFacts.stmt_tree_ind; intros H.
  - now split.
  - destruct (undefined_suite b IH H) as (Hn & He & Ht).
    split; [exact Hn|]. split; [exact He|].
    rewrite CstFacts.transform_stmt_ClassDef. now rewrite Ht.
  - change (defined_below method_name (FunctionDef name ps b))
      with (String.eqb name method_name || defined_in method_name b) in H.
    apply orb_false_iff in H as [Hname Hb].
    destruct (undefined_suite b IH Hb) as (Hn & He & Ht). split; [|split].
    + change (names_below method_name (FunctionDef name ps b))
        with (signature_names method_name name ps ∪ names_in method_name b).
      unfold signature_names. rewrite Hname, Hn. set_solver.
    + change (every_below method_name p (FunctionDef name ps b))
        with ((negb (String.eqb name method_name) || p ps b) && every_in method_name p b).
      now rewrite Hname, He.
    + rewrite CstFacts.transform_stmt_FunctionDef, Ht.
      cbn [leave_FunctionDef AddParameters AddParameters_leave_FunctionDef].
      now rewrite Hname.
  - change (defined_below method_name (CompoundStatement kind blocks))
      with (existsb (defined_in method_name) blocks) in H.
    assert (Forall (fun b => names_in method_name b = ∅
                             /\ every_in method_name p b = true
                             /\ transform_suite rewrite b = Ok (with_tuples_in b))
              blocks) as Hl.
    { refine (Forall_modus _ _ blocks _ (existsb_false_Forall _ blocks H)).
      eapply Forall_impl; [exact IH|]. intros b Hb. now apply undefined_suite. }
    rewrite Forall_forall in Hl.
    split; [|split].
    + change (names_below method_name (CompoundStatement kind blocks))
        with (⋃ (map (names_in method_name) blocks)).
      apply union_list_empty, Forall_forall. intros X HX.
      apply elem_of_map in HX as (b & -> & Hb). exact (proj1 (Hl b Hb)).
    + change (every_below method_name p (CompoundStatement kind blocks))
        with (forallb (every_in method_name p) blocks).
      apply forallb_forall. intros b Hb.
      exact (proj1 (proj2 (Hl b (proj2 (list_elem_of_In _ _) Hb)))).
    + rewrite CstFacts.transform_stmt_CompoundStatement,
        (mapM_map _ with_tuples_in); [reflexivity|].
      apply Forall_forall. intros b Hb. exact (proj2 (proj2 (Hl b Hb))).
Qed.

Lemma undefined_module (m : module) :
  defines method_name m = false ->
  existing_arguments method_name m = ∅
  /\ every method_name p m = true
  /\ transform rewrite m = Ok (with_tuples m).
Proof.
  intros H. pose proof (existsb_false_Forall _ _ H) as Hl.
  rewrite Forall_forall in Hl.
  split; [|split].
  - apply union_list_empty, Forall_forall. intros X HX.
    apply elem_of_map in HX as (s & -> & Hs). exact (proj1 (undefined_stmt s (Hl s Hs))).
  - apply forallb_forall. intros s Hs.
    exact (proj1 (proj2 (undefined_stmt s (Hl s (proj2 (list_elem_of_In _ _) Hs))))).
  - unfold transform. rewrite (mapM_map _ with_tuples_below); [reflexivity|].
    apply Forall_forall. intros s Hs. exact (proj2 (proj2 (undefined_stmt s (Hl s Hs)))).
Qed.

End NoCallable.

(** When no function of the client module has the name of the callable,
    every field of the declaration is reported missing, and the rewrite,
    whatever parameters it is given, returns the module built anew, its
    parameters in tuples: a module from the parser as it is. *)
Theorem undefined_callable (evaluated_value : string -> Py.pyvalue)
    (inference_client_module parameters_module : module)
    (method_name parameter_type_name : string) (missing_params : odict) :
  defines method_name inference_client_module = false ->
  check_missing_parameters evaluated_value inference_client_module parameters_module
    method_name parameter_type_name
  = visit (DataclassFieldCollector evaluated_value parameter_type_name)
      parameters_module []
  /\ transform (AddParameters evaluated_value method_name missing_params)
       inference_client_module
     = Ok (with_tuples inference_client_module)
  /\ (in_tuples inference_client_module = true ->
      transform (AddParameters evaluated_value method_name missing_params)
        inference_client_module
      = Ok inference_client_module).
Proof.
  intros H.
  destruct (undefined_module evaluated_value method_name missing_params
              uniform_signature inference_client_module H) as (Hn & Hu & Ht).
  split; [|split; [exact Ht|intros Hi; now rewrite Ht, (with_tuples_id _ Hi)]].
  rewrite check_missing_parameters_eq, collector_visit.
  fold (uniform method_name inference_client_module) in Hu. rewrite Hu, Hn. f_equal.
  generalize (set_items
                (declaration_fields evaluated_value parameter_type_name parameters_module)
                []).
  intros d. induction d as [|kv d IH]; [reflexivity|].
  rewrite (list.filter_cons_True _ kv d) by apply not_elem_of_empty.
  f_equal. exact IH.
Qed.

Lemma undefined_callable_witness :
  check_missing_parameters unquote sample_client_module sample_parameters_module
    "image" "TextParameters"
  = visit (DataclassFieldCollector unquote "TextParameters") sample_parameters_module []
  /\ transform
       (AddParameters unquote "image"
          [ ("stop", {| type := "List[str]"; docstring := Py.Str EmptyString |}) ])
       sample_client_module
     = Ok sample_client_module.
Proof.
  destruct (undefined_callable unquote sample_client_module sample_parameters_module
              "image" "TextParameters"
              [ ("stop", {| type := "List[str]"; docstring := Py.Str EmptyString |}) ])
    as (Hc & _ & Ht); [reflexivity|].
  split; [exact Hc|]. apply Ht. reflexivity.
Defined.

(** *** The signature after the rewrite *)

Lemma elem_of_declared_names (ps : Parameters) (k : string) :
  k ∈ declared_names ps <-> k ∈ signature_list ps.
Proof. unfold declared_names, signature_list. apply elem_of_list_to_set. Qed.

Lemma signature_list_appended (missing_params : odict) (ps : Parameters) :
  signature_list
    (with_kwonly_params
       (items (kwonly_params ps)
        ++ map new_param (filter (fun kv => kv.1 ∉ declared_names ps) missing_params))
       ps)
  = signature_list ps ++ filter (fun k => k ∉ declared_names ps) (map fst missing_params).
Proof.
  unfold signature_list, with_kwonly_params.
  cbn [params kwonly_params items]. rewrite app_assoc, map_app. f_equal.
  rewrite map_map.
  induction missing_params as [|[k v] l IH]; [reflexivity|].
  rewrite (list.filter_cons (fun kv => kv.1 ∉ declared_names ps) (k, v) l).
  cbn [map fst].
  rewrite (list.filter_cons (fun k => k ∉ declared_names ps) k (map fst l)).
  cbn [fst]. destruct (decide (k ∉ declared_names ps)); cbn [map];
    [f_equal; exact IH|exact IH].
Qed.



(** The missing parameters are all declared in the signature that
    [_update_parameters] returns. *)
Lemma filter_declared_after (missing_params : odict) (ps : Parameters) :
  let ps' :=
    with_kwonly_params
      (items (kwonly_params ps)
       ++ map new_param (filter (fun kv => kv.1 ∉ declared_names ps) missing_params))
      ps in
  filter (fun kv => kv.1 ∉ declared_names (tuple_parameters ps')) missing_params = [].
Proof.
  cbn zeta. apply filter_none, Forall_forall. intros [k v] Hkv Hout. apply Hout.
  cbn [fst]. apply elem_of_declared_names.
  change (signature_list (tuple_parameters ?x)) with (signature_list x).
  rewrite signature_list_appended, elem_of_app.
  destruct (decide (k ∈ declared_names ps)) as [Hin|Hnew].
  - left. now apply elem_of_declared_names.
  - right. apply list_elem_of_filter. split; [exact Hnew|].
    apply elem_of_map. now exists (k, v).
Qed.

(** The signature that [_update_parameters] returns for a signature from
    the parser cannot be read a second time: its keyword-only parameters
    are a list next to the tuple of the positional ones, so that
    [_update_parameters] and the collector of the existing arguments both
    raise [TypeError] on it.  On that signature built anew by a visit, its
    parameters in tuples again, as [leave_FunctionDef] receives it in a
    second rewrite, [_update_parameters] with the same missing parameters
    adds nothing. *)
Theorem update_parameters_twice_raises (missing_params again : odict)
    (ps ps' : Parameters) (name : string) (b : suite stmt) (existing_args : gset string) :
  is_tuple (params ps) = true ->
  _update_parameters missing_params ps = Ok ps' ->
  _update_parameters again ps' = Raise TypeError
  /\ ArgumentsCollector_visit_FunctionDef name name ps' b existing_args = Raise TypeError
  /\ _update_parameters missing_params (tuple_parameters ps') = Ok ps'.
Proof.
  intros Ht. rewrite update_parameters_appends.
  destruct (same_kind (params ps) (kwonly_params ps)); [|discriminate].
  intros E.
  assert (same_kind (params ps') (kwonly_params ps') = false) as Ek.
  { injection E as <-. cbn [with_kwonly_params params kwonly_params].
    destruct (params ps); [reflexivity|discriminate Ht]. }
  split; [|split].
  - now rewrite update_parameters_appends, Ek.
  - rewrite arguments_visit_FunctionDef, String.eqb_refl.
    unfold uniform_signature. now rewrite Ek.
  - injection E as <-. rewrite update_parameters_appends.
    cbn [tuple_parameters params kwonly_params same_kind].
    rewrite (filter_declared_after missing_params ps).
    cbn [map with_kwonly_params items params kwonly_params star_arg star_kwarg
           posonly_params].
    rewrite app_nil_r. destruct ps as [[p|p] ? ? ? ?]; [reflexivity|discriminate Ht].
Qed.

Lemma update_parameters_twice_raises_witness :
  _update_parameters [] rewritten_signature_sample = Raise TypeError
  /\ ArgumentsCollector_visit_FunctionDef "text" "text" rewritten_signature_sample
       text_body ∅
     = Raise TypeError
  /\ _update_parameters
       [ ("stop", {| type := "List[str]"; docstring := Py.Str EmptyString |}) ]
       (tuple_parameters rewritten_signature_sample)
     = Ok rewritten_signature_sample.
Proof.
  apply (update_parameters_twice_raises
           [ ("stop", {| type := "List[str]"; docstring := Py.Str EmptyString |}) ] []
           text_signature rewritten_signature_sample "text" text_body ∅).
  - reflexivity.
  - vm_compute. reflexivity.
Defined.

(** *** The docstring after the rewrite *)

Lemma split_not_nil (sep : ascii) (s : string) : Py.split sep s <> [].
Proof.
  destruct s as [|c s]; cbn; [discriminate|].
  destruct (Ascii.eqb c sep); [discriminate|]. now destruct (Py.split sep s).
Qed.

Lemma concat_cons_char (sep : string) (c : ascii) (l : string) (ls : list string) :
  String.concat sep (String c l :: ls) = String c (String.concat sep (l :: ls)).
Proof. destruct ls; reflexivity. Qed.

(** Joining the lines of a text with newlines gives the text back. *)
Lemma join_split (s : string) : Py.join Py.nl (Py.split Py.LF s) = s.
Proof.
  unfold Py.join. induction s as [|c s IH]; [reflexivity|].
  cbn [Py.split]. destruct (Ascii.eqb_spec c Py.LF) as [->|Hne].
  - pose proof (split_not_nil Py.LF s) as Hn.
    destruct (Py.split Py.LF s) as [|l ls]; [contradiction|].
    change (String.concat Py.nl (EmptyString :: l :: ls))
      with (EmptyString +:+ Py.nl +:+ String.concat Py.nl (l :: ls)).
    rewrite IH. reflexivity.
  - pose proof (split_not_nil Py.LF s) as Hn.
    destruct (Py.split Py.LF s) as [|l ls]; [contradiction|].
    rewrite concat_cons_char, IH. reflexivity.
Qed.

Lemma find_index_from_bound {A} (p : nat -> A -> bool) (l : list A) (i j : nat) :
  find_index_from p i l = Some j -> i <= j < i + length l.
Proof.
  revert i. induction l as [|x l IH]; intros i; cbn; [discriminate|].
  destruct (p i x); [intros [= <-]; lia|]. intros H. apply IH in H. lia.
Qed.

(** A docstring that has an Args: line comes back as it is when there is
    nothing to add. *)
Theorem docstring_unchanged_without_missing (docstring : string) (i : nat) :
  args_line_index docstring = Some i ->
  _update_docstring_content [] docstring = docstring.
Proof.
  unfold args_line_index, _update_docstring_content. intros ->.
  cbn [map app]. rewrite take_drop. apply join_split.
Qed.

Lemma docstring_unchanged_without_missing_witness :
  _update_docstring_content []
    ("Summary." +:+ Py.nl +:+ "  ARGS: " +:+ Py.nl +:+ "    a: one." +:+ Py.nl
     +:+ Py.nl +:+ "  Returns:" +:+ Py.nl +:+ "    x")
  = "Summary." +:+ Py.nl +:+ "  ARGS: " +:+ Py.nl +:+ "    a: one." +:+ Py.nl
    +:+ Py.nl +:+ "  Returns:" +:+ Py.nl +:+ "    x".
Proof.
  apply (docstring_unchanged_without_missing _ 1). vm_compute. reflexivity.
Defined.

(** A docstring without an Args: line gets one right before its first
    section header (Returns:, Raises:, Examples:, Example:), or behind its
    last line when it has none; the entries of the missing parameters
    follow that line, in their order, indented by four blanks; and the
    lines there were stay as they are, in their order. *)
Theorem docstring_without_args_line (missing_params : odict) (docstring : string) :
  args_line_index docstring = None ->
  let lines := Py.split Py.LF docstring in
  let i := first_section_index docstring in
  _update_docstring_content missing_params docstring
  = Py.join Py.nl
      (take i lines
       ++ "Args:" :: map (fun kv => param_doc "    " kv.1 kv.2) missing_params
       ++ drop i lines).
Proof.
  unfold args_line_index, first_section_index, _update_docstring_content. intros ->.
  cbn zeta.
  set (lines := Py.split Py.LF docstring).
  set (i := option.default (length lines)
              (find_index (fun _ line => is_section_header line) lines)).
  assert (i <= length lines) as Hi.
  { unfold i, find_index.
    destruct (find_index_from _ 0 lines) as [j|] eqn:E; cbn; [|lia].
    apply find_index_from_bound in E. lia. }
  assert (length (take i lines) = i) as Hlen by (rewrite length_take; lia).
  assert ((take i lines ++ "Args:" :: drop i lines) !! i = Some "Args:") as ->.
  { rewrite lookup_app_r by lia. now rewrite Hlen, Nat.sub_diag. }
  cbn [option.default].
  assert (take (i + 1) (take i lines ++ "Args:" :: drop i lines)
          = take i lines ++ ["Args:"]) as ->.
  { rewrite take_app_ge by lia. rewrite Hlen.
    replace (i + 1 - i) with 1 by lia. reflexivity. }
  assert (drop (i + 1) (take i lines ++ "Args:" :: drop i lines) = drop i lines) as ->.
  { rewrite drop_app_ge by lia. rewrite Hlen.
    replace (i + 1 - i) with 1 by lia. reflexivity. }
  rewrite <- app_assoc. cbn [app]. do 3 f_equal.
  f_equal. apply map_ext. intros [k v]. reflexivity.
Qed.

Lemma docstring_without_args_line_witness :
  _update_docstring_content
    [ ("top_k", {| type := "Optional[int]"; docstring := Py.Str "How many." |}) ]
    ("Summary." +:+ Py.nl +:+ Py.nl +:+ "Returns:" +:+ Py.nl +:+ "    x")
  = "Summary." +:+ Py.nl +:+ Py.nl +:+ "Args:" +:+ Py.nl
    +:+ "    top_k (`int`, *optional*):" +:+ Py.nl +:+ "        How many." +:+ Py.nl
    +:+ "Returns:" +:+ Py.nl +:+ "    x".
Proof.
  refine (eq_trans
            (docstring_without_args_line
               [ ("top_k", {| type := "Optional[int]"; docstring := Py.Str "How many." |}) ]
               ("Summary." +:+ Py.nl +:+ Py.nl +:+ "Returns:" +:+ Py.nl +:+ "    x") _) _);
    vm_compute; reflexivity.
Defined.

(** *** Import insertion on a parsed module *)

Lemma insertion_index_loop_total (l : list stmt) :
  Forall (fun s => s <> SimpleStatementLine []) l ->
  forall k, exists j,
    insertion_index_loop (zip (seq k (length l)) l) = Ok j /\ j <= k + length l.
Proof.
  induction 1 as [|s l Hs _ IH]; intros k.
  - exists 0. split; [reflexivity|lia].
  - cbn [length seq zip zip_with insertion_index_loop].
    destruct s as [[|[] ?]| | |]; try (exists k; split; [reflexivity|lia]).
    + now contradict Hs.
    + destruct (IH (S k)) as (j & -> & Hj). exists j. split; [reflexivity|lia].
    + destruct (IH (S k)) as (j & -> & Hj). exists j. split; [reflexivity|lia].
Qed.

(** On a module whose lines all hold a small statement, as the parser
    leaves them, the insertion raises nothing and loses no statement: the
    new body is the old one with the new statements put in at one place. *)
Theorem add_imports_keeps_statements (imports : list stmt) (m : module) :
  Forall (fun s => s <> SimpleStatementLine []) (body m) ->
  exists i,
    i <= length (body m)
    /\ AddImports_leave_Module {| imports_to_add := imports; added := false |} m
       = Ok ({| body := take i (body m) ++ imports ++ drop i (body m) |},
             {| imports_to_add := imports; added := true |}).
Proof.
  intros H. destruct (insertion_index_loop_total (body m) H 0) as (i & Hi & Hle).
  exists i. split; [lia|].
  unfold AddImports_leave_Module, enumerate. cbn [added negb]. now rewrite Hi.
Qed.

Lemma add_imports_keeps_statements_witness :
  exists i,
    i <= 2
    /\ AddImports_leave_Module {| imports_to_add := [new_import]; added := false |}
         sample_client_module
       = Ok ({| body := take i (body sample_client_module) ++ [new_import]
                        ++ drop i (body sample_client_module) |},
             {| imports_to_add := [new_import]; added := true |}).
Proof.
  apply (add_imports_keeps_statements [new_import] sample_client_module).
  repeat constructor; discriminate.
Defined.

(** *** Needed imports *)

Lemma listed_setdefault_append (module : module_value) (type_name : string) (d : idict)
    (m : module_value) (n : string) :
  listed (setdefault_append module type_name d) m n
  <-> listed d m n \/ (m = module /\ n = type_name).
Proof.
  unfold listed. induction d as [|[m0 names0] d IH]; cbn [setdefault_append].
  - split.
    + intros (names & Hin & Hn). apply list_elem_of_singleton in Hin as [= -> ->].
      apply list_elem_of_singleton in Hn. now right.
    + intros [(names & Hin & _)|[-> ->]]; [now apply elem_of_nil in Hin|].
      exists [type_name]. split; apply list_elem_of_singleton; reflexivity.
  - destruct (decide (m0 = module)) as [->|Hne].
    + split.
      * intros (names & Hin & Hn). apply elem_of_cons in Hin as [[= -> ->]|Hin].
        -- apply elem_of_app in Hn as [Hn|Hn].
           ++ left. exists names0. split; [now left|exact Hn].
           ++ apply list_elem_of_singleton in Hn. now right.
        -- left. exists names. split; [now right|exact Hn].
      * intros [(names & Hin & Hn)|[-> ->]].
        -- apply elem_of_cons in Hin as [[= -> ->]|Hin].
           ++ exists (names0 ++ [type_name]). split; [now left|].
              apply elem_of_app. now left.
           ++ exists names. split; [now right|exact Hn].
        -- exists (names0 ++ [type_name]). split; [now left|].
           apply elem_of_app. right. now apply list_elem_of_singleton.
    + split.
      * intros (names & Hin & Hn). apply elem_of_cons in Hin as [[= -> ->]|Hin].
        -- left. exists names0. split; [now left|exact Hn].
        -- destruct (proj1 IH) as [(names' & Hin' & Hn')|Hnew]; [now exists names| |].
           ++ left. exists names'. split; [now right|exact Hn'].
           ++ now right.
      * intros [(names & Hin & Hn)|Hnew].
        -- apply elem_of_cons in Hin as [[= -> ->]|Hin].
           ++ exists names0. split; [now left|exact Hn].
           ++ destruct (proj2 IH) as (names' & Hin' & Hn');
                [left; now exists names|].
              exists names'. split; [now right|exact Hn'].
        -- destruct (proj2 IH (or_intror Hnew)) as (names' & Hin' & Hn').
           exists names'. split; [now right|exact Hn'].
Qed.

Lemma tidy_setdefault_append (module : module_value) (type_name : string) (d : idict) :
  tidy d -> ~ listed d module type_name -> tidy (setdefault_append module type_name d).
Proof.
  unfold tidy. induction d as [|[m0 names0] d IH]; cbn [setdefault_append];
    intros [Hk Hv] Hnew.
  - split; [apply NoDup_singleton|].
    repeat constructor; [discriminate|apply not_elem_of_nil].
  - cbn [map fst] in Hk. apply NoDup_cons in Hk as [Hm0 Hk].
    apply Forall_cons in Hv as [[Hne Hnd] Hv]. cbn [snd] in *.
    destruct (decide (m0 = module)) as [->|Hdiff].
    + split; [cbn [map fst]; now apply NoDup_cons|].
      apply Forall_cons. split; [|exact Hv]. cbn [snd]. split.
      * now destruct names0.
      * apply NoDup_app. split; [exact Hnd|]. split; [|apply NoDup_singleton].
        intros x Hx Hx'. apply list_elem_of_singleton in Hx'. subst x.
        apply Hnew. exists names0. split; [now left|exact Hx].
    + destruct IH as [Hk' Hv'].
      * now split.
      * intros (names & Hin & Hn). apply Hnew. exists names. split; [now right|exact Hn].
      * split.
        -- cbn [map fst]. apply NoDup_cons. split; [|exact Hk'].
           intros Hin. apply elem_of_map in Hin as ([m names] & Heq & Hin).
           cbn [fst] in Heq. subst m.
           assert (listed (setdefault_append module type_name d) m0
                     (match names with n :: _ => n | [] => type_name end)) as Hl.
           { rewrite Forall_forall in Hv'. destruct (Hv' _ Hin) as [Hne' _].
             cbn [snd] in Hne'. destruct names as [|n names]; [contradiction|].
             exists (n :: names). split; [exact Hin|now left]. }
           apply listed_setdefault_append in Hl as [(names' & Hin' & _)|[Heq _]];
             [|contradiction].
           apply Hm0, elem_of_map. now exists (m0, names').
        -- apply Forall_cons. split; [now split|exact Hv'].
Qed.

Section NeededImports.
Variable type_to_module : gmap string module_value.
Variable object_mapping : gmap string (gset string).

Lemma needed_imports_loop (order : list string) (d : idict) (seen : list string) :
  NoDup (seen ++ order) ->
  tidy d ->
  (forall m n, listed d m n
               <-> n ∈ seen /\ m = origin type_to_module n
                   /\ already_imported object_mapping m n = false) ->
  let d' := foldl (needed_imports_step type_to_module object_mapping) d order in
  tidy d'
  /\ (forall m n, listed d' m n
                  <-> n ∈ seen ++ order /\ m = origin type_to_module n
                      /\ already_imported object_mapping m n = false).
Proof.
  revert d seen. induction order as [|x order IH]; intros d seen Hnd Ht Hl; cbn zeta.
  - rewrite app_nil_r. now split.
  - cbn [foldl].
    replace (seen ++ x :: order) with ((seen ++ [x]) ++ order) in *
      by (now rewrite <- app_assoc).
    assert (x ∉ seen) as Hx.
    { apply NoDup_app in Hnd as [Hnd _]. apply NoDup_app in Hnd as (_ & Hd & _).
      intros Hin. apply (Hd x Hin). now apply list_elem_of_singleton. }
    apply IH; [exact Hnd| |]; unfold needed_imports_step;
      destruct (already_imported object_mapping (origin type_to_module x) x) eqn:Ea.
    + exact Ht.
    + apply tidy_setdefault_append; [exact Ht|]. intros Hlx. apply Hl in Hlx. tauto.
    + intros m n. rewrite Hl, elem_of_app, list_elem_of_singleton. split; [tauto|].
      intros ([Hn| ->] & -> & Hf); [tauto|]. congruence.
    + intros m n. rewrite listed_setdefault_append, Hl, elem_of_app,
        list_elem_of_singleton. split.
      * intros [H|[-> ->]]; tauto.
      * intros ([Hn| ->] & -> & Hf); [left|right]; tauto.
Qed.

End NeededImports.

Lemma needed_imports_from_empty (type_to_module : gmap string module_value)
    (object_mapping : gmap string (gset string)) (order : list string) :
  NoDup order ->
  let d := foldl (needed_imports_step type_to_module object_mapping) [] order in
  tidy d
  /\ (forall m n, listed d m n
                  <-> n ∈ order /\ m = origin type_to_module n
                      /\ already_imported object_mapping m n = false).
Proof.
  intros Hnd.
  apply (needed_imports_loop type_to_module object_mapping order [] []).
  - exact Hnd.
  - split; [apply NoDup_nil_2|constructor].
  - intros m n. split.
    + intros (names & H & _). now apply elem_of_nil in H.
    + intros [H _]. now apply elem_of_nil in H.
Qed.

(** *** The map of type names to modules *)

Lemma assign_app (l1 l2 : list (string * module_value)) (d : gmap string module_value) :
  assign (l1 ++ l2) d = assign l2 (assign l1 d).
Proof. apply foldl_app. Qed.

(** A loop in which each round either raises [TypeError], when [ok]
    fails, or fills the map with some entries. *)
Lemma foldM_assign {X} (f : X -> gmap string module_value -> result (gmap string module_value))
    (g : X -> list (string * module_value)) (ok : X -> bool) (l : list X) :
  Forall (fun x => forall d, f x d = if ok x then Ok (assign (g x) d) else Raise TypeError) l ->
  forall d,
    foldM f l d = if forallb ok l then Ok (assign (flat_map g l) d) else Raise TypeError.
Proof.
  induction 1 as [|x l Hx _ IH]; intros d; [reflexivity|].
  rewrite CstFacts.foldM_cons, Hx. cbn [forallb flat_map].
  destruct (ok x); [|reflexivity]. rewrite IH, assign_app. reflexivity.
Qed.

Lemma modules_collector_small (s : small_stmt) (d : gmap string module_value) :
  visit_small ModulesCollector s d
  = if no_star_small s then Ok (assign (assignments_small s) d) else Raise TypeError.
Proof.
  destruct s as [| | |[m|] [|names]|]; try reflexivity.
  cbn. f_equal. unfold assign. generalize d.
  induction names as [|n names IH]; intros d'; [reflexivity|]. cbn. apply IH.
Qed.

Lemma modules_collector_smalls (smalls : list small_stmt) (d : gmap string module_value) :
  foldM (visit_small ModulesCollector) smalls d
  = if forallb no_star_small smalls
    then Ok (assign (flat_map assignments_small smalls) d)
    else Raise TypeError.
Proof.
  apply foldM_assign, Forall_true. intros s d'. apply modules_collector_small.
Qed.

Lemma modules_collector_suite (b : suite stmt) :
  suite_Forall
    (fun s => forall d,
       visit_stmt ModulesCollector s d
       = if no_star_below s then Ok (assign (assignments_below s) d) else Raise TypeError)
    b ->
  forall d,
    visit_suite ModulesCollector b d
    = if no_star_in b then Ok (assign (assignments_in b) d) else Raise TypeError.
Proof.
  destruct b as [l|smalls]; cbn [suite_Forall visit_suite no_star_in assignments_in].
  - intros H d. now apply foldM_assign.
  - intros _ d. apply modules_collector_smalls.
Qed.

(** [ModulesCollector] maps, in the order of the traversal, each class to
    [DEFAULT_MODULE] and each name imported from a module to that module;
    it raises at the first star import from a named module. *)
Lemma modules_collector_stmt (s : stmt) :
  forall d,
    visit_stmt ModulesCollector s d
    = if no_star_below s then Ok (assign (assignments_below s) d) else Raise TypeError.
Proof.
  induction s as [smalls|name b IH|name ps b IH|kind blocks IH]
    using CstFacts.stmt_tree_ind; intros d.
  - rewrite CstFacts.visit_stmt_SimpleStatementLine. apply modules_collector_smalls.
  - rewrite CstFacts.visit_stmt_ClassDef. cbn [visit_ClassDef ModulesCollector].
    rewrite (modules_collector_suite b IH).
    change (no_star_below (ClassDef name b)) with (no_star_in b).
    change (assignments_below (ClassDef name b))
      with ((name, ModuleStr DEFAULT_MODULE) :: assignments_in b).
    reflexivity.
  - rewrite CstFacts.visit_stmt_FunctionDef. cbn [visit_FunctionDef ModulesCollector].
    exact (modules_collector_suite b IH d).
  - rewrite CstFacts.visit_stmt_CompoundStatement.
    apply (foldM_assign (visit_suite ModulesCollector) assignments_in no_star_in).
    eapply Forall_impl; [exact IH|]. intros b Hb. now apply modules_collector_suite.
Qed.

Lemma modules_collector_visit (m : module) :
  visit ModulesCollector m ∅
  = if no_star m then Ok (type_origins m) else Raise TypeError.
Proof.
  unfold visit, no_star, type_origins.
  apply foldM_assign, Forall_true. intros s d. apply modules_collector_stmt.
Qed.

(** The imports [get_imports_to_add] asks for, whatever the order in which
    the set of type names is iterated: a type name is listed under a module
    exactly when it is a type name of a missing parameter, the module is
    its origin in the parameters module (what the traversal assigns last
    to the name: [DEFAULT_MODULE] at a class of that name and the module
    at an import of the name; [DEFAULT_MODULE] too for a name the module
    does not mention), and the client module does not import it from
    there yet; each module is listed once, with at least one name and no
    name twice.  The function raises [TypeError] when the parameters
    module has a star import from a named module. *)
Theorem get_imports_to_add_spec (builtin_types : gset string)
    (gather_imports : module -> gmap string (gset string))
    (iteration : gset string -> list string) (parameters : odict)
    (parameters_module inference_client_module : module) :
  (forall X, NoDup (iteration X) /\ forall x, x ∈ iteration X <-> x ∈ X) ->
  exists needed,
    get_imports_to_add builtin_types gather_imports iteration parameters
      parameters_module inference_client_module
    = (if no_star parameters_module then Ok needed else Raise TypeError)
    /\ (forall m n,
          listed needed m n
          <-> n ∈ types_to_import builtin_types parameters
              /\ m = origin (type_origins parameters_module) n
              /\ already_imported (gather_imports inference_client_module) m n = false)
    /\ NoDup (map fst needed)
    /\ Forall (fun kv => kv.2 <> [] /\ NoDup kv.2) needed.
Proof.
  intros Hit. unfold get_imports_to_add. rewrite modules_collector_visit.
  destruct (Hit (types_to_import builtin_types parameters)) as [Hnd Hin].
  destruct (needed_imports_from_empty (type_origins parameters_module)
              (gather_imports inference_client_module)
              (iteration (types_to_import builtin_types parameters)) Hnd)
    as [[Hk Hv] Hl].
  eexists. split; [|split; [|split; [exact Hk|exact Hv]]].
  - destruct (no_star parameters_module); reflexivity.
  - intros m n. rewrite Hl. now rewrite Hin.
Qed.

Lemma get_imports_to_add_spec_witness :
  exists needed,
    get_imports_to_add cpython_builtin_types
      (fun _ => {[ "typing" := {[ "Optional" ]} ]}) elements
      [ ("stop", {| type := "Optional[List[ChatMessage]]";
                    docstring := Py.Str EmptyString |}) ]
      sample_parameters_module sample_client_module
    = Ok needed
    /\ listed needed (ModuleStr "typing") "List"
    /\ listed needed (ModuleStr DEFAULT_MODULE) "ChatMessage"
    /\ ~ listed needed (ModuleStr "typing") "Optional".
Proof.
  destruct (get_imports_to_add_spec cpython_builtin_types
              (fun _ => {[ "typing" := {[ "Optional" ]} ]}) elements
              [ ("stop", {| type := "Optional[List[ChatMessage]]";
                            docstring := Py.Str EmptyString |}) ]
              sample_parameters_module sample_client_module)
    as (needed & E & Hl & _).
  - intros X. split; [apply NoDup_elements|]. intros x. apply elem_of_elements.
  - exists needed. split; [exact E|].
    assert (types_to_import cpython_builtin_types
              [ ("stop", {| type := "Optional[List[ChatMessage]]";
                            docstring := Py.Str EmptyString |}) ]
            = {[ "Optional"; "List"; "ChatMessage" ]}) as Et.
    { unfold types_to_import. cbn [foldl type snd].
      unfold _collect_type_names_from_annotation.
      assert (map (Py.strip_chars Py.quotes)
                (findall (Py.replace " " EmptyString "Optional[List[ChatMessage]]"))
              = ["Optional"; "List"; "ChatMessage"]) as -> by (vm_compute; reflexivity).
      cbn [List.filter].
      rewrite !bool_decide_eq_true_2 by decide_by_computation.
      cbn [list_to_set foldr]. set_solver. }
    split; [|split].
    + apply Hl. rewrite Et. split; [set_solver|]. split; vm_compute; reflexivity.
    + apply Hl. rewrite Et. split; [set_solver|]. split; vm_compute; reflexivity.
    + intros H. apply Hl in H as (_ & _ & H). vm_compute in H. discriminate H.
Defined.

(** On the imports [get_imports_to_add] asks for, the bare import of
    [_generate_import_statements] is never written: every statement is a
    from-import of at least one name, from the module as an f-string
    prints it (a name imported from a dotted module comes with the [repr]
    of a node); and when the client module imports every type name from
    its origin already, no statement is written at all. *)
Theorem generated_imports_are_from_imports (builtin_types : gset string)
    (gather_imports : module -> gmap string (gset string))
    (iteration : gset string -> list string) (parameters : odict)
    (parameters_module inference_client_module : module) :
  (forall X, NoDup (iteration X) /\ forall x, x ∈ iteration X <-> x ∈ X) ->
  exists needed,
    get_imports_to_add builtin_types gather_imports iteration parameters
      parameters_module inference_client_module
    = (if no_star parameters_module then Ok needed else Raise TypeError)
    /\ _generate_import_statements needed
       = Py.join Py.nl
           (map (fun kv => "from " +:+ module_text kv.1 +:+ " import "
                           +:+ Py.join ", " kv.2) needed)
    /\ ((forall n, n ∈ types_to_import builtin_types parameters ->
                   already_imported (gather_imports inference_client_module)
                     (origin (type_origins parameters_module) n) n = true) ->
        needed = [] /\ _generate_import_statements needed = EmptyString).
Proof.
  intros Hit. unfold get_imports_to_add. rewrite modules_collector_visit.
  destruct (Hit (types_to_import builtin_types parameters)) as [Hnd Hin].
  destruct (needed_imports_from_empty (type_origins parameters_module)
              (gather_imports inference_client_module)
              (iteration (types_to_import builtin_types parameters)) Hnd)
    as [[_ Hv] Hl].
  set (needed := foldl _ _ _) in *.
  exists needed. split; [destruct (no_star parameters_module); reflexivity|].
  split.
  - unfold _generate_import_statements. f_equal. clear Hl. clearbody needed.
    induction Hv as [|[m names] d [Hne _] _ IH]; [reflexivity|].
    cbn [map fst snd] in *. f_equal; [|exact IH].
    destruct names; [contradiction|reflexivity].
  - intros Hall.
    assert (needed = []) as ->; [|now split].
    destruct needed as [|[m names] d]; [reflexivity|]. exfalso.
    apply Forall_cons in Hv as [[Hne _] _]. cbn [snd] in Hne.
    destruct names as [|n names]; [contradiction|].
    assert (listed ((m, n :: names) :: d) m n) as Hmn
      by (exists (n :: names); split; now left).
    apply Hl in Hmn as (Hn & -> & Hf). apply Hin in Hn.
    rewrite (Hall n Hn) in Hf. discriminate.
Qed.


Lemma generated_imports_are_from_imports_witness :
  exists needed,
    get_imports_to_add cpython_builtin_types (fun _ => ∅) elements
      [ ("stop", {| type := "List[str]"; docstring := Py.Str EmptyString |}) ]
      sample_parameters_module sample_client_module
    = Ok needed
    /\ _generate_import_statements needed = "from typing import List".
Proof.
  destruct (generated_imports_are_from_imports cpython_builtin_types (fun _ => ∅) elements
              [ ("stop", {| type := "List[str]"; docstring := Py.Str EmptyString |}) ]
              sample_parameters_module sample_client_module)
    as (needed & E & Hg & _).
  - intros X. split; [apply NoDup_elements|]. intros x. apply elem_of_elements.
  - exists needed. split; [exact E|].
    change (no_star sample_parameters_module) with true in E. cbn iota in E.
    assert (needed = [(ModuleStr "typing", ["List"])]) as ->
      by (assert (Ok needed = Ok [(ModuleStr "typing", ["List"])]) as [= ->]
            by (rewrite <- E; vm_compute; reflexivity); reflexivity).
    rewrite Hg. reflexivity.
Defined.

(** *** The documentation entry of a parameter whose type is an identifier *)

Lemma all_chars_in_chars (p : ascii -> bool) (s : string) (c : ascii) :
  all_chars p s = true -> p c = false -> Py.in_chars s c = false.
Proof.
  induction s as [|a s IH]; [reflexivity|]. cbn [all_chars Py.in_chars].
  intros H Hc. apply andb_true_iff in H as [Ha Hs].
  rewrite (IH Hs Hc), orb_false_r. apply Ascii.eqb_neq. intros ->. congruence.
Qed.

Lemma in_chars_app (s t : string) (c : ascii) :
  Py.in_chars (s +:+ t) c = Py.in_chars s c || Py.in_chars t c.
Proof.
  induction s as [|a s IH]; [reflexivity|]. simpl.
  now rewrite IH, orb_assoc.
Qed.

(** A string that starts with [old] holds every character of [old]. *)
Lemma prefix_in_chars (old s : string) (c : ascii) :
  String.prefix old s = true -> Py.in_chars old c = true -> Py.in_chars s c = true.
Proof.
  revert s. induction old as [|a old IH]; intros s; [discriminate 2|].
  destruct s as [|b s]; cbn [String.prefix Py.in_chars]; [discriminate|].
  destruct (ascii_dec a b) as [->|]; [|discriminate].
  intros Hp Hc. apply orb_true_iff in Hc as [Hc|Hc]; [now rewrite Hc|].
  rewrite (IH s Hp Hc). apply orb_true_r.
Qed.

(** Replacing a text that does not occur changes nothing. *)
Lemma replace_go_absent (old new s : string) (c : ascii) :
  Py.in_chars old c = true -> Py.in_chars s c = false ->
  Py.replace_go old new 0 s = s.
Proof.
  intros Hold. induction s as [|a s IH]; [reflexivity|]. intros Hs.
  cbn [Py.replace_go].
  destruct (String.prefix old (String a s)) eqn:Ep.
  - rewrite (prefix_in_chars old _ c Ep Hold) in Hs. discriminate.
  - cbn [Py.in_chars] in Hs. apply orb_false_iff in Hs as [_ Hs]. now rewrite IH.
Qed.

Lemma contains_absent (old s : string) (c : ascii) :
  Py.in_chars old c = true -> Py.in_chars s c = false -> Py.contains old s = false.
Proof.
  intros Hold. induction s as [|a s IH]; intros Hs.
  - destruct old; [discriminate Hold|reflexivity].
  - cbn [Py.contains].
    destruct (String.prefix old (String a s)) eqn:Ep.
    + rewrite (prefix_in_chars old _ c Ep Hold) in Hs. discriminate.
    + cbn [Py.in_chars] in Hs. apply orb_false_iff in Hs as [_ Hs]. now rewrite IH.
Qed.

(** [rstrip] goes no further than the last character that stays. *)
Lemma rstrip_by_app (p : ascii -> bool) (s t : string) :
  all_chars (fun c => negb (p c)) s = true ->
  Py.rstrip_by p (s +:+ t) = s +:+ Py.rstrip_by p t.
Proof.
  induction s as [|a s IH]; [reflexivity|]. simpl.
  intros H. apply andb_true_iff in H as [Ha Hs]. rewrite (IH Hs).
  apply negb_true_iff in Ha. rewrite Ha.
  change (String a s +:+ Py.rstrip_by p t) with (String a (s +:+ Py.rstrip_by p t)).
  now destruct (s +:+ Py.rstrip_by p t).
Qed.

Lemma all_chars_impl (p q : ascii -> bool) (s : string) :
  (forall c, p c = true -> q c = true) -> all_chars p s = true -> all_chars q s = true.
Proof.
  intros Hpq. induction s as [|a s IH]; [reflexivity|]. cbn [all_chars].
  intros H. apply andb_true_iff in H as [Ha Hs]. now rewrite (Hpq a Ha), IH.
Qed.

Lemma append_empty_r (s : string) : s +:+ EmptyString = s.
Proof.
  induction s as [|a s IH]; [reflexivity|].
  change (String a s +:+ EmptyString) with (String a (s +:+ EmptyString)).
  now rewrite IH.
Qed.

Lemma prefix_app (old s : string) : String.prefix old (old +:+ s) = true.
Proof.
  induction old as [|a old IH]; [now destruct s|].
  change (String a old +:+ s) with (String a (old +:+ s)). cbn [String.prefix].
  destruct (ascii_dec a a) as [_|Hne]; [exact IH|now contradict Hne].
Qed.

Lemma replace_go_skip (old new p s : string) :
  Py.replace_go old new (String.length p) (p +:+ s) = Py.replace_go old new 0 s.
Proof.
  induction p as [|a p IH]; [reflexivity|].
  change (String a p +:+ s) with (String a (p +:+ s)). exact IH.
Qed.

(** An occurrence at the start is replaced, and the search goes on behind
    it. *)
Lemma replace_prefix (a : ascii) (old new s : string) :
  Py.replace (String a old) new (String a old +:+ s)
  = new +:+ Py.replace_go (String a old) new 0 s.
Proof.
  unfold Py.replace.
  pose proof (prefix_app (String a old) s) as Hp.
  change (String a old +:+ s) with (String a (old +:+ s)) in *.
  cbn [Py.replace_go]. rewrite Hp. f_equal.
  change (String.length (String a old) - 1) with (String.length old - 0).
  rewrite Nat.sub_0_r. apply replace_go_skip.
Qed.

(** For a type that is an identifier, the entry is as its pattern says:
    Optional[T] is rendered as T with the optional marker, and T alone as T
    with an empty marker; the description follows as an f-string prints
    it (a text as it is). *)
Theorem param_doc_identifier_types (indentation param_name T : string)
    (description : Py.pyvalue) :
  all_chars is_word T = true ->
  param_doc indentation param_name
    {| type := "Optional[" +:+ T +:+ "]"; docstring := description |}
  = indentation +:+ param_name +:+ " (`" +:+ T +:+ "`, *optional*):" +:+ Py.nl
    +:+ indentation +:+ "    " +:+ Py.format_or_empty description
  /\ param_doc indentation param_name {| type := T; docstring := description |}
     = indentation +:+ param_name +:+ " (`" +:+ T +:+ "`, ):" +:+ Py.nl
       +:+ indentation +:+ "    " +:+ Py.format_or_empty description.
Proof.
  intros HT.
  assert (Py.in_chars T "["%char = false) as Hopen
    by (apply (all_chars_in_chars is_word); [exact HT|reflexivity]).
  assert (all_chars (fun c => negb (Py.in_chars "]" c)) T = true) as Hclose.
  { apply (all_chars_impl is_word); [|exact HT]. intros c Hc. cbn.
    destruct (Ascii.eqb_spec c "]"%char) as [->|]; [discriminate Hc|reflexivity]. }
  assert (Py.rstrip_chars "]" T = T) as HrT.
  { unfold Py.rstrip_chars. rewrite <- (append_empty_r T) at 1.
    rewrite (rstrip_by_app _ T EmptyString Hclose). apply append_empty_r. }
  assert (Py.rstrip_chars "]" (T +:+ "]") = T) as HrT'.
  { unfold Py.rstrip_chars. rewrite (rstrip_by_app _ T "]" Hclose). apply append_empty_r. }
  assert (Py.in_chars (T +:+ "]") "["%char = false) as Hopen'
    by (now rewrite in_chars_app, Hopen).
  unfold param_doc. cbn [type docstring]. split.
  - assert (Py.replace "Optional[" EmptyString ("Optional[" +:+ T +:+ "]") = T +:+ "]")
      as ->.
    { rewrite (replace_prefix "O" "ptional[" EmptyString (T +:+ "]")).
      exact (replace_go_absent "Optional[" EmptyString _ "["%char eq_refl Hopen'). }
    rewrite HrT'.
    assert (Py.contains "Optional[" ("Optional[" +:+ T +:+ "]") = true) as ->.
    { pose proof (prefix_app "Optional[" (T +:+ "]")) as Hp.
      destruct ("Optional[" +:+ T +:+ "]"); cbn [Py.contains]; now rewrite Hp. }
    reflexivity.
  - assert (Py.replace "Optional[" EmptyString T = T) as ->
      by exact (replace_go_absent "Optional[" EmptyString T "["%char eq_refl Hopen).
    rewrite HrT, (contains_absent "Optional[" T "["%char eq_refl Hopen).
    reflexivity.
Qed.

Lemma param_doc_identifier_types_witness :
  param_doc "    " "top_k"
    {| type := "Optional[int]"; docstring := Py.Str "How many." |}
  = "    top_k (`int`, *optional*):" +:+ Py.nl +:+ "        How many.".
Proof.
  apply (param_doc_identifier_types "    " "top_k" "int" (Py.Str "How many.")).
  reflexivity.
Defined.


(** *** The loop of [_check_parameters] *)

Lemma kept_list {X} (names : X -> gset string) (defined parsed : X -> bool)
    (l l' : list X) :
  Forall2 (kept names defined parsed) l l' ->
  kept (fun l => ⋃ (map names l)) (existsb defined) (forallb parsed) l l'.
Proof.
  induction 1 as [|x x' l l' (Hn & Hd & Hp) _ (IHn & IHd & IHp)].
  - split; [done|]. split; [reflexivity|auto].
  - split; [|split]; cbn [map union_list foldr existsb forallb].
    + set_solver.
    + now rewrite Hd, IHd.
    + intros H. apply andb_true_iff in H as [H1 H2]. now rewrite Hp, IHp.
Qed.

Section Kept.
Variable evaluated_value : string -> Py.pyvalue.
Variable method_name : string.
Variable missing_params : odict.
Variable callable : string.
Hypothesis other : callable <> method_name.

Local Abbreviation rewrite := (AddParameters evaluated_value method_name missing_params).
Local Abbreviation parsed_below :=
  (every_below callable (parsed_definition evaluated_value)).
Local Abbreviation parsed_in :=
  (every_in callable (parsed_definition evaluated_value)).

Lemma update_docstring_keeps (b b' : suite stmt) :
  _update_docstring evaluated_value missing_params b = Ok b' ->
  names_in callable b' = names_in callable b
  /\ defined_in callable b' = defined_in callable b
  /\ parsed_in b' = parsed_in b.
Proof.
  destruct b as [[|[[|[| [] | | |] ?]| | |] ?]|[|? ?]]; cbn;
    try destruct (evaluated_value _); intros [= <-]; repeat split; reflexivity.
Qed.

Lemma kept_suite (b b' : suite stmt) :
  suite_Forall
    (fun s => forall s',
       transform_stmt rewrite s = Ok s' ->
       kept (names_below callable) (defined_below callable) parsed_below s s')
    b ->
  transform_suite rewrite b = Ok b' ->
  kept (names_in callable) (defined_in callable) parsed_in b b'.
Proof.
  destruct b as [l|smalls]; cbn [suite_Forall transform_suite].
  - intros IH H.
    destruct (mapM _ l) as [l'|] eqn:El; [|discriminate]. injection H as <-.
    apply CstFacts.mapM_Ok in El.
    apply (kept_list (names_below callable) (defined_below callable) parsed_below).
    now apply (CstFacts.Forall_Forall2 _ _ _ _ IH).
  - intros _ [= <-]. split; [done|]. split; [reflexivity|auto].
Qed.

(** The rewrite for one method keeps, for every other callable, the
    argument names, the definitions and what the parser gave them. *)
Lemma kept_stmt (s : stmt) :
  forall s',
    transform_stmt rewrite s = Ok s' ->
    kept (names_below callable) (defined_below callable) parsed_below s s'.
Proof.
  induction s as [smalls|name b IH|name ps b IH|kind blocks IH]
    using CstFacts.stmt_tree_ind; intros s' H.
  - injection H as <-. split; [done|]. split; [reflexivity|auto].
  - rewrite CstFacts.transform_stmt_ClassDef in H.
    destruct (transform_suite _ b) as [b'|] eqn:Eb; [|discriminate].
    injection H as <-. exact (kept_suite b b' IH Eb).
  - rewrite CstFacts.transform_stmt_FunctionDef in H.
    destruct (transform_suite _ b) as [b'|] eqn:Eb; [|discriminate].
    destruct (kept_suite b b' IH Eb) as (Hn & Hd & Hp).
    destruct (body_transform evaluated_value method_name missing_params b b' Eb)
      as (Hshape & Htext & _).
    cbn [leave_FunctionDef AddParameters] in H.
    unfold kept.
    change (names_below callable (FunctionDef name ps b))
      with (signature_names callable name ps ∪ names_in callable b).
    change (defined_below callable (FunctionDef name ps b))
      with (String.eqb name callable || defined_in callable b).
    change (parsed_below (FunctionDef name ps b))
      with ((negb (String.eqb name callable) || parsed_definition evaluated_value ps b)
            && parsed_in b).
    destruct (String.eqb name method_name) eqn:E.
    + apply (leave_FunctionDef_matched _ _ _ _ _ _ _ _ _ E) in H
        as (ps' & b'' & _ & Hu & ->).
      destruct (update_docstring_keeps b' b'' Hu) as (En & Ed & Ep).
      change (names_below callable (FunctionDef name ps' b''))
        with (signature_names callable name ps' ∪ names_in callable b'').
      change (defined_below callable (FunctionDef name ps' b''))
        with (String.eqb name callable || defined_in callable b'').
      change (parsed_below (FunctionDef name ps' b''))
        with ((negb (String.eqb name callable) || parsed_definition evaluated_value ps' b'')
              && parsed_in b'').
      assert (String.eqb name callable = false) as Ec.
      { apply String.eqb_neq. intros ->. apply String.eqb_eq in E. congruence. }
      unfold signature_names. rewrite En, Ed, Ep, Ec. cbn [negb orb andb].
      split; [set_solver|]. split; [exact Hd|exact Hp].
    + rewrite (leave_FunctionDef_other _ _ _ _ _ _ _ _ E) in H. injection H as <-.
      change (names_below callable (FunctionDef name (tuple_parameters ps) b'))
        with (signature_names callable name ps ∪ names_in callable b').
      change (defined_below callable (FunctionDef name (tuple_parameters ps) b'))
        with (String.eqb name callable || defined_in callable b').
      change (parsed_below (FunctionDef name (tuple_parameters ps) b'))
        with ((negb (String.eqb name callable)
               || parsed_definition evaluated_value (tuple_parameters ps) b')
              && parsed_in b').
      split; [set_solver|]. split; [now rewrite Hd|].
      intros Hb. apply andb_true_iff in Hb as [Hb1 Hb2]. rewrite (Hp Hb2), andb_true_r.
      destruct (negb (String.eqb name callable)); [reflexivity|].
      cbn [orb] in *. unfold parsed_definition in *. rewrite Htext.
      apply andb_true_iff in Hb1 as [Hb1 Ht]. apply andb_true_iff in Hb1 as [_ Hbp].
      cbn [tuple_parameters params kwonly_params is_tuple andb].
      now rewrite (Hshape Hbp), Ht.
  - rewrite CstFacts.transform_stmt_CompoundStatement in H.
    destruct (mapM _ blocks) as [blocks'|] eqn:El; [|discriminate]. injection H as <-.
    apply CstFacts.mapM_Ok in El.
    apply (kept_list (names_in callable) (defined_in callable) parsed_in).
    refine (CstFacts.Forall_Forall2 _ _ _ _ _ El).
    eapply Forall_impl; [exact IH|]. intros b Hb b' Hb'. exact (kept_suite b b' Hb Hb').
Qed.

Lemma kept_module (m m' : module) :
  transform rewrite m = Ok m' ->
  kept (existing_arguments callable) (defines callable)
    (as_parsed evaluated_value callable) m m'.
Proof.
  unfold transform. destruct (mapM _ (body m)) as [l'|] eqn:El; [|discriminate].
  intros [= <-]. apply CstFacts.mapM_Ok in El.
  apply (kept_list (names_below callable) (defined_below callable) parsed_below).
  refine (CstFacts.Forall_Forall2 _ _ _ _ _ El).
  apply Forall_true. intros s s'. apply kept_stmt.
Qed.

End Kept.

Section Rounds.
Variable evaluated_value : string -> Py.pyvalue.
Variable builtin_types : gset string.
Variable gather_imports : module -> gmap string (gset string).
Variable iteration : gset string -> list string.

Local Abbreviation rounds := (check_rounds evaluated_value builtin_types gather_imports iteration).
Local Abbreviation round := (check_round evaluated_value builtin_types gather_imports iteration).

(** The loop in check-only mode: it reads the signatures of the methods of
    all the tasks, and appends to the log the methods for which something
    is missing. *)
Lemma check_only_rounds (tasks : list task) :
  forall st,
    rounds false st tasks
    = if forallb (fun t => uniform (task_method t) (modified_module st)) tasks
      then Ok {| modified_module := modified_module st;
                 has_changes := has_changes st;
                 logs := logs st
                         ++ map task_method
                              (List.filter (misses evaluated_value (modified_module st)) tasks);
                 imports := imports st |}
      else Raise TypeError.
Proof.
  induction tasks as [|t tasks IH]; intros st.
  - cbn. rewrite app_nil_r. now destruct st.
  - cbn [check_rounds forallb List.filter]. unfold check_round, misses at 1.
    rewrite check_missing_parameters_eq.
    destruct (uniform (task_method t) (modified_module st)); [|reflexivity].
    cbn [mbind result_bind mret result_ret andb].
    destruct (filter _ _) as [|kv missing]; cbn [mret result_ret].
    + now rewrite IH.
    + rewrite IH. cbn [modified_module has_changes logs imports map].
      now rewrite <- app_assoc.
Qed.

Lemma kept_refl {X} (names : X -> gset string) (defined parsed : X -> bool) (x : X) :
  kept names defined parsed x x.
Proof. split; [done|]. split; [reflexivity|auto]. Qed.

Lemma kept_trans {X} (names : X -> gset string) (defined parsed : X -> bool)
    (x y z : X) :
  kept names defined parsed x y -> kept names defined parsed y z ->
  kept names defined parsed x z.
Proof.
  intros (Hn & Hd & Hp) (Hn' & Hd' & Hp'). split; [set_solver|].
  split; [congruence|auto].
Qed.

(** A field of the declaration that is not an argument of the method is
    among the missing ones. *)
Lemma declared_or_missing (m parameters_module : module)
    (method_name parameter_type_name k : string) :
  k ∈ map fst (declaration_fields evaluated_value parameter_type_name parameters_module) ->
  k ∈ existing_arguments method_name m
  \/ k ∈ map fst
         (filter (fun kv => kv.1 ∉ existing_arguments method_name m)
            (set_items
               (declaration_fields evaluated_value parameter_type_name parameters_module)
               [])).
Proof.
  intros Hk.
  destruct (decide (k ∈ existing_arguments method_name m)) as [Hin|Hout]; [now left|right].
  destruct (keys_set_items
              (declaration_fields evaluated_value parameter_type_name parameters_module) [])
    as [_ Hkeys]; [constructor|].
  assert (k ∈ map fst (set_items
                         (declaration_fields evaluated_value parameter_type_name
                            parameters_module) [])) as Hs
    by (apply Hkeys; now right).
  apply elem_of_map in Hs as (kv & -> & Hkv).
  apply elem_of_map. exists kv. split; [reflexivity|].
  apply list_elem_of_filter. now split.
Qed.

(** A task that is served in a module and declares no field named self
    misses nothing in the module with its parameters in tuples. *)
Lemma served_misses_nothing (m : module) (t : task) :
  served evaluated_value m t ->
  "self" ∉ map fst
             (declaration_fields evaluated_value (task_type t) (task_parameters t)) ->
  uniform (task_method t) (with_tuples m) = true
  /\ misses evaluated_value (with_tuples m) t = false.
Proof.
  intros Hs Hself.
  destruct (with_tuples_module (task_method t) m) as [Hex Hun].
  split; [exact Hun|]. unfold misses.
  rewrite check_missing_parameters_eq, Hun, Hex.
  assert (filter (fun kv => kv.1 ∉ existing_arguments (task_method t) m)
            (set_items
               (declaration_fields evaluated_value (task_type t) (task_parameters t)) [])
          = []) as ->; [|reflexivity].
  apply filter_none, Forall_forall. intros kv Hkv Hout. apply Hout.
  destruct (keys_set_items
              (declaration_fields evaluated_value (task_type t) (task_parameters t)) [])
    as [_ Hkeys]; [constructor|].
  assert (kv.1 ∈ map fst
            (declaration_fields evaluated_value (task_type t) (task_parameters t)))
    as Hk.
  { destruct (proj1 (Hkeys kv.1)) as [H|H]; [|now apply elem_of_nil in H|exact H].
    apply elem_of_map. now exists kv. }
  apply Hs; [exact Hk|]. intros E. apply Hself. now rewrite <- E.
Qed.

(** One round in update mode, for a task the loop can serve: it raises
    nothing and logs nothing, the task is served in the module it leaves,
    and every other callable keeps its arguments and its shape. *)
Lemma update_round (st : check_state) (t : task) :
  ready evaluated_value (modified_module st) t ->
  exists st',
    round true st t = Ok st'
    /\ logs st' = logs st
    /\ served evaluated_value (modified_module st') t
    /\ (forall callable,
          callable <> task_method t ->
          kept (existing_arguments callable) (defines callable)
            (as_parsed evaluated_value callable)
            (modified_module st) (modified_module st')).
Proof.
  intros (Hp & Hd & Hs). unfold check_round.
  rewrite check_missing_parameters_eq, (as_parsed_uniform _ _ _ Hp).
  cbn [mbind result_bind mret result_ret].
  destruct (filter _ _) as [|kv missing] eqn:E.
  - exists st. split; [reflexivity|]. split; [reflexivity|]. split.
    + intros k Hk _.
      destruct (declared_or_missing (modified_module st) (task_parameters t)
                  (task_method t) (task_type t) k Hk) as [H|H]; [exact H|].
      rewrite E in H. now apply elem_of_nil in H.
    + intros callable _. apply kept_refl.
  - unfold get_imports_to_add. rewrite modules_collector_visit, Hs.
    cbn [mbind result_bind mret result_ret].
    destruct (transform_module evaluated_value (task_method t) (kv :: missing)
                (modified_module st) Hp) as (m' & Em & Hn & Hw).
    rewrite Em. cbn [mbind result_bind mret result_ret].
    eexists. split; [reflexivity|]. cbn [modified_module logs].
    split; [reflexivity|]. split.
    + intros k Hk Hself.
      destruct (declared_or_missing (modified_module st) (task_parameters t)
                  (task_method t) (task_type t) k Hk) as [H|H].
      * apply Hn, H.
      * rewrite E in H. apply (Hw Hd). unfold wanted.
        apply elem_of_difference. split; [|set_solver].
        apply elem_of_list_to_set. exact H.
    + intros callable Hc.
      exact (kept_module evaluated_value (task_method t) (kv :: missing) callable Hc
               (modified_module st) m' Em).
Qed.

(** The loop in update mode over tasks it can serve, each for a method of
    its own. *)
Lemma update_rounds (tasks : list task) :
  forall st,
    NoDup (map task_method tasks) ->
    Forall (ready evaluated_value (modified_module st)) tasks ->
    exists st',
      rounds true st tasks = Ok st'
      /\ logs st' = logs st
      /\ Forall (served evaluated_value (modified_module st')) tasks
      /\ (forall callable,
            callable ∉ map task_method tasks ->
            kept (existing_arguments callable) (defines callable)
              (as_parsed evaluated_value callable)
              (modified_module st) (modified_module st')).
Proof.
  induction tasks as [|t tasks IH]; intros st Hnd Hr.
  - exists st. split; [reflexivity|]. split; [reflexivity|]. split; [constructor|].
    intros callable _. apply kept_refl.
  - cbn [map] in Hnd. apply NoDup_cons in Hnd as [Ht Hnd].
    apply Forall_cons in Hr as [Hrt Hr].
    destruct (update_round st t Hrt) as (st1 & E1 & Hl1 & Hs1 & Hk1).
    destruct (IH st1 Hnd) as (st2 & E2 & Hl2 & Hs2 & Hk2).
    { apply Forall_forall. intros t' Ht'.
      destruct (proj1 (Forall_forall _ _) Hr t' Ht') as (Hp & Hd & Hs).
      assert (task_method t' <> task_method t) as Hne.
      { intros Heq. apply Ht. rewrite <- Heq. apply elem_of_map.
        exists t'. now split. }
      destruct (Hk1 _ Hne) as (_ & Hd' & Hp').
      split; [now apply Hp'|]. split; [now rewrite Hd'|exact Hs]. }
    exists st2. cbn [check_rounds]. rewrite E1. split; [exact E2|].
    split; [congruence|]. split.
    + constructor; [|exact Hs2].
      intros k Hk Hself. destruct (Hk2 _ Ht) as (Hn & _). apply Hn.
      now apply Hs1.
    + intros callable Hc. cbn [map] in Hc. apply not_elem_of_cons in Hc as [Hc1 Hc2].
      exact (kept_trans _ _ _ _ _ _ (Hk1 _ Hc1) (Hk2 _ Hc2)).
Qed.

End Rounds.

(** Check-only mode leaves the module as it is. It raises [TypeError]
    when the signature of the method of a task cannot be read, and nothing
    otherwise; it then logs, in the order of the tasks, the methods for
    which something is missing, and the exit status is [1] exactly when
    there is one. *)
Theorem check_only_reports (evaluated_value : string -> Py.pyvalue)
    (builtin_types : gset string)
    (gather_imports : module -> gmap string (gset string))
    (iteration : gset string -> list string) (m : module) (tasks : list task) :
  let reported := map task_method (List.filter (misses evaluated_value m) tasks) in
  let final := {| modified_module := m; has_changes := false; logs := reported;
                  imports := [] |} in
  check_rounds evaluated_value builtin_types gather_imports iteration false
    (initial_state m) tasks
  = (if forallb (fun t => uniform (task_method t) m) tasks
     then Ok final else Raise TypeError)
  /\ (exit_status final = 0
      <-> Forall (fun t => misses evaluated_value m t = false) tasks).
Proof.
  cbn zeta. split.
  - now rewrite check_only_rounds.
  - unfold exit_status. cbn [logs].
    induction tasks as [|t tasks IH]; [split; [constructor|reflexivity]|].
    cbn [List.filter]. destruct (misses evaluated_value m t) eqn:E; cbn [map].
    + split; [discriminate|]. intros H. apply Forall_cons in H as [H _]. congruence.
    + rewrite IH. split; [now constructor|]. intros H. now apply Forall_cons in H as [_ H].
Qed.



(** *** The name of the parameters dataclass *)

Lemma take_while_all (p : ascii -> bool) (s : string) :
  all_chars p (take_while p s) = true.
Proof.
  induction s as [|a s IH]; [reflexivity|]. cbn [take_while].
  destruct (p a) eqn:E; [|reflexivity]. cbn [all_chars]. now rewrite E, IH.
Qed.

Lemma match_dataclass_shape (s name : string) :
  match_dataclass s = Some name ->
  all_chars is_word name = true
  /\ ends_with "Parameters" name = true
  /\ 10 < String.length name.
Proof.
  unfold match_dataclass.
  destruct (strip_prefix dataclass_header s) as [[|c rest]|]; try discriminate.
  destruct (Py.isspace c); [|discriminate].
  destruct ((10 <? String.length (take_while is_word rest))
            && ends_with "Parameters" (take_while is_word rest)) eqn:E; [|discriminate].
  destruct (strip_prefix _ _); [|discriminate]. intros [= <-].
  apply andb_true_iff in E as [Hlen Hend]. apply Nat.ltb_lt in Hlen.
  split; [apply take_while_all|]. now split.
Qed.

Lemma search_dataclass_shape (content name : string) :
  forall b : bool,
    search_dataclass b content = Some name ->
    all_chars is_word name = true
    /\ ends_with "Parameters" name = true
    /\ 10 < String.length name.
Proof.
  induction content as [|c content IH]; intros b; [discriminate|].
  cbn [search_dataclass].
  destruct (if b then match_dataclass (String c content) else None) as [w|] eqn:E.
  - intros [= <-]. destruct b; [|discriminate]. exact (match_dataclass_shape _ _ E).
  - apply IH.
Qed.

(** A name [_get_parameter_type_name] returns is made of word characters,
    ends in Parameters and has something before it: a class that is called
    Parameters and nothing more is not found. *)
Theorem parameter_type_name_shape (file : option string) (name : string) :
  _get_parameter_type_name file = Some name ->
  all_chars is_word name = true
  /\ ends_with "Parameters" name = true
  /\ 10 < String.length name.
Proof.
  destruct file as [content|]; [|discriminate]. cbn [_get_parameter_type_name].
  apply search_dataclass_shape.
Qed.

Lemma parameter_type_name_shape_witness :
  all_chars is_word "TextParameters" = true
  /\ ends_with "Parameters" "TextParameters" = true
  /\ 10 < String.length "TextParameters".
Proof.
  apply (parameter_type_name_shape
           (Some ("import x" +:+ Py.nl +:+ dataclass_header
                  +:+ " TextParameters(BaseInferenceType):"))).
  vm_compute. reflexivity.
Defined.

Lemma strip_prefix_app (lit r : string) : strip_prefix lit (lit +:+ r) = Some r.
Proof.
  induction lit as [|a lit IH]; [reflexivity|].
  change (String a lit +:+ r) with (String a (lit +:+ r)). cbn [strip_prefix].
  now rewrite Ascii.eqb_refl.
Qed.

Lemma take_while_app (p : ascii -> bool) (w : string) (c : ascii) (r : string) :
  all_chars p w = true -> p c = false -> take_while p (w +:+ String c r) = w.
Proof.
  intros Hw Hc. induction w as [|a w IH].
  - change (EmptyString +:+ String c r) with (String c r). cbn [take_while].
    now rewrite Hc.
  - change (String a w +:+ String c r) with (String a (w +:+ String c r)).
    cbn [all_chars take_while] in *. apply andb_true_iff in Hw as [Ha Hw].
    now rewrite Ha, IH.
Qed.

Lemma drop_string_app (w r : string) : drop_string (String.length w) (w +:+ r) = r.
Proof.
  induction w as [|a w IH]; [now destruct r|].
  change (String a w +:+ r) with (String a (w +:+ r)). exact IH.
Qed.

Lemma ends_with_app (x suffix : string) : ends_with suffix (x +:+ suffix) = true.
Proof.
  induction x as [|a x IH].
  - change (EmptyString +:+ suffix) with suffix.
    destruct suffix; cbn [ends_with]; now rewrite String.eqb_refl.
  - change (String a x +:+ suffix) with (String a (x +:+ suffix)).
    cbn [ends_with]. rewrite IH. apply orb_true_r.
Qed.

Lemma length_app (x y : string) :
  String.length (x +:+ y) = String.length x + String.length y.
Proof.
  induction x as [|a x IH]; [reflexivity|].
  change (String a x +:+ y) with (String a (x +:+ y)). cbn [String.length]. now rewrite IH.
Qed.

Lemma all_chars_app (p : ascii -> bool) (x y : string) :
  all_chars p x = true -> all_chars p y = true -> all_chars p (x +:+ y) = true.
Proof.
  intros Hx Hy. induction x as [|a x IH]; [exact Hy|].
  change (String a x +:+ y) with (String a (x +:+ y)).
  cbn [all_chars] in *. apply andb_true_iff in Hx as [Ha Hx]. now rewrite Ha, IH.
Qed.

(** A schema file that opens with the decorator line and the class line of
    a dataclass whose name is an identifier followed by Parameters gives
    that name. *)
Theorem parameter_type_name_found (X rest : string) :
  all_chars is_word X = true ->
  X <> EmptyString ->
  _get_parameter_type_name
    (Some (dataclass_header
           +:+ String " " ((X +:+ "Parameters") +:+ "(BaseInferenceType):" +:+ rest)))
  = Some (X +:+ "Parameters").
Proof.
  intros HX Hne. cbn [_get_parameter_type_name].
  set (W := X +:+ "Parameters").
  assert (match_dataclass
            (dataclass_header +:+ String " " (W +:+ "(BaseInferenceType):" +:+ rest))
          = Some W) as Hm.
  { unfold match_dataclass. rewrite strip_prefix_app.
    change (Py.isspace " ") with true. cbn iota.
    assert (take_while is_word (W +:+ "(BaseInferenceType):" +:+ rest) = W) as ->.
    { apply (take_while_app is_word W "("%char); [|reflexivity].
      apply all_chars_app; [exact HX|reflexivity]. }
    assert ((10 <? String.length W) && ends_with "Parameters" W = true) as ->.
    { unfold W. rewrite ends_with_app, andb_true_r, length_app.
      apply Nat.ltb_lt. destruct X; [contradiction|cbn; lia]. }
    now rewrite drop_string_app, strip_prefix_app. }
  change (dataclass_header +:+ String " " (W +:+ "(BaseInferenceType):" +:+ rest))
    with (String "@" ("dataclass" +:+ Py.nl +:+ "class"
                      +:+ String " " (W +:+ "(BaseInferenceType):" +:+ rest))) in *.
  cbn [search_dataclass]. now rewrite Hm.
Qed.

Lemma parameter_type_name_found_witness :
  _get_parameter_type_name
    (Some (dataclass_header
           +:+ String " " (("Text" +:+ "Parameters") +:+ "(BaseInferenceType):" +:+ Py.nl)))
  = Some ("Text" +:+ "Parameters").
Proof.
  apply (parameter_type_name_found "Text" Py.nl); [reflexivity|discriminate].
Defined.
End TaskParamsSpec.
